(** * Semongko: the merge, score and state-machine core of the fruit game

    A shallow embedding of [src/game.ts], [src/main.ts], [src/constants.ts]
    and [src/utils.ts], and the properties of the merge resolver, the score
    bridge and the drop gate proved on it.

    Modelling conventions.
    - A JavaScript [number] that carries a coordinate, a radius or a scale is
      an IEEE-754 binary64 value: Rocq's primitive [float], whose operations
      round exactly as JavaScript's do.
    - A [number] that is an index, a merge count or a score is an integer
      ([nat] or [Z]): the catalog's score values are integers and counts only
      grow by one, so the doubles stay exact far beyond any playable game.
    - The physics engine (Matter.js) is not part of the repository.  A body is
      the record of the fields the game reads or writes; body objects live in
      a heap and are named by their index, so that two collision pairs can
      mention the same object; [engine.world] is the list of the bodies that
      are in the composite.
    - An uncaught JavaScript exception ends the running callback and leaves
      the mutations made so far in place: a computation returns the state
      together with [None] in that case.
    - DOM writes and audio playback have no effect on the modelled state and
      are left out. *)

From Stdlib Require Import ZArith List Strings.String Floats.PrimFloat Lia.
From Stdlib Require Floats.FloatAxioms.
From stdpp Require Import base list gmap strings.
Import ListNotations.

Set Default Proof Using "Type".
(* The catalog's decimal scales are read as the nearest binary64 values, as
   JavaScript reads them. *)
Set Warnings "-inexact-float".

(** ** JavaScript numbers *)

Module JS.

(** [ToBoolean] on a number: [0], [-0] and [NaN] are falsy. *)
Definition truthy (v : float) : bool :=
  negb (PrimFloat.eqb v 0%float) && negb (PrimFloat.is_nan v).

(** [v || 0] for a field that may be [undefined]. *)
Definition orZero (v : option float) : float :=
  match v with
  | Some r => if truthy r then r else 0%float
  | None => 0%float
  end.

(** [ToInt32] and [ToUint32], applied by the bitwise operators. *)
Definition ToUint32 (z : Z) : Z := (z mod 2 ^ 32)%Z.
Definition ToInt32 (z : Z) : Z := ((z + 2 ^ 31) mod 2 ^ 32 - 2 ^ 31)%Z.

(** [a ^ b], [a | b], [a >>> n] and [Math.imul a b]. *)
Definition xor (a b : Z) : Z := Z.lxor (ToInt32 a) (ToInt32 b).
Definition or (a b : Z) : Z := Z.lor (ToInt32 a) (ToInt32 b).
Definition ushr (a n : Z) : Z := Z.shiftr (ToUint32 a) (n mod 32).
Definition imul (a b : Z) : Z := ToInt32 (ToInt32 a * ToInt32 b).

End JS.

(** ** Constants ([src/constants.ts]) *)

Definition loseHeight : float := 84%float.
Definition previewBallHeight : float := 32%float.

(** ** Types ([src/types.ts]) *)

Record Vector : Type := { x : float; y : float }.

(** [FruitBody extends Matter.Body]: [sizeIndex] is [undefined] on a body the
    game did not create; an absent [popped] is falsy, as [false] is. *)
Record FruitBody : Type := {
  isStatic : bool;
  position : Vector;
  circleRadius : option float;
  sizeIndex : option nat;
  popped : bool;
}.

(** [FruitSize], without the fields that only shape the polygon handed to
    the engine ([shapeType], [sides], [createVertices]). *)
Record FruitSize : Type := {
  image : string;
  textureSize : float;
  scoreValue : Z;
  scale : float;
  physicsScale : option float;
  radius : option float;
}.

Inductive GameStates : Type := MENU | READY | DROP | LOSE.

(** The callbacks handed to [setTimeout]. *)
Inductive Timer : Type :=
| TimerReady                (* startGame, restartGame: 250 ms *)
| TimerDrop                 (* addFruit: 500 ms *)
| TimerPop (circle : nat).  (* addPop: 100 ms *)

(** The [Game] object together with the module-level state around it. *)
Record GameInterface : Type := {
  stateIndex : GameStates;
  score : Z;
  fruitsMerged : list Z;
  fruitSizes : list FruitSize;
  currentFruitSize : nat;
  nextFruitSize : nat;
  highscore : Z;               (* Game.cache.highscore *)
  previewBall : option nat;    (* Game.elements.previewBall *)
  storage : option Z;          (* localStorage 'suika-game-cache': its highscore *)
  seed : Z;                    (* the variable [a] captured by [rand] *)
  heap : list FruitBody;       (* every body object created so far *)
  world : list nat;            (* engine.world *)
  timers : list Timer;         (* pending setTimeout callbacks *)
  runnerEnabled : bool;        (* runner.enabled *)
  mouseX : float;              (* render.mouse.position.x *)
}.

Definition set_stateIndex (v : GameStates) (g : GameInterface) : GameInterface :=
  Build_GameInterface v (score g) (fruitsMerged g) (fruitSizes g) (currentFruitSize g)
    (nextFruitSize g) (highscore g) (previewBall g) (storage g) (seed g) (heap g)
    (world g) (timers g) (runnerEnabled g) (mouseX g).
Definition set_score (v : Z) (g : GameInterface) : GameInterface :=
  Build_GameInterface (stateIndex g) v (fruitsMerged g) (fruitSizes g) (currentFruitSize g)
    (nextFruitSize g) (highscore g) (previewBall g) (storage g) (seed g) (heap g)
    (world g) (timers g) (runnerEnabled g) (mouseX g).
Definition set_fruitsMerged (v : list Z) (g : GameInterface) : GameInterface :=
  Build_GameInterface (stateIndex g) (score g) v (fruitSizes g) (currentFruitSize g)
    (nextFruitSize g) (highscore g) (previewBall g) (storage g) (seed g) (heap g)
    (world g) (timers g) (runnerEnabled g) (mouseX g).
Definition set_fruitSizes (v : list FruitSize) (g : GameInterface) : GameInterface :=
  Build_GameInterface (stateIndex g) (score g) (fruitsMerged g) v (currentFruitSize g)
    (nextFruitSize g) (highscore g) (previewBall g) (storage g) (seed g) (heap g)
    (world g) (timers g) (runnerEnabled g) (mouseX g).
Definition set_currentFruitSize (v : nat) (g : GameInterface) : GameInterface :=
  Build_GameInterface (stateIndex g) (score g) (fruitsMerged g) (fruitSizes g) v
    (nextFruitSize g) (highscore g) (previewBall g) (storage g) (seed g) (heap g)
    (world g) (timers g) (runnerEnabled g) (mouseX g).
Definition set_nextFruitSize (v : nat) (g : GameInterface) : GameInterface :=
  Build_GameInterface (stateIndex g) (score g) (fruitsMerged g) (fruitSizes g)
    (currentFruitSize g) v (highscore g) (previewBall g) (storage g) (seed g) (heap g)
    (world g) (timers g) (runnerEnabled g) (mouseX g).
Definition set_highscore (v : Z) (g : GameInterface) : GameInterface :=
  Build_GameInterface (stateIndex g) (score g) (fruitsMerged g) (fruitSizes g)
    (currentFruitSize g) (nextFruitSize g) v (previewBall g) (storage g) (seed g) (heap g)
    (world g) (timers g) (runnerEnabled g) (mouseX g).
Definition set_previewBall (v : option nat) (g : GameInterface) : GameInterface :=
  Build_GameInterface (stateIndex g) (score g) (fruitsMerged g) (fruitSizes g)
    (currentFruitSize g) (nextFruitSize g) (highscore g) v (storage g) (seed g) (heap g)
    (world g) (timers g) (runnerEnabled g) (mouseX g).
Definition set_storage (v : option Z) (g : GameInterface) : GameInterface :=
  Build_GameInterface (stateIndex g) (score g) (fruitsMerged g) (fruitSizes g)
    (currentFruitSize g) (nextFruitSize g) (highscore g) (previewBall g) v (seed g) (heap g)
    (world g) (timers g) (runnerEnabled g) (mouseX g).
Definition set_seed (v : Z) (g : GameInterface) : GameInterface :=
  Build_GameInterface (stateIndex g) (score g) (fruitsMerged g) (fruitSizes g)
    (currentFruitSize g) (nextFruitSize g) (highscore g) (previewBall g) (storage g) v (heap g)
    (world g) (timers g) (runnerEnabled g) (mouseX g).
Definition set_heap (v : list FruitBody) (g : GameInterface) : GameInterface :=
  Build_GameInterface (stateIndex g) (score g) (fruitsMerged g) (fruitSizes g)
    (currentFruitSize g) (nextFruitSize g) (highscore g) (previewBall g) (storage g) (seed g) v
    (world g) (timers g) (runnerEnabled g) (mouseX g).
Definition set_world (v : list nat) (g : GameInterface) : GameInterface :=
  Build_GameInterface (stateIndex g) (score g) (fruitsMerged g) (fruitSizes g)
    (currentFruitSize g) (nextFruitSize g) (highscore g) (previewBall g) (storage g) (seed g)
    (heap g) v (timers g) (runnerEnabled g) (mouseX g).
Definition set_timers (v : list Timer) (g : GameInterface) : GameInterface :=
  Build_GameInterface (stateIndex g) (score g) (fruitsMerged g) (fruitSizes g)
    (currentFruitSize g) (nextFruitSize g) (highscore g) (previewBall g) (storage g) (seed g)
    (heap g) (world g) v (runnerEnabled g) (mouseX g).
Definition set_runnerEnabled (v : bool) (g : GameInterface) : GameInterface :=
  Build_GameInterface (stateIndex g) (score g) (fruitsMerged g) (fruitSizes g)
    (currentFruitSize g) (nextFruitSize g) (highscore g) (previewBall g) (storage g) (seed g)
    (heap g) (world g) (timers g) v (mouseX g).
Definition set_mouseX (v : float) (g : GameInterface) : GameInterface :=
  Build_GameInterface (stateIndex g) (score g) (fruitsMerged g) (fruitSizes g)
    (currentFruitSize g) (nextFruitSize g) (highscore g) (previewBall g) (storage g) (seed g)
    (heap g) (world g) (timers g) (runnerEnabled g) v.

Definition GameStates_eqb (s t : GameStates) : bool :=
  match s, t with
  | MENU, MENU | READY, READY | DROP, DROP | LOSE, LOSE => true
  | _, _ => false
  end.

(** ** Computations on the game state *)

(** A callback body: it transforms the state and either yields a value or
    throws ([None]). *)
Definition Eff (A : Type) : Type := GameInterface -> GameInterface * option A.

Definition ret {A : Type} (a : A) : Eff A := fun g => (g, Some a).
Definition bind {A B : Type} (m : Eff A) (k : A -> Eff B) : Eff B :=
  fun g => match m g with
           | (g', Some a) => k a g'
           | (g', None) => (g', None)
           end.
Definition throw {A : Type} : Eff A := fun g => (g, None).
Definition get : Eff GameInterface := fun g => (g, Some g).
Definition modify (f : GameInterface -> GameInterface) : Eff unit :=
  fun g => (f g, Some tt).

Declare Scope eff_scope.
Delimit Scope eff_scope with eff.
Bind Scope eff_scope with Eff.
Notation "'let*' v := m 'in' k" := (bind m (fun v => k))
  (at level 10, v name, m at level 100, k at level 200) : eff_scope.
Notation "m ;; k" := (bind m (fun _ => k))
  (at level 100, k at level 200, right associativity) : eff_scope.
Open Scope eff_scope.

(** ** The random number generator ([src/utils.ts]) *)

(** One call of the closure returned by [mulberry32]: the new value of the
    captured [a] and the numerator [u] of the result [u / 4294967296].  [a]
    is an exact integer (it is a double below 2^53 in any real session). *)
Definition mulberry32 (a : Z) : Z * Z :=
  let a := (a + 0x6D2B79F5)%Z in
  let t := a in
  let t := JS.imul (JS.xor t (JS.ushr t 15)) (JS.or t 1) in
  let t := JS.xor t (t + JS.imul (JS.xor t (JS.ushr t 7)) (JS.or t 61)) in
  (a, JS.ushr (JS.xor t (JS.ushr t 14)) 0).

(** [rand()]: the numerator of the next pseudo-random number. *)
Definition rand : Eff Z :=
  let* g := get in
  let '(a, u) := mulberry32 (seed g) in
  modify (set_seed a);;
  ret u.

(** [Math.floor(rand() * 5)]: [u / 2^32] and its product with 5 are exact
    in binary64 (35 significant bits at most), so the floor is that of the
    rational [5 u / 2^32]. *)
Definition floor_times5 (u : Z) : nat := Z.to_nat (u * 5 / 4294967296).

Arguments mulberry32 : simpl never.
Arguments floor_times5 : simpl never.

(** ** The game object ([src/game.ts]) *)

Definition mkFruitSize (img : string) (size : float) (value : Z) (sc : float) : FruitSize :=
  {| image := img; textureSize := size; scoreValue := value; scale := sc;
     physicsScale := None; radius := None |}.

Definition fruitSizes0 : list FruitSize :=
  [ mkFruitSize "./assets/img/circle0.png"  1024 2  0.047;
    mkFruitSize "./assets/img/circle1.png"  150  5  0.426;
    mkFruitSize "./assets/img/circle2.png"  228  9  0.351;
    mkFruitSize "./assets/img/circle3.png"  225  13 0.498;
    mkFruitSize "./assets/img/circle4.png"  286  18 0.448;
    mkFruitSize "./assets/img/circle5.png"  350  25 0.411;
    mkFruitSize "./assets/img/circle6.png"  418  34 0.402;
    mkFruitSize "./assets/img/circle7.png"  484  41 0.397;
    mkFruitSize "./assets/img/circle8.png"  609  49 0.420;
    mkFruitSize "./assets/img/circle9.png"  661  58 0.484;
    mkFruitSize "./assets/img/circle10.png" 778  65 0.493 ]%float.

(** The callback of [Game.fruitsMerged.reduce], run from index [sizeIndex]
    on; [Game.fruitSizes[sizeIndex]] being [undefined] is a TypeError. *)
Fixpoint reduceScore (sizes : list FruitSize) (counts : list Z) (sizeIndex : nat)
    (total : Z) : option Z :=
  match counts with
  | [] => Some total
  | count :: counts' =>
      match sizes !! sizeIndex with
      | None => None
      | Some size =>
          let value := (scoreValue size * count)%Z in
          reduceScore sizes counts' (S sizeIndex) (total + value)
      end
  end.

Definition calculateScore : Eff unit :=
  let* g := get in
  match reduceScore (fruitSizes g) (fruitsMerged g) 0 0 with
  | None => throw
  | Some score => modify (set_score score)
  end.

Definition setNextFruitSize : Eff unit :=
  let* u := rand in
  modify (set_nextFruitSize (floor_times5 u)).

Definition saveHighscore : Eff unit :=
  calculateScore;;
  let* g := get in
  if (score g <? highscore g)%Z then ret tt
  else
    modify (set_highscore (score g));;
    modify (set_storage (Some (score g))).

(** [gameCache] is the parsed content of the storage key, when present. *)
Definition loadHighscore : Eff unit :=
  let* g := get in
  match storage g with
  | None => saveHighscore
  | Some h => modify (set_highscore h)
  end.

(** [physicsScale ?? scale], and the radius computed from it. *)
Definition physicsScaleOf (size : FruitSize) : float :=
  match physicsScale size with
  | Some s => s
  | None => scale size
  end.

Definition computedRadius (size : FruitSize) : float :=
  (textureSize size * physicsScaleOf size / 2)%float.

(** [Array.prototype.findIndex] from index [i] on; [None] is [-1]. *)
Fixpoint findIndex {A : Type} (p : A -> bool) (l : list A) (i : nat) : option nat :=
  match l with
  | [] => None
  | a :: l' => if p a then Some i else findIndex p l' (S i)
  end.

Definition tolerance : float := 0.5%float.

Definition lookupFruitIndex (g : GameInterface) (r : float) : option nat :=
  match findIndex (fun size => (abs (computedRadius size - r) <? tolerance)%float)
          (fruitSizes g) 0 with
  | None => None
  | Some sizeIndex =>
      if sizeIndex =? length (fruitSizes g) - 1 then None else Some sizeIndex
  end.

(** ** The engine's composite and timers *)

Definition set_radius (v : option float) (size : FruitSize) : FruitSize :=
  {| image := image size; textureSize := textureSize size; scoreValue := scoreValue size;
     scale := scale size; physicsScale := physicsScale size; radius := v |}.

Definition set_popped (v : bool) (body : FruitBody) : FruitBody :=
  {| isStatic := isStatic body; position := position body;
     circleRadius := circleRadius body; sizeIndex := sizeIndex body; popped := v |}.

Definition set_position (v : Vector) (body : FruitBody) : FruitBody :=
  {| isStatic := isStatic body; position := v;
     circleRadius := circleRadius body; sizeIndex := sizeIndex body; popped := popped body |}.

Definition memb (i : nat) (l : list nat) : bool := existsb (Nat.eqb i) l.

(** A new body object: its identity is the next free index of the heap. *)
Definition newBody (body : FruitBody) : Eff nat :=
  let* g := get in
  modify (set_heap (heap g ++ [body]));;
  ret (length (heap g)).

(** Reading a body through a reference; a reference to no object is a
    TypeError at the first property access. *)
Definition deref (i : nat) : Eff FruitBody :=
  let* g := get in
  match heap g !! i with
  | Some body => ret body
  | None => throw
  end.

(** [Composite.add(engine.world, bodies)] and
    [Composite.remove(engine.world, bodies)]: a removed body is no longer
    in the world. *)
Definition Composite_add (bodies : list nat) : Eff unit :=
  let* g := get in modify (set_world (world g ++ bodies)).

Definition Composite_remove (bodies : list nat) : Eff unit :=
  let* g := get in
  modify (set_world (List.filter (fun i => negb (memb i bodies)) (world g))).

Definition setTimeout (t : Timer) : Eff unit :=
  let* g := get in modify (set_timers (timers g ++ [t])).

Section Engine.

(** [Bodies.fromVertices] belongs to the engine: the [circleRadius] it
    reports for the polygon built around a given radius is a parameter. *)
Variable fromVerticesRadius : float -> option float.

(** [extraConfig] is reduced to its [isStatic] entry (absent: [false]); the
    collision filter of the preview body only concerns the engine. *)
Definition generateFruitBody (posX posY : float) (index : nat) (static : bool) : Eff nat :=
  let* g := get in
  match fruitSizes g !! index with
  | None => throw
  | Some config =>
      let r := computedRadius config in
      modify (set_fruitSizes (<[index := set_radius (Some r) config]> (fruitSizes g)));;
      newBody {| isStatic := static;
                 position := {| x := posX; y := posY |};
                 circleRadius := fromVerticesRadius r;
                 sizeIndex := Some index;
                 popped := false |}
  end.

(** ** The game loop ([src/main.ts]) *)

(** [Bodies.circle(x, y, r, ...)] reports [r] as its [circleRadius]; the
    options object draws the sprite angle from [rand] first. *)
Definition addPop (posX posY r : float) : Eff unit :=
  let* _ := rand in
  let* circle := newBody {| isStatic := true;
                            position := {| x := posX; y := posY |};
                            circleRadius := Some r;
                            sizeIndex := None;
                            popped := false |} in
  Composite_add [circle];;
  setTimeout (TimerPop circle).

Definition originalLoseGame : Eff unit :=
  modify (set_stateIndex LOSE);;
  saveHighscore.

Definition loseGame : Eff unit :=
  originalLoseGame;;
  modify (set_runnerEnabled false).

Definition addFruit (posX : float) : Eff unit :=
  let* g := get in
  if negb (GameStates_eqb (stateIndex g) READY) then ret tt
  else
    modify (set_stateIndex DROP);;
    let* latestFruit := generateFruitBody posX previewBallHeight (currentFruitSize g) false in
    Composite_add [latestFruit];;
    let* g := get in
    modify (set_currentFruitSize (nextFruitSize g));;
    setNextFruitSize;;
    calculateScore;;
    let* g := get in
    match previewBall g with
    | Some ball => Composite_remove [ball]
    | None => ret tt
    end;;
    let* g := get in
    let* ball := generateFruitBody (mouseX g) previewBallHeight (currentFruitSize g) true in
    modify (set_previewBall (Some ball));;
    setTimeout TimerDrop.

(** What one iteration of the [collisionStart] loop does next. *)
Inductive LoopCtl : Type := Continue | Return.

(** [Game.fruitSizes[Game.fruitSizes.length - 1].radius]. *)
Definition maxRadiusOf (sizes : list FruitSize) : option (option float) :=
  radius <$> sizes !! (length sizes - 1).

(** [maxRadius && r >= maxRadius]. *)
Definition reachedMax (maxRadius : option float) (r : float) : bool :=
  match maxRadius with
  | Some m => JS.truthy m && (m <=? r)%float
  | None => false
  end.

(** [Game.fruitsMerged[i] += 1].  Past the end of the array JavaScript
    would store [NaN] there, which the integer counts do not represent: the
    array is left as it is, and the results about counts assume the index in
    range (it is in every reachable state, see [reachable_wf]). *)
Definition incrMerged (i : nat) : Eff unit :=
  let* g := get in
  modify (set_fruitsMerged (alter (fun count => (count + 1)%Z) i (fruitsMerged g))).

Definition markPopped (i : nat) : Eff unit :=
  let* g := get in
  modify (set_heap (alter (set_popped true) i (heap g))).

(** The body of the loop over [e.pairs], for the pair [(a, b)]. *)
Definition collisionPair (p : nat * nat) : Eff LoopCtl :=
  let '(a, b) := p in
  let* bodyA := deref a in
  let* bodyB := deref b in
  if isStatic bodyA || isStatic bodyB then ret Continue
  else
    let aY := (y (position bodyA) + JS.orZero (circleRadius bodyA))%float in
    let bY := (y (position bodyB) + JS.orZero (circleRadius bodyB))%float in
    if (aY <? loseHeight)%float || (bY <? loseHeight)%float then
      loseGame;;
      ret Return
    else
      match sizeIndex bodyA, sizeIndex bodyB with
      | Some sizeA, Some sizeB =>
          if negb (sizeA =? sizeB) then ret Continue
          else if popped bodyA || popped bodyB then ret Continue
          else
            let* g := get in
            match maxRadiusOf (fruitSizes g) with
            | None => throw
            | Some maxRadius =>
                let newSize :=
                  if reachedMax maxRadius (JS.orZero (circleRadius bodyA)) then 0
                  else sizeA + 1 in
                incrMerged sizeA;;
                let midPosX := ((x (position bodyA) + x (position bodyB)) / 2)%float in
                let midPosY := ((y (position bodyA) + y (position bodyB)) / 2)%float in
                markPopped a;;
                markPopped b;;
                Composite_remove [a; b];;
                let* merged := generateFruitBody midPosX midPosY newSize false in
                Composite_add [merged];;
                addPop midPosX midPosY (JS.orZero (circleRadius bodyA));;
                calculateScore;;
                ret Continue
            end
      | _, _ => ret Continue
      end.

(** The [collisionStart] listener: the pairs in the engine's order. *)
Fixpoint collisionStart (pairs : list (nat * nat)) : Eff unit :=
  match pairs with
  | [] => ret tt
  | p :: pairs' =>
      let* ctl := collisionPair p in
      match ctl with
      | Continue => collisionStart pairs'
      | Return => ret tt
      end
  end.

(** [restartGame]: every non-static body of the world is removed. *)
Definition isStaticAt (bodies : list FruitBody) (i : nat) : bool :=
  match bodies !! i with
  | Some body => isStatic body
  | None => false
  end.

Definition restartGame : Eff unit :=
  let* g := get in
  let allBodies := world g in
  let dynamicBodies := List.filter (fun i => negb (isStaticAt (heap g) i)) allBodies in
  Composite_remove dynamicBodies;;
  modify (set_score 0);;
  modify (set_fruitsMerged (replicate (length (fruitSizes g)) 0%Z));;
  calculateScore;;
  let* ball := generateFruitBody (640 / 2)%float previewBallHeight 0 true in
  modify (set_previewBall (Some ball));;
  Composite_add [ball];;
  setNextFruitSize;;
  let* g := get in
  modify (set_currentFruitSize (nextFruitSize g));;
  setNextFruitSize;;
  modify (set_runnerEnabled true);;
  setTimeout TimerReady.

(** The callbacks of the pending timers. *)
Definition fire (t : Timer) : Eff unit :=
  match t with
  | TimerReady => modify (set_stateIndex READY)
  | TimerDrop =>
      let* g := get in
      match stateIndex g, previewBall g with
      | DROP, Some ball =>
          Composite_add [ball];;
          modify (set_stateIndex READY)
      | _, _ => ret tt
      end
  | TimerPop circle => Composite_remove [circle]
  end.

(** The [mousemove] listener. *)
Definition mousemove (posX : float) : Eff unit :=
  let* g := get in
  if negb (GameStates_eqb (stateIndex g) READY) then ret tt
  else
    match previewBall g with
    | None => ret tt
    | Some ball =>
        modify (set_heap (alter (fun body =>
          set_position {| x := posX; y := y (position body) |} body) ball (heap g)))
    end.

(** [gameStatics] of [src/physics.ts]: the two walls and the floor. *)
Definition wall (posX posY : float) : FruitBody :=
  {| isStatic := true; position := {| x := posX; y := posY |};
     circleRadius := None; sizeIndex := None; popped := false |}.

Definition gameStatics : list FruitBody :=
  [ wall (- (64 / 2)) (960 / 2);
    wall (640 + 64 / 2) (960 / 2);
    wall (640 / 2) (960 + 64 / 2 - 48) ]%float.

(** The module-level state when [main.ts] starts to run. *)
Definition Game (stored : option Z) (now : Z) (mouse : float) : GameInterface :=
  {| stateIndex := MENU; score := 0; fruitsMerged := []; fruitSizes := fruitSizes0;
     currentFruitSize := 0; nextFruitSize := 0; highscore := 0; previewBall := None;
     storage := stored; seed := now; heap := gameStatics; world := [];
     timers := []; runnerEnabled := true; mouseX := mouse |}.

Definition initGame : Eff unit :=
  loadHighscore;;
  let* g := get in
  modify (set_fruitsMerged (replicate (length (fruitSizes g)) 0%Z)).

Definition startGame : Eff unit :=
  Composite_add [0; 1; 2];;
  calculateScore;;
  let* ball := generateFruitBody (640 / 2)%float previewBallHeight 0 true in
  modify (set_previewBall (Some ball));;
  Composite_add [ball];;
  setTimeout TimerReady.

(** ** Sessions *)

(** What can happen once the game is started: the engine moves a body,
    reports collisions or mouse events, a timer fires, or the restart
    button is clicked. *)
Inductive Event : Type :=
| EngineMove (body : nat) (pos : Vector)
| CollisionStart (pairs : list (nat * nat))
| MouseMove (posX : float)
| MouseUp (posX : float)
| Timeout (n : nat)
| ClickRestart.

Definition handle (e : Event) : Eff unit :=
  match e with
  | EngineMove body pos =>
      let* g := get in modify (set_heap (alter (set_position pos) body (heap g)))
  | CollisionStart pairs => collisionStart pairs
  | MouseMove posX => modify (set_mouseX posX);; mousemove posX
  | MouseUp posX => modify (set_mouseX posX);; addFruit posX
  | Timeout n =>
      let* g := get in
      match timers g !! n with
      | None => ret tt
      | Some t => modify (set_timers (delete n (timers g)));; fire t
      end
  | ClickRestart => restartGame
  end.

(** An exception ends the callback; the session goes on from the state it
    left. *)
Definition exec {A : Type} (m : Eff A) (g : GameInterface) : GameInterface := fst (m g).

Definition run (events : list Event) (g : GameInterface) : GameInterface :=
  foldl (fun g e => exec (handle e) g) g events.

Definition started (stored : option Z) (now : Z) (mouse : float) : GameInterface :=
  exec startGame (exec initGame (Game stored now mouse)).

Definition reachable (g : GameInterface) : Prop :=
  exists stored now mouse events, g = run events (started stored now mouse).

End Engine.

(** ** Reference sums for the score *)

Definition sumZ (l : list Z) : Z := foldr Z.add 0%Z l.

(** Each merge counted at tier [i] is worth the score value of tier [i]. *)
Definition consumedTierScore (sizes : list FruitSize) (counts : list Z) : Z :=
  sumZ (zip_with (fun size count => (scoreValue size * count)%Z) sizes counts).

(** The reading of the specification: each merge counted at tier [i] is
    worth the score value of the successor tier [i + 1]. *)
Definition successorTierScore (sizes : list FruitSize) (counts : list Z) : Z :=
  sumZ (zip_with (fun size count => (scoreValue size * count)%Z) (tail sizes) counts).

(** A three-tier catalog with the score values 2, 5 and 9, after one merge
    of two fruits of tier 0. *)
Definition threeTiers : list FruitSize :=
  [ mkFruitSize "a" 100 2 0.5; mkFruitSize "b" 100 5 0.6; mkFruitSize "c" 100 9 0.7 ]%float.

Definition afterOneMerge : GameInterface :=
  {| stateIndex := READY; score := 0; fruitsMerged := [1; 0; 0]%Z; fruitSizes := threeTiers;
     currentFruitSize := 0; nextFruitSize := 0; highscore := 0; previewBall := None;
     storage := None; seed := 0; heap := []; world := []; timers := [];
     runnerEnabled := true; mouseX := 0%float |}.


(** ** Catalogs and histories *)

(** Two catalogs that differ at most in their cached radii. *)
Definition sameTiers (sizes sizes' : list FruitSize) : Prop :=
  map (set_radius None) sizes = map (set_radius None) sizes'.

(** A history of [saveHighscore] calls.  Between two calls the rest of the
    state (the merge counts, hence the score) changes freely; the cache and
    the storage key are written by nothing else. *)
Inductive saves : GameInterface -> GameInterface -> Prop :=
| saves_none (g : GameInterface) : saves g g
| saves_call (g g1 g2 : GameInterface) :
    saves g g1 ->
    highscore g2 = highscore g1 ->
    storage g2 = storage g1 ->
    saves g (fst (saveHighscore g2)).

(** The storage key holds what the cache holds, once it is written. *)
Definition synced (g : GameInterface) : Prop :=
  forall h : Z, storage g = Some h -> h = highscore g.

(** The order on the persisted value; nothing persisted is below anything. *)
Definition persisted_le (a b : option Z) : Prop :=
  match a, b with
  | None, _ => True
  | Some h, Some h' => (h <= h')%Z
  | Some _, None => False
  end.

(** Two calls of [saveHighscore], the score rising to 7 and falling to 2. *)
Definition scored (counts : list Z) (g : GameInterface) : GameInterface :=
  set_fruitsMerged counts g.

Definition twoSaves : GameInterface :=
  fst (saveHighscore (scored [1; 0; 0]%Z
    (fst (saveHighscore (scored [1; 1; 0]%Z afterOneMerge))))).

(** ** Invariants of a session *)

(** [m] keeps the invariant [I], also when it throws, and every value it
    returns satisfies [Q]. *)
Definition keeps {A : Type} (I : GameInterface -> Prop) (Q : A -> Prop) (m : Eff A) : Prop :=
  forall g : GameInterface,
    I g -> I (fst (m g)) /\ (forall a : A, snd (m g) = Some a -> Q a).

Definition anything {A : Type} : A -> Prop := fun _ => True.

(** The well-formed states: the catalog is the default one, there is one
    merge count per tier, the queued tiers are among the five smallest, every
    fruit body carries a tier of the catalog, and the storage key agrees with
    the cache. *)
Record wf (g : GameInterface) : Prop := {
  wf_catalog : sameTiers (fruitSizes g) fruitSizes0;
  wf_counts : length (fruitsMerged g) = length fruitSizes0;
  wf_current : currentFruitSize g <= 4;
  wf_next : nextFruitSize g <= 4;
  wf_bodies : forall (i : nat) (body : FruitBody) (k : nat),
      heap g !! i = Some body -> sizeIndex body = Some k -> k < length fruitSizes0;
  wf_synced : synced g;
}.

(** ** Vocabulary of the merge resolver *)

(** The quantity the lose check compares with [loseHeight]: the centre's
    [y] plus the reported radius (canvas coordinates grow downwards). *)
Definition lowEdge (body : FruitBody) : float :=
  (y (position body) + JS.orZero (circleRadius body))%float.

Definition tooHigh (body : FruitBody) : bool := (lowEdge body <? loseHeight)%float.

(** The reading of the specification: the top edge, [y] minus the radius. *)
Definition topEdge (body : FruitBody) : float :=
  (y (position body) - JS.orZero (circleRadius body))%float.

Definition midpoint (p q : Vector) : Vector :=
  {| x := (x p + x q) / 2; y := (y p + y q) / 2 |}%float.

(** The fruit a merge creates, and the static circle of the pop effect. *)
Definition successorBody (engine : float -> option float) (config : FruitSize)
    (pos : Vector) (tier : nat) : FruitBody :=
  {| isStatic := false; position := pos; circleRadius := engine (computedRadius config);
     sizeIndex := Some tier; popped := false |}.

Definition popCircle (pos : Vector) (r : float) : FruitBody :=
  {| isStatic := true; position := pos; circleRadius := Some r;
     sizeIndex := None; popped := false |}.

(** ** Sample states *)

(** An engine that reports the radius a polygon was built around. *)
Definition radiusEngine : float -> option float := fun r => Some r.

(** The default catalog once every tier has been instantiated. *)
Definition cachedSizes : list FruitSize :=
  map (fun size => set_radius (Some (computedRadius size)) size) fruitSizes0.

Definition fruit (tier : nat) (posX posY r : float) : FruitBody :=
  {| isStatic := false; position := {| x := posX; y := posY |};
     circleRadius := Some r; sizeIndex := Some tier; popped := false |}.

(** A game in progress: the walls, the floor and the given fruits. *)
Definition playing (fruits : list FruitBody) : GameInterface :=
  {| stateIndex := READY; score := 0; fruitsMerged := replicate 11 0%Z;
     fruitSizes := cachedSizes; currentFruitSize := 0; nextFruitSize := 0;
     highscore := 0; previewBall := None; storage := Some 0%Z; seed := 1;
     heap := gameStatics ++ fruits; world := seq 0 (3 + length fruits);
     timers := []; runnerEnabled := true; mouseX := 320%float |}.

(** Two fruits of tier 0 that touch while the upper one is still above the
    lose line. *)
Definition highPair : GameInterface :=
  playing [fruit 0 300 50 24; fruit 0 330 80 24]%float.

(** Two fruits of tier 0 for which the engine reports a radius above that of
    the top tier. *)
Definition widePair : GameInterface :=
  playing [fruit 0 300 500 200; fruit 0 330 500 200]%float.

(** Two fruits of tier 1 well inside the box. *)
Definition lowPair : GameInterface :=
  playing [fruit 1 300 500 32; fruit 1 340 520 32]%float.

(** Three fruits of tier 2 that touch one another. *)
Definition triple : GameInterface :=
  playing [fruit 2 300 500 40; fruit 2 350 520 40; fruit 2 325 560 40]%float.

(** A session that has just become READY. *)
Definition readySession : GameInterface :=
  run radiusEngine [Timeout 0] (started radiusEngine None 1700000000000 320%float).

(** The same session in the DROP state, a fruit having just been dropped. *)
Definition droppingSession : GameInterface :=
  run radiusEngine [Timeout 0; MouseUp 100%float]
    (started radiusEngine None 1700000000000 320%float).

(** ** The merges of a batch *)

(** The guards under which an iteration of the loop goes on to mark its two
    bodies as popped: both are bodies, neither is static nor above the lose
    line, both are fruits of the same tier, neither is popped yet (and the
    catalog has a last tier to compare radii with). *)
Definition selects (g : GameInterface) (p : nat * nat) : bool :=
  match heap g !! fst p, heap g !! snd p with
  | Some bodyA, Some bodyB =>
      negb (isStatic bodyA || isStatic bodyB)
      && negb (tooHigh bodyA || tooHigh bodyB)
      && match sizeIndex bodyA, sizeIndex bodyB with
         | Some sizeA, Some sizeB =>
             (sizeA =? sizeB) && negb (popped bodyA || popped bodyB)
         | _, _ => false
         end
      && bool_decide (fruitSizes g <> [])
  | _, _ => false
  end.

(** The pairs of a batch that are selected as merge inputs, in the order in
    which the loop reaches them. *)
Fixpoint merges (engine : float -> option float) (pairs : list (nat * nat))
    (g : GameInterface) : list (nat * nat) :=
  match pairs with
  | [] => []
  | p :: pairs' =>
      (if selects g p then [p] else [])
      ++ match collisionPair engine p g with
         | (g', Some Continue) => merges engine pairs' g'
         | _ => []
         end
  end.

Definition involves (i : nat) (p : nat * nat) : bool := (i =? fst p) || (i =? snd p).

(** The body [i] exists and has been marked popped. *)
Definition poppedAt (i : nat) (bodies : list FruitBody) : Prop :=
  exists body : FruitBody, bodies !! i = Some body /\ popped body = true.

(** An invariant of the state that only speaks of the heap. *)
Definition onHeap (P : list FruitBody -> Prop) (g : GameInterface) : Prop := P (heap g).

(** ** Further vocabulary *)

(** The test of [lookupFruitIndex] on one tier. *)
Definition within (size : FruitSize) (r : float) : bool :=
  (abs (computedRadius size - r) <? tolerance)%float.

(** The guards under which an iteration of the loop passes over its pair
    and goes on: one body is static, or neither is above the lose line and
    the two are not both fruits, or are of different tiers, or one of them
    is popped already. *)
Definition passesOver (g : GameInterface) (p : nat * nat) : bool :=
  match heap g !! fst p, heap g !! snd p with
  | Some bodyA, Some bodyB =>
      isStatic bodyA || isStatic bodyB
      || negb (tooHigh bodyA || tooHigh bodyB)
         && match sizeIndex bodyA, sizeIndex bodyB with
            | Some sizeA, Some sizeB =>
                negb (sizeA =? sizeB) || popped bodyA || popped bodyB
            | _, _ => true
            end
  | _, _ => false
  end.

(** Every body of the world is a body of the heap. *)
Definition worldInHeap (g : GameInterface) : Prop :=
  forall j : nat, In j (world g) -> j < length (heap g).

(** ** The audio pool ([AudioPool] of [src/utils.ts])

    An [HTMLAudioElement] is the record of the fields the pool reads and
    writes; what the browser does on [cloneNode], [pause] and [play] is left
    as parameters.  [pools] maps a source to the elements created for it; an
    element is named by its index in its pool. *)

Module AudioPool.

Record Audio : Type := {
  src : string;
  paused : bool;
  ended : bool;
  volume : float;
  currentTime : float;
}.

Definition set_volume (v : float) (a : Audio) : Audio :=
  {| src := src a; paused := paused a; ended := ended a; volume := v;
     currentTime := currentTime a |}.

Definition set_currentTime (v : float) (a : Audio) : Audio :=
  {| src := src a; paused := paused a; ended := ended a; volume := volume a;
     currentTime := v |}.

Definition maxPoolSize : nat := 3.

Section Dom.

Variable cloneNode : Audio -> Audio.
Variable pause : Audio -> Audio.
Variable playNode : Audio -> Audio.

(** [pool.find(a => a.paused || a.ended)], as an index. *)
Definition findAvailable (pool : list Audio) : option nat :=
  findIndex (fun a => paused a || ended a) pool 0.

Definition play (audio : Audio) (vol : float) (pools : gmap string (list Audio))
    : gmap string (list Audio) :=
  if (vol =? 0)%float then pools
  else
    let key := src audio in
    let pools :=
      match pools !! key with
      | None => <[key := []]> pools
      | Some _ => pools
      end in
    let pool := default [] (pools !! key) in
    let availableAudio := findAvailable pool in
    let '(pool, availableAudio) :=
      match availableAudio with
      | None =>
          if length pool <? maxPoolSize
          then (pool ++ [cloneNode audio], Some (length pool))
          else (pool, None)
      | Some i => (pool, Some i)
      end in
    let '(pool, i) :=
      match availableAudio with
      | None => (alter (fun a => set_currentTime 0 (pause a)) 0 pool, 0)
      | Some i => (pool, i)
      end in
    let pool := alter (fun a => playNode (set_currentTime 0 (set_volume vol a))) i pool in
    <[key := pool]> pools.

End Dom.

(** No pool holds more than [maxPoolSize] elements. *)
Definition bounded (pools : gmap string (list Audio)) : Prop :=
  forall (key : string) (pool : list Audio),
    pools !! key = Some pool -> length pool <= maxPoolSize.

(** A browser in which [play] starts the element and [pause] stops it. *)
Definition started (a : Audio) : Audio :=
  {| src := src a; paused := false; ended := false; volume := volume a;
     currentTime := currentTime a |}.

Definition stopped (a : Audio) : Audio :=
  {| src := src a; paused := true; ended := ended a; volume := volume a;
     currentTime := currentTime a |}.

Definition click : Audio :=
  {| src := "./assets/click.mp3"; paused := true; ended := false;
     volume := 1%float; currentTime := 0%float |}.

End AudioPool.
(** What every state of a session satisfies beyond [wf]: a body of the
    world is a body of the heap that is not marked popped; the preview body
    is static; a static body is never marked popped; and a body that is not
    static is a fruit, it carries a tier. *)
Record tidy (g : GameInterface) : Prop := {
  tidy_world : forall j : nat,
      In j (world g) -> exists body : FruitBody, heap g !! j = Some body /\ popped body = false;
  tidy_preview : forall ball : nat,
      previewBall g = Some ball -> isStaticAt (heap g) ball = true;
  tidy_static : forall (j : nat) (body : FruitBody),
      heap g !! j = Some body -> isStatic body = true -> popped body = false;
  tidy_dynamic : forall (j : nat) (body : FruitBody),
      heap g !! j = Some body -> isStatic body = false -> is_Some (sizeIndex body);
}.

(** What the session creates: bodies that are not popped, and that carry a
    tier unless they are static. *)
Definition fresh (body : FruitBody) : Prop :=
  popped body = false /\ (isStatic body = false -> is_Some (sizeIndex body)).

(** The game is lost and no timer that would make it READY is pending. *)
Definition lost (g : GameInterface) : Prop :=
  stateIndex g = LOSE /\ ~ In TimerReady (timers g).

(** ** Further sample states *)

(** Two fruits of the last tier for which the engine reports a radius below
    that of the tier. *)
Definition smallTopPair : GameInterface :=
  playing [fruit 10 200 600 100; fruit 10 420 640 100]%float.

(** The game of [highPair] once their collision has been reported: lost. *)
Definition lostGame : GameInterface :=
  fst (collisionStart radiusEngine [(3, 4)] highPair).

(** The game of [lowPair] once its two fruits have merged. *)
Definition mergedPair : GameInterface :=
  fst (collisionPair radiusEngine (3, 4) lowPair).

(** ** The engine as it is

    Matter.js gives every body the [circleRadius] 0 and only [Bodies.circle]
    overwrites it: a polygon body made by [Bodies.fromVertices], as every
    fruit and every preview is, reports 0. *)
Definition matterRadius : float -> option float := fun _ => Some 0%float.

(** What then holds in every state of a session: a body that is not static
    reports the radius 0, and a radius cached on a catalog entry is the
    computed radius of that entry. *)
Record settled (g : GameInterface) : Prop := {
  settled_radius : forall (j : nat) (body : FruitBody),
      heap g !! j = Some body -> isStatic body = false -> circleRadius body = Some 0%float;
  settled_cache : forall (i : nat) (size : FruitSize),
      fruitSizes g !! i = Some size ->
      radius size = None \/ radius size = Some (computedRadius size);
}.

(** A session on that engine in which two fruits have been dropped and not
    yet moved by the engine: bodies 4 and 6, both at the height of the
    preview. *)
Definition twoDrops : GameInterface :=
  run matterRadius [Timeout 0; MouseUp 300; Timeout 0; MouseUp 340; Timeout 0]
    (started matterRadius None 1700000000000 320%float).

(** ** A long session

    A player's script for reaching the last tier: each fruit is dropped at
    the same place, the engine lets it fall to [y = 500], and whenever two
    live fruits are of the same tier below the last their collision is
    reported and the pop timer fires.  [live] lists the live fruits, tier and
    body. *)
Definition liveAt (tier : nat) (live : list (nat * nat)) : option nat :=
  snd <$> List.find (fun p => fst p =? tier) live.

Definition restingPlace : Vector := {| x := 320; y := 500 |}.

Fixpoint settle (fuel tier id : nat) (live : list (nat * nat)) (g : GameInterface)
    : list Event * list (nat * nat) * GameInterface :=
  match fuel with
  | 0 => ([], (tier, id) :: live, g)
  | S fuel' =>
      match (if tier <? 10 then liveAt tier live else None) with
      | Some other =>
          let es := [CollisionStart [(other, id)]; Timeout 0] in
          let '(es', live', g') :=
            settle fuel' (S tier) (length (heap g))
              (List.filter (fun p => negb (fst p =? tier)) live)
              (run matterRadius es g) in
          (es ++ es', live', g')
      | None => ([], (tier, id) :: live, g)
      end
  end.

Fixpoint playToTop (fuel : nat) (live : list (nat * nat)) (g : GameInterface)
    : list Event * list (nat * nat) :=
  match fuel with
  | 0 => ([], live)
  | S fuel' =>
      if 2 <=? length (List.filter (fun p => fst p =? 10) live) then ([], live)
      else
        let id := length (heap g) in
        let es := [MouseUp 320; EngineMove id restingPlace; Timeout 0] in
        let '(es', live', g') :=
          settle 11 (currentFruitSize g) id live (run matterRadius es g) in
        let '(es'', live'') := playToTop fuel' live' g' in
        (es ++ es' ++ es'', live'')
  end.

Definition topScript : list Event :=
  Timeout 0
  :: fst (playToTop 1000 []
            (run matterRadius [Timeout 0]
               (started matterRadius None 1700000000000 320%float))).

(** The session of that script: it ends with two live fruits of the last
    tier. *)
Definition topSession : GameInterface :=
  run matterRadius topScript (started matterRadius None 1700000000000 320%float).

(** ** The score ([calculateScore]) *)

Lemma reduceScore_consumed (sizes : list FruitSize) (counts : list Z) :
  forall (i : nat) (total : Z),
    i + length counts <= length sizes ->
    reduceScore sizes counts i total
    = Some (total + consumedTierScore (drop i sizes) counts)%Z.
Proof.
  induction counts as [|count counts IH]; intros i total Hlen; simpl in *.
  - unfold consumedTierScore, sumZ. destruct (drop i sizes); simpl; f_equal; lia.
  - destruct (sizes !! i) as [size|] eqn:Hi.
    + rewrite IH by lia.
      rewrite (drop_S _ _ _ Hi). unfold consumedTierScore, sumZ. simpl. f_equal. lia.
    + apply lookup_ge_None in Hi. lia.
Qed.

Lemma reduceScore_throws (sizes : list FruitSize) (counts : list Z) :
  forall (i : nat) (total : Z),
    i <= length sizes < i + length counts ->
    reduceScore sizes counts i total = None.
Proof.
  induction counts as [|count counts IH]; intros i total Hlen; simpl in *.
  - lia.
  - destruct (sizes !! i) as [size|] eqn:Hi; [|reflexivity].
    apply IH. apply lookup_lt_Some in Hi. lia.
Qed.

(** C4, as the specification states it, fails: with the score values
    [2; 5; 9] and the merge counts [1; 0; 0], [calculateScore] sets the score
    to 2, the value of the consumed tier, where the successor-tier sum is 5. *)
Lemma calculateScore_successor_counterexample :
  score (fst (calculateScore afterOneMerge)) = 2%Z
  /\ successorTierScore (fruitSizes afterOneMerge) (fruitsMerged afterOneMerge) = 5%Z
  /\ score (fst (calculateScore afterOneMerge))
     <> successorTierScore (fruitSizes afterOneMerge) (fruitsMerged afterOneMerge).
Proof. vm_compute. repeat split; congruence. Qed.

(** C4, amended: [calculateScore] sets the score to the sum over the tiers
    [i] of [fruitsMerged[i]] times the score value of tier [i] itself, and
    changes nothing else; with the score values [2; 5; 9] and the counts
    [1; 0; 0] the score is 2. *)
Theorem calculateScore_consumed_tier (g : GameInterface) :
  length (fruitsMerged g) <= length (fruitSizes g) ->
  calculateScore g
  = (set_score (consumedTierScore (fruitSizes g) (fruitsMerged g)) g, Some tt)
  /\ (map scoreValue (fruitSizes g) = [2; 5; 9]%Z -> fruitsMerged g = [1; 0; 0]%Z ->
      score (fst (calculateScore g)) = 2%Z).
Proof.
  intros Hlen.
  assert (Hs : calculateScore g
    = (set_score (consumedTierScore (fruitSizes g) (fruitsMerged g)) g, Some tt)).
  { unfold calculateScore, bind, get, modify.
    rewrite reduceScore_consumed by (simpl; lia). reflexivity. }
  split; [exact Hs|].
  intros Hvalues Hcounts. rewrite Hs. simpl. rewrite Hcounts.
  destruct (fruitSizes g) as [|s0 [|s1 [|s2 [|s3 l]]]]; simpl in Hvalues; try discriminate.
  injection Hvalues as H0 H1 H2. unfold consumedTierScore, sumZ. simpl. lia.
Qed.

Lemma calculateScore_consumed_tier_witness :
  length (fruitsMerged afterOneMerge) <= length (fruitSizes afterOneMerge)
  /\ score (fst (calculateScore afterOneMerge)) = 2%Z.
Proof.
  assert (H : length (fruitsMerged afterOneMerge) <= length (fruitSizes afterOneMerge))
    by (simpl; lia).
  split; [exact H|].
  apply (proj2 (calculateScore_consumed_tier afterOneMerge H)); reflexivity.
Defined.

(** ** The catalog lookup ([lookupFruitIndex]) *)

Lemma findIndex_map {A B : Type} (f : A -> B) (p : B -> bool) (l : list A) :
  forall i : nat, findIndex (fun a => p (f a)) l i = findIndex p (map f l) i.
Proof. induction l as [|a l IH]; intros i; simpl; [reflexivity|]. rewrite IH. reflexivity. Qed.

Lemma computedRadius_set_radius (v : option float) (size : FruitSize) :
  computedRadius (set_radius v size) = computedRadius size.
Proof. reflexivity. Qed.

Lemma sameTiers_radii (sizes sizes' : list FruitSize) :
  sameTiers sizes sizes' -> map computedRadius sizes = map computedRadius sizes'.
Proof.
  unfold sameTiers. intros H.
  assert (E : forall l, map computedRadius l = map computedRadius (map (set_radius None) l)).
  { intros l. rewrite map_map. apply map_ext. intros a. reflexivity. }
  rewrite (E sizes), (E sizes'), H. reflexivity.
Qed.

Lemma sameTiers_length (sizes sizes' : list FruitSize) :
  sameTiers sizes sizes' -> length sizes = length sizes'.
Proof.
  unfold sameTiers. intros H. apply (f_equal (@length _)) in H.
  rewrite !length_map in H. exact H.
Qed.

(** C6: in a game that has the default catalog, looking up the computed
    radius of a non-terminal tier [i] returns [i], and looking up the
    computed radius of the last tier (tier 10) returns nothing. *)
Theorem lookupFruitIndex_round_trip (g : GameInterface) (i : nat) (size : FruitSize) :
  sameTiers (fruitSizes g) fruitSizes0 ->
  fruitSizes g !! i = Some size ->
  computedRadius size = (textureSize size * physicsScaleOf size / 2)%float
  /\ lookupFruitIndex g (computedRadius size)
     = if i =? length (fruitSizes g) - 1 then None else Some i.
Proof.
  intros Hsame Hi. split; [reflexivity|].
  pose proof (sameTiers_radii _ _ Hsame) as Hradii.
  pose proof (sameTiers_length _ _ Hsame) as Hlen.
  assert (Hr : map computedRadius fruitSizes0 !! i = Some (computedRadius size)).
  { rewrite <- Hradii, list_lookup_fmap, Hi. reflexivity. }
  unfold lookupFruitIndex.
  rewrite (findIndex_map computedRadius
             (fun r => (abs (r - computedRadius size) <? tolerance)%float)).
  rewrite Hradii, Hlen. clear Hradii Hlen Hsame Hi.
  do 11 (destruct i as [|i];
         [injection Hr as Hr; rewrite <- Hr; vm_compute; reflexivity|]).
  vm_compute in Hr. destruct i; discriminate.
Qed.

(** ** The high score ([saveHighscore]) *)

Lemma saveHighscore_cases (g : GameInterface) :
  match reduceScore (fruitSizes g) (fruitsMerged g) 0 0 with
  | None => saveHighscore g = (g, None)
  | Some s =>
      if (s <? highscore g)%Z then saveHighscore g = (set_score s g, Some tt)
      else saveHighscore g
           = (set_storage (Some s) (set_highscore s (set_score s g)), Some tt)
  end.
Proof.
  unfold saveHighscore, calculateScore, bind, get, modify, throw, ret.
  destruct (reduceScore _ _ 0 0) as [s|]; [|reflexivity]. simpl.
  destruct (s <? highscore g)%Z; reflexivity.
Qed.

Lemma saveHighscore_step (g : GameInterface) :
  (highscore g <= highscore (fst (saveHighscore g)))%Z
  /\ (synced g ->
      synced (fst (saveHighscore g))
      /\ persisted_le (storage g) (storage (fst (saveHighscore g)))).
Proof.
  pose proof (saveHighscore_cases g) as H.
  destruct (reduceScore _ _ 0 0) as [s|].
  - destruct (s <? highscore g)%Z eqn:Hlt; rewrite H; simpl.
    + split; [lia|]. intros Hs. split; [exact Hs|].
      destruct (storage g); simpl; [lia|exact I].
    + apply Z.ltb_ge in Hlt. split; [exact Hlt|]. intros Hs. split.
      * unfold synced. simpl. intros h Hh. congruence.
      * destruct (storage g) as [h|] eqn:Hst; simpl; [|exact I].
        rewrite (Hs h Hst). exact Hlt.
  - rewrite H. simpl. split; [lia|]. intros Hs. split; [exact Hs|].
    destruct (storage g); simpl; [lia|exact I].
Qed.

Lemma persisted_le_trans (a b c : option Z) :
  persisted_le a b -> persisted_le b c -> persisted_le a c.
Proof. destruct a, b, c; simpl; try tauto; lia. Qed.

Lemma saves_monotone (g g' : GameInterface) :
  saves g g' ->
  (highscore g <= highscore g')%Z
  /\ (synced g -> synced g' /\ persisted_le (storage g) (storage g')).
Proof.
  induction 1 as [g|g g1 g2 Hsaves [IHh IHs] Hh Hst].
  - split; [lia|]. intros Hs. split; [exact Hs|]. destruct (storage g); simpl; [lia|exact I].
  - destruct (saveHighscore_step g2) as [Hstep Hsync]. split; [lia|].
    intros Hs. destruct (IHs Hs) as [Hs1 Hle].
    assert (Hs2 : synced g2) by (intros h Hh'; rewrite Hh, Hst in *; auto).
    destruct (Hsync Hs2) as [Hs' Hle']. split; [exact Hs'|].
    rewrite Hst in Hle'. exact (persisted_le_trans _ _ _ Hle Hle').
Qed.

(** C8: over any history of [saveHighscore] calls, whatever the scores in
    between, the cached high score never decreases and neither does the
    persisted one; a call whose recomputed score is below the stored high
    score leaves cache and storage as they are, and any other call
    overwrites both with the score, which is at least the old value. *)
Theorem saveHighscore_never_decreases (g g' : GameInterface) :
  synced g ->
  saves g g' ->
  ((highscore g <= highscore g')%Z /\ persisted_le (storage g) (storage g'))
  /\ (forall (g0 : GameInterface) (s : Z),
        reduceScore (fruitSizes g0) (fruitsMerged g0) 0 0 = Some s ->
        let g1 := fst (saveHighscore g0) in
        ((s < highscore g0)%Z -> highscore g1 = highscore g0 /\ storage g1 = storage g0)
        /\ (~ (s < highscore g0)%Z ->
            highscore g1 = s /\ storage g1 = Some s /\ (highscore g0 <= s)%Z)).
Proof.
  intros Hs Hsaves. split.
  - destruct (saves_monotone g g' Hsaves) as [Hh Hp]. split; [exact Hh|]. apply Hp, Hs.
  - intros g0 s Hscore g1. subst g1.
    pose proof (saveHighscore_cases g0) as H. rewrite Hscore in H.
    destruct (s <? highscore g0)%Z eqn:Hlt; rewrite H; simpl.
    + apply Z.ltb_lt in Hlt. split; [auto|]. intros Hn. contradiction.
    + apply Z.ltb_ge in Hlt. split; [lia|]. intros _. auto.
Qed.

Lemma saveHighscore_never_decreases_witness :
  (highscore afterOneMerge <= highscore twoSaves)%Z
  /\ highscore twoSaves = 7%Z /\ storage twoSaves = Some 7%Z.
Proof.
  assert (Hs : synced afterOneMerge) by (intros h Hh; discriminate).
  assert (Hsaves : saves afterOneMerge twoSaves).
  { unfold twoSaves.
    apply (saves_call _ (fst (saveHighscore (scored [1; 1; 0]%Z afterOneMerge))));
      [|reflexivity|reflexivity].
    apply (saves_call _ afterOneMerge); [apply saves_none|reflexivity|reflexivity]. }
  split; [|split; reflexivity].
  exact (proj1 (proj1 (saveHighscore_never_decreases _ _ Hs Hsaves))).
Defined.

(** ** Reasoning about callbacks *)

Lemma keeps_bind {A B : Type} (I : GameInterface -> Prop) (Q : A -> Prop) (R : B -> Prop)
    (m : Eff A) (k : A -> Eff B) :
  keeps I Q m -> (forall a : A, Q a -> keeps I R (k a)) -> keeps I R (bind m k).
Proof.
  intros Hm Hk g Hg. unfold bind. destruct (Hm g Hg) as [HI HQ].
  destruct (m g) as [g' [a|]]; simpl in *.
  - apply (Hk a (HQ a eq_refl) g' HI).
  - split; [exact HI|]. intros b Hb. discriminate.
Qed.

Lemma keeps_ret {A : Type} (I : GameInterface -> Prop) (Q : A -> Prop) (a : A) :
  Q a -> keeps I Q (ret a).
Proof. intros Ha g Hg. split; [exact Hg|]. intros b Hb. injection Hb as <-. exact Ha. Qed.

Lemma keeps_throw {A : Type} (I : GameInterface -> Prop) (Q : A -> Prop) :
  keeps I Q (@throw A).
Proof. intros g Hg. split; [exact Hg|]. intros b Hb. discriminate. Qed.

Lemma keeps_get (I : GameInterface -> Prop) : keeps I I get.
Proof. intros g Hg. split; [exact Hg|]. intros b Hb. injection Hb as <-. exact Hg. Qed.

Lemma keeps_modify (I : GameInterface -> Prop) (f : GameInterface -> GameInterface) :
  (forall g : GameInterface, I g -> I (f g)) -> keeps I anything (modify f).
Proof. intros Hf g Hg. split; [exact (Hf g Hg)|]. intros b Hb. exact Logic.I. Qed.

Lemma keeps_weaken {A : Type} (I : GameInterface -> Prop) (Q Q' : A -> Prop) (m : Eff A) :
  keeps I Q m -> (forall a : A, Q a -> Q' a) -> keeps I Q' m.
Proof.
  intros Hm HQ g Hg. destruct (Hm g Hg) as [HI Hq]. split; [exact HI|].
  intros a Ha. apply HQ, Hq, Ha.
Qed.

Lemma keeps_anything {A : Type} (I : GameInterface -> Prop) (Q : A -> Prop) (m : Eff A) :
  keeps I Q m -> keeps I anything m.
Proof. intros Hm. apply (keeps_weaken I Q); [exact Hm|]. intros a _. exact Logic.I. Qed.

(** Running a callback from a given state. *)
Lemma bind_get {B : Type} (k : GameInterface -> Eff B) (g : GameInterface) :
  bind get k g = k g g.
Proof. reflexivity. Qed.

Lemma bind_modify {B : Type} (f : GameInterface -> GameInterface) (k : unit -> Eff B)
    (g : GameInterface) :
  bind (modify f) k g = k tt (f g).
Proof. reflexivity. Qed.

Lemma bind_ret {A B : Type} (a : A) (k : A -> Eff B) (g : GameInterface) :
  bind (ret a) k g = k a g.
Proof. reflexivity. Qed.

Lemma bind_returns {A B : Type} (m : Eff A) (k : A -> Eff B) (g g' : GameInterface) (a : A) :
  m g = (g', Some a) -> bind m k g = k a g'.
Proof. intros H. unfold bind. rewrite H. reflexivity. Qed.

Lemma bind_throws {A B : Type} (m : Eff A) (k : A -> Eff B) (g g' : GameInterface) :
  m g = (g', None) -> bind m k g = (g', None).
Proof. intros H. unfold bind. rewrite H. reflexivity. Qed.

Lemma Composite_add_eq (bodies : list nat) (g : GameInterface) :
  Composite_add bodies g = (set_world (world g ++ bodies) g, Some tt).
Proof. reflexivity. Qed.

Lemma Composite_remove_eq (bodies : list nat) (g : GameInterface) :
  Composite_remove bodies g
  = (set_world (List.filter (fun i => negb (memb i bodies)) (world g)) g, Some tt).
Proof. reflexivity. Qed.

Lemma setTimeout_eq (t : Timer) (g : GameInterface) :
  setTimeout t g = (set_timers (timers g ++ [t]) g, Some tt).
Proof. reflexivity. Qed.

(** Reading a field of an updated state. *)
Ltac fields :=
  cbn [stateIndex score fruitsMerged fruitSizes currentFruitSize nextFruitSize highscore
       previewBall storage seed heap world timers runnerEnabled mouseX
       set_stateIndex set_score set_fruitsMerged set_fruitSizes set_currentFruitSize
       set_nextFruitSize set_highscore set_previewBall set_storage set_seed set_heap
       set_world set_timers set_runnerEnabled set_mouseX fst snd] in *.

(** One step through a callback: the rule for the construct at its head. *)
Ltac keeps_step :=
  lazymatch goal with
  | |- keeps _ _ (bind get _) => eapply keeps_bind; [apply keeps_get|intros ? ?]
  | |- keeps _ _ (bind _ _) => eapply keeps_bind; [|intros ? ?]
  | |- keeps _ ?Q (ret _) =>
      first [is_evar Q; apply (keeps_ret _ anything); exact Logic.I | apply keeps_ret]
  | |- keeps _ _ throw => apply keeps_throw
  | |- keeps _ _ (modify _) =>
      first [apply keeps_modify | eapply keeps_weaken; [apply keeps_modify|intros; exact Logic.I]]
  | |- keeps _ _ (if ?c then _ else _) => destruct c eqn:?
  | |- keeps _ _ (match ?c with _ => _ end) => destruct c eqn:?
  end.

(** ** The random number generator *)

Lemma mulberry32_range (a : Z) : (0 <= snd (mulberry32 a) < 2 ^ 32)%Z.
Proof.
  unfold mulberry32. cbv zeta. unfold snd.
  match goal with |- context [JS.ushr ?t 0] => generalize t end.
  intros t. unfold JS.ushr, JS.ToUint32. change (0 mod 32)%Z with 0%Z.
  rewrite Z.shiftr_0_r. apply Z.mod_pos_bound. reflexivity.
Qed.

Lemma floor_times5_range (u : Z) : (0 <= u < 2 ^ 32)%Z -> floor_times5 u <= 4.
Proof.
  intros Hu. unfold floor_times5.
  assert (H : (0 <= u * 5 / 4294967296 < 5)%Z).
  { split; [apply Z.div_pos; lia|apply Z.div_lt_upper_bound; lia]. }
  lia.
Qed.

Lemma setNextFruitSize_eq (g : GameInterface) :
  setNextFruitSize g
  = (set_nextFruitSize (floor_times5 (snd (mulberry32 (seed g))))
       (set_seed (fst (mulberry32 (seed g))) g), Some tt).
Proof.
  unfold setNextFruitSize, rand, bind, get, modify, ret.
  destruct (mulberry32 (seed g)) as [a u]. reflexivity.
Qed.

Lemma setNextFruitSize_range (g : GameInterface) :
  nextFruitSize (fst (setNextFruitSize g)) <= 4.
Proof.
  rewrite setNextFruitSize_eq. cbn [fst set_nextFruitSize nextFruitSize].
  apply floor_times5_range, mulberry32_range.
Qed.

(** ** Well-formed states are kept *)

Ltac wf_fields :=
  let g := fresh "g" in
  let H := fresh "H" in
  intros g H;
  repeat match goal with Hwf : wf _ |- _ => destruct Hwf end;
  constructor; unfold synced in *; simpl in *; auto.

Lemma sameTiers_insert (sizes sizes' : list FruitSize) (i : nat) (config : FruitSize)
    (v : option float) :
  sizes !! i = Some config ->
  sameTiers sizes sizes' ->
  sameTiers (<[i := set_radius v config]> sizes) sizes'.
Proof.
  unfold sameTiers. intros Hi <-. rewrite list_fmap_insert.
  apply list_insert_id. rewrite list_lookup_fmap, Hi. reflexivity.
Qed.

Lemma keeps_wf_rand : keeps wf (fun u => (0 <= u < 2 ^ 32)%Z) rand.
Proof.
  unfold rand. keeps_step.
  pose proof (mulberry32_range (seed a)) as Hu.
  destruct (mulberry32 (seed a)) as [a' u]. simpl in Hu.
  keeps_step; [keeps_step; wf_fields|]. keeps_step. exact Hu.
Qed.

Lemma keeps_wf_setNextFruitSize : keeps wf anything setNextFruitSize.
Proof.
  unfold setNextFruitSize. keeps_step; [apply keeps_wf_rand|].
  keeps_step. pose proof (floor_times5_range a H). wf_fields.
Qed.

Lemma keeps_wf_calculateScore : keeps wf anything calculateScore.
Proof. unfold calculateScore. repeat keeps_step. wf_fields. Qed.

Lemma keeps_wf_saveHighscore : keeps wf anything saveHighscore.
Proof.
  intros g Hg. split; [|intros a _; exact Logic.I].
  pose proof (saveHighscore_cases g) as H.
  destruct (reduceScore _ _ 0 0) as [s|]; [|rewrite H; exact Hg].
  destruct (s <? highscore g)%Z; rewrite H; clear H; revert g Hg; wf_fields.
  intros h Hh. congruence.
Qed.

Lemma keeps_wf_Composite_add (bodies : list nat) : keeps wf anything (Composite_add bodies).
Proof. unfold Composite_add. repeat keeps_step. wf_fields. Qed.

Lemma keeps_wf_Composite_remove (bodies : list nat) :
  keeps wf anything (Composite_remove bodies).
Proof. unfold Composite_remove. repeat keeps_step. wf_fields. Qed.

Lemma keeps_wf_setTimeout (t : Timer) : keeps wf anything (setTimeout t).
Proof. unfold setTimeout. repeat keeps_step. wf_fields. Qed.

(** Rewriting a body of the heap without touching its tier. *)
Lemma wf_alter_heap (f : FruitBody -> FruitBody) (i : nat) (a : GameInterface) :
  (forall body : FruitBody, sizeIndex (f body) = sizeIndex body) ->
  wf a ->
  forall g : GameInterface, wf g -> wf (set_heap (alter f i (heap a)) g).
Proof.
  intros Hf Ha. wf_fields. intros j body k Hj Hk.
  rewrite list_lookup_alter in Hj. destruct (decide (i = j)) as [->|Hne].
  - destruct (heap a !! j) as [body0|] eqn:Hj0; simpl in Hj; [|discriminate].
    injection Hj as <-. rewrite Hf in Hk. eauto.
  - eauto.
Qed.

Lemma keeps_wf_newBody (body : FruitBody) :
  (forall k : nat, sizeIndex body = Some k -> k < length fruitSizes0) ->
  keeps wf anything (newBody body).
Proof.
  intros Hbody. unfold newBody. keeps_step. keeps_step.
  - keeps_step. wf_fields.
    intros i body0 k Hi Hs. apply lookup_app_Some in Hi as [Hi|[_ Hi]]; [eauto|].
    apply list_lookup_singleton_Some in Hi as [_ <-]. auto.
  - keeps_step. exact Logic.I.
Qed.

Lemma keeps_wf_deref (i : nat) : keeps wf anything (deref i).
Proof. unfold deref. repeat keeps_step. exact Logic.I. Qed.

Create HintDb keeps.
#[local] Hint Resolve keeps_wf_rand keeps_wf_setNextFruitSize keeps_wf_calculateScore
  keeps_wf_saveHighscore keeps_wf_Composite_add keeps_wf_Composite_remove
  keeps_wf_setTimeout keeps_wf_deref : keeps.

(** Steps through a callback, calling on the lemmas about the functions it
    calls, and leaves the conditions on the fields it writes. *)
Ltac keeps_wf :=
  repeat first [ keeps_step | solve [eauto with keeps] ];
  try solve [exact Logic.I | wf_fields; try lia].

Section Sessions.

Variable engine : float -> option float.


Lemma keeps_wf_generateFruitBody (posX posY : float) (index : nat) (static : bool) :
  keeps wf anything (generateFruitBody engine posX posY index static).
Proof.
  unfold generateFruitBody. keeps_step.
  destruct (fruitSizes a !! index) as [config|] eqn:Hconfig; [|keeps_wf].
  pose proof (lookup_lt_Some _ _ _ Hconfig) as Hlt.
  rewrite (sameTiers_length _ _ (wf_catalog _ H)) in Hlt.
  keeps_step.
  - keeps_step. wf_fields. apply sameTiers_insert; assumption.
  - apply keeps_wf_newBody. simpl. intros k [= <-]. exact Hlt.
Qed.

Lemma keeps_wf_addPop (posX posY r : float) : keeps wf anything (addPop posX posY r).
Proof.
  unfold addPop. keeps_wf. apply keeps_wf_newBody. simpl. discriminate.
Qed.

Lemma keeps_wf_loseGame : keeps wf anything loseGame.
Proof. unfold loseGame, originalLoseGame. keeps_wf. Qed.

Hint Resolve keeps_wf_generateFruitBody keeps_wf_addPop keeps_wf_loseGame : keeps.

Lemma keeps_wf_addFruit (posX : float) : keeps wf anything (addFruit engine posX).
Proof. unfold addFruit. keeps_wf. Qed.

Lemma keeps_wf_incrMerged (i : nat) : keeps wf anything (incrMerged i).
Proof. unfold incrMerged. keeps_wf. wf_fields. rewrite length_alter. congruence. Qed.

Lemma keeps_wf_markPopped (i : nat) : keeps wf anything (markPopped i).
Proof.
  unfold markPopped. keeps_wf. apply wf_alter_heap; [reflexivity|assumption].
Qed.

Hint Resolve keeps_wf_incrMerged keeps_wf_markPopped : keeps.

Lemma keeps_wf_collisionPair (p : nat * nat) :
  keeps wf anything (collisionPair engine p).
Proof. unfold collisionPair. destruct p as [a b]. keeps_wf. Qed.

Lemma keeps_wf_collisionStart (pairs : list (nat * nat)) :
  keeps wf anything (collisionStart engine pairs).
Proof.
  induction pairs as [|p pairs IH]; simpl.
  - keeps_wf.
  - keeps_step; [apply keeps_wf_collisionPair|]. destruct a; [exact IH|keeps_wf].
Qed.

Lemma keeps_wf_restartGame : keeps wf anything (restartGame engine).
Proof.
  unfold restartGame. keeps_wf.
  match goal with
  | Ha : wf ?a |- _ => pose proof (sameTiers_length _ _ (wf_catalog _ Ha)) as Hlen
  end.
  wf_fields. rewrite length_replicate. exact Hlen.
Qed.

Lemma keeps_wf_fire (t : Timer) : keeps wf anything (fire t).
Proof. unfold fire. destruct t; keeps_wf. Qed.

Lemma keeps_wf_mousemove (posX : float) : keeps wf anything (mousemove posX).
Proof. unfold mousemove. keeps_wf. apply wf_alter_heap; [reflexivity|assumption]. Qed.

Hint Resolve keeps_wf_addFruit keeps_wf_collisionStart keeps_wf_restartGame
  keeps_wf_fire keeps_wf_mousemove : keeps.

Lemma keeps_wf_handle (e : Event) : keeps wf anything (handle engine e).
Proof.
  unfold handle. destruct e; keeps_wf.
  apply wf_alter_heap; [reflexivity|assumption].
Qed.

Lemma wf_started (stored : option Z) (now : Z) (mouse : float) :
  wf (started engine stored now mouse).
Proof.
  unfold started, exec.
  assert (Hinit : wf (fst (initGame (Game stored now mouse)))).
  { assert (Hstatics : forall (i : nat) (body : FruitBody) (k : nat),
              gameStatics !! i = Some body -> sizeIndex body = Some k -> k < 11).
    { intros i body k Hi Hk. unfold gameStatics in Hi.
      do 3 (destruct i as [|i]; [injection Hi as <-; discriminate|]). discriminate. }
    destruct stored as [h|]; cbn; constructor; cbn; try reflexivity; try lia;
      try exact Hstatics; unfold synced; cbn; intros h' Hh; congruence. }
  revert Hinit. generalize (fst (initGame (Game stored now mouse))).
  assert (H : keeps wf anything (startGame engine)) by (unfold startGame; keeps_wf).
  intros g Hg. apply (H g Hg).
Qed.

(** Every state of a session is well formed: in particular every fruit
    body carries a tier below the number of merge counts, so that
    [incrMerged] never writes past the end of [fruitsMerged]. *)
Lemma reachable_wf (g : GameInterface) : reachable engine g -> wf g.
Proof.
  intros (stored & now & mouse & events & ->).
  pose proof (wf_started stored now mouse) as H. revert H.
  generalize (started engine stored now mouse).
  unfold run. induction events as [|e events IH]; intros g0 Hg0; simpl; [exact Hg0|].
  apply IH. apply (keeps_wf_handle e g0 Hg0).
Qed.

(** ** Evaluating the callbacks *)

Lemma generateFruitBody_eq (posX posY : float) (index : nat) (static : bool)
    (g : GameInterface) (config : FruitSize) :
  fruitSizes g !! index = Some config ->
  generateFruitBody engine posX posY index static g
  = (set_heap (heap g ++ [ {| isStatic := static;
                              position := {| x := posX; y := posY |};
                              circleRadius := engine (computedRadius config);
                              sizeIndex := Some index;
                              popped := false |} ])
       (set_fruitSizes (<[index := set_radius (Some (computedRadius config)) config]>
                          (fruitSizes g)) g),
     Some (length (heap g))).
Proof. intros Hconfig. unfold generateFruitBody, bind, get. rewrite Hconfig. reflexivity. Qed.

Lemma generateFruitBody_throws (posX posY : float) (index : nat) (static : bool)
    (g : GameInterface) :
  length (fruitSizes g) <= index ->
  generateFruitBody engine posX posY index static g = (g, None).
Proof.
  intros Hlen. unfold generateFruitBody, bind, get.
  rewrite (proj2 (lookup_ge_None _ _) Hlen). reflexivity.
Qed.

Lemma reduceScore_insert_radius (sizes : list FruitSize) (counts : list Z) (index : nat)
    (config : FruitSize) (v : option float) :
  sizes !! index = Some config ->
  forall (i : nat) (total : Z),
    reduceScore (<[index := set_radius v config]> sizes) counts i total
    = reduceScore sizes counts i total.
Proof.
  intros Hconfig. induction counts as [|count counts IH]; intros i total; simpl.
  - reflexivity.
  - destruct (decide (index = i)) as [->|Hne].
    + rewrite list_lookup_insert_eq by (eapply lookup_lt_Some; exact Hconfig).
      rewrite Hconfig. simpl. apply IH.
    + rewrite list_lookup_insert_ne by exact Hne.
      destruct (sizes !! i); [apply IH|reflexivity].
Qed.

Lemma calculateScore_eq (g : GameInterface) :
  length (fruitsMerged g) <= length (fruitSizes g) ->
  calculateScore g
  = (set_score (consumedTierScore (fruitSizes g) (fruitsMerged g)) g, Some tt).
Proof.
  intros Hlen. unfold calculateScore, bind, get, modify.
  rewrite reduceScore_consumed by (simpl; lia). reflexivity.
Qed.

(** The state after a merge of the bodies [a] and [b] of tier [i] into a
    fruit of tier [newSize]. *)
Lemma collisionPair_merges (g : GameInterface) (a b i newSize : nat)
    (bodyA bodyB : FruitBody) (config top : FruitSize) :
  heap g !! a = Some bodyA ->
  heap g !! b = Some bodyB ->
  isStatic bodyA = false ->
  isStatic bodyB = false ->
  tooHigh bodyA = false ->
  tooHigh bodyB = false ->
  sizeIndex bodyA = Some i ->
  sizeIndex bodyB = Some i ->
  popped bodyA = false ->
  popped bodyB = false ->
  fruitSizes g !! (length (fruitSizes g) - 1) = Some top ->
  newSize = (if reachedMax (radius top) (JS.orZero (circleRadius bodyA)) then 0 else i + 1) ->
  fruitSizes g !! newSize = Some config ->
  length (fruitsMerged g) <= length (fruitSizes g) ->
  let g' := fst (collisionPair engine (a, b) g) in
  let pos := midpoint (position bodyA) (position bodyB) in
  snd (collisionPair engine (a, b) g) = Some Continue
  /\ heap g'
     = alter (set_popped true) b (alter (set_popped true) a (heap g))
       ++ [successorBody engine config pos newSize;
           popCircle pos (JS.orZero (circleRadius bodyA))]
  /\ world g'
     = List.filter (fun j => negb (memb j [a; b])) (world g)
       ++ [length (heap g); S (length (heap g))]
  /\ fruitsMerged g' = alter (fun count => (count + 1)%Z) i (fruitsMerged g)
  /\ fruitSizes g'
     = <[newSize := set_radius (Some (computedRadius config)) config]> (fruitSizes g)
  /\ stateIndex g' = stateIndex g.
Proof.
  intros Ha Hb HsA HsB HhA HhB HtA HtB HpA HpB Htop Hnew Hconfig Hlen g' pos.
  subst g' pos. unfold tooHigh, lowEdge in *.
  unfold collisionPair, deref, bind, get, modify, ret, throw. simpl.
  rewrite Ha, Hb. simpl.
  rewrite HsA, HsB, HhA, HhB, HtA, HtB, HpA, HpB. simpl. rewrite Nat.eqb_refl. simpl.
  unfold maxRadiusOf. rewrite Htop. simpl. rewrite <- Hnew.
  erewrite generateFruitBody_eq by (simpl; exact Hconfig). simpl.
  rewrite calculateScore_eq by (simpl; rewrite length_insert, length_alter; exact Hlen).
  simpl. rewrite !length_app, !length_alter, <- !app_assoc. simpl.
  rewrite Nat.add_1_r. repeat split; reflexivity.
Qed.

(** ** Merging ([collisionStart]) *)

Lemma memb_filter_out (j : nat) (out l : list nat) :
  memb j out = true -> memb j (List.filter (fun k => negb (memb k out)) l) = false.
Proof.
  intros Hj. unfold memb at 1. apply not_true_is_false. intros H.
  apply existsb_exists in H as (k & Hk & Hjk). apply Nat.eqb_eq in Hjk. subst k.
  apply filter_In in Hk as [_ Hk]. rewrite Hj in Hk. discriminate.
Qed.

Lemma memb_app (j : nat) (l l' : list nat) : memb j (l ++ l') = memb j l || memb j l'.
Proof. unfold memb. apply existsb_app. Qed.

(** C1, amended: when the handler reaches a pair of non-static fruit
    bodies of the same tier [i] below the last one, neither popped, neither
    with its low edge above the lose line, and the radius reported for the
    first is not at or above the cached radius of the top tier, then
    exactly one fruit of tier [i + 1] is created, at the midpoint of the two
    positions (next to it only the static circle of the pop effect), both
    inputs are marked popped and leave the world, and the merge count of
    tier [i] grows by exactly one, the other counts staying as they are. *)
Theorem merge_determinism (g : GameInterface) (a b i : nat) (bodyA bodyB : FruitBody) :
  heap g !! a = Some bodyA ->
  heap g !! b = Some bodyB ->
  isStatic bodyA = false ->
  isStatic bodyB = false ->
  sizeIndex bodyA = Some i ->
  sizeIndex bodyB = Some i ->
  popped bodyA = false ->
  popped bodyB = false ->
  i < length (fruitSizes g) - 1 ->
  length (fruitsMerged g) = length (fruitSizes g) ->
  tooHigh bodyA = false ->
  tooHigh bodyB = false ->
  (forall maxRadius : option float,
     maxRadiusOf (fruitSizes g) = Some maxRadius ->
     reachedMax maxRadius (JS.orZero (circleRadius bodyA)) = false) ->
  exists (config : FruitSize) (count : Z),
    fruitSizes g !! (i + 1) = Some config
    /\ fruitsMerged g !! i = Some count
    /\ let g' := fst (collisionPair engine (a, b) g) in
       let pos := midpoint (position bodyA) (position bodyB) in
       snd (collisionPair engine (a, b) g) = Some Continue
       /\ heap g'
          = alter (set_popped true) b (alter (set_popped true) a (heap g))
            ++ [successorBody engine config pos (i + 1);
                popCircle pos (JS.orZero (circleRadius bodyA))]
       /\ memb a (world g') = false
       /\ memb b (world g') = false
       /\ memb (length (heap g)) (world g') = true
       /\ fruitsMerged g' !! i = Some (count + 1)%Z
       /\ (forall j : nat, j <> i -> fruitsMerged g' !! j = fruitsMerged g !! j)
       /\ stateIndex g' = stateIndex g.
Proof.
  intros Ha Hb HsA HsB HtA HtB HpA HpB Hi Hlen HhA HhB Hmax.
  destruct (lookup_lt_is_Some_2 (fruitSizes g) (i + 1)) as [config Hconfig]; [lia|].
  destruct (lookup_lt_is_Some_2 (fruitsMerged g) i) as [count Hcount]; [lia|].
  destruct (lookup_lt_is_Some_2 (fruitSizes g) (length (fruitSizes g) - 1))
    as [top Htop]; [lia|].
  assert (Hnew : i + 1
    = if reachedMax (radius top) (JS.orZero (circleRadius bodyA)) then 0 else i + 1).
  { rewrite (Hmax (radius top)); [reflexivity|]. unfold maxRadiusOf. rewrite Htop.
    reflexivity. }
  exists config, count. split; [exact Hconfig|]. split; [exact Hcount|].
  destruct (collisionPair_merges g a b i (i + 1) bodyA bodyB config top)
    as (Hret & Hheap & Hworld & Hmerged & _ & Hstate); try assumption; [lia|].
  pose proof (lookup_lt_Some _ _ _ Ha) as Hlta.
  pose proof (lookup_lt_Some _ _ _ Hb) as Hltb.
  cbv zeta. rewrite Hworld, Hmerged. repeat split; try assumption.
  - rewrite memb_app, memb_filter_out by (simpl; rewrite Nat.eqb_refl; reflexivity).
    simpl. rewrite !orb_false_r.
    apply orb_false_iff. split; apply Nat.eqb_neq; lia.
  - rewrite memb_app, memb_filter_out
      by (simpl; rewrite Nat.eqb_refl, ?orb_true_r; reflexivity).
    simpl. rewrite !orb_false_r.
    apply orb_false_iff. split; apply Nat.eqb_neq; lia.
  - rewrite memb_app. simpl. rewrite Nat.eqb_refl, orb_true_r. reflexivity.
  - rewrite list_lookup_alter_eq, Hcount. reflexivity.
  - intros j Hj. apply list_lookup_alter_ne. congruence.
Qed.

(** ** Losing ([loseGame]) *)

Lemma loseGame_loses (g : GameInterface) :
  stateIndex (fst (loseGame g)) = LOSE
  /\ heap (fst (loseGame g)) = heap g
  /\ world (fst (loseGame g)) = world g
  /\ fruitsMerged (fst (loseGame g)) = fruitsMerged g.
Proof.
  unfold loseGame, originalLoseGame, bind, modify.
  pose proof (saveHighscore_cases (set_stateIndex LOSE g)) as H. simpl in *.
  destruct (reduceScore (fruitSizes g) (fruitsMerged g) 0 0) as [s|].
  - destruct (s <? highscore g)%Z; rewrite H; simpl; repeat split; reflexivity.
  - rewrite H. simpl. repeat split; reflexivity.
Qed.

Lemma collisionPair_loses (g : GameInterface) (a b : nat) (bodyA bodyB : FruitBody) :
  heap g !! a = Some bodyA ->
  heap g !! b = Some bodyB ->
  isStatic bodyA = false ->
  isStatic bodyB = false ->
  tooHigh bodyA || tooHigh bodyB = true ->
  collisionPair engine (a, b) g
  = (fst (loseGame g), match snd (loseGame g) with Some _ => Some Return | None => None end).
Proof.
  intros Ha Hb HsA HsB Hhigh. unfold tooHigh, lowEdge in Hhigh.
  generalize (eq_refl (loseGame g)). generalize (loseGame g) at 1 3 4.
  intros lost Hlost.
  unfold collisionPair, deref, bind, get, ret. simpl.
  rewrite Ha, Hb. simpl. rewrite HsA, HsB, Hhigh. simpl.
  fold (bind originalLoseGame (fun _ => modify (set_runnerEnabled false)) g).
  fold loseGame. rewrite <- Hlost. destruct lost as [g' [[]|]]; reflexivity.
Qed.

(** When the handler reaches a pair of non-static bodies one of which has
    its low edge -- [position.y] plus the reported circle radius, 0 when
    there is none -- numerically below [loseHeight], the game goes to LOSE at
    once and the rest of the batch is not processed: the outcome is that of
    [loseGame] on the state the pair was reached in, whatever pairs follow,
    and no body is created, removed or counted as merged. *)
Lemma collisionStart_loses (g : GameInterface) (a b : nat) (bodyA bodyB : FruitBody)
    (rest : list (nat * nat)) :
  heap g !! a = Some bodyA ->
  heap g !! b = Some bodyB ->
  isStatic bodyA = false ->
  isStatic bodyB = false ->
  (lowEdge bodyA <? loseHeight)%float = true
  \/ (lowEdge bodyB <? loseHeight)%float = true ->
  let g' := fst (collisionStart engine ((a, b) :: rest) g) in
  loseHeight = 84%float
  /\ lowEdge bodyA = (y (position bodyA) + JS.orZero (circleRadius bodyA))%float
  /\ stateIndex g' = LOSE
  /\ g' = fst (loseGame g)
  /\ collisionStart engine ((a, b) :: rest) g = collisionStart engine [(a, b)] g
  /\ heap g' = heap g
  /\ world g' = world g
  /\ fruitsMerged g' = fruitsMerged g.
Proof.
  intros Ha Hb HsA HsB Hhigh g'.
  assert (Hor : tooHigh bodyA || tooHigh bodyB = true).
  { unfold tooHigh. destruct Hhigh as [-> | ->]; [reflexivity|apply orb_true_r]. }
  pose proof (collisionPair_loses g a b bodyA bodyB Ha Hb HsA HsB Hor) as Hpair.
  assert (Hall : forall pairs : list (nat * nat),
            collisionStart engine ((a, b) :: pairs) g
            = (fst (loseGame g),
               match snd (loseGame g) with Some _ => Some tt | None => None end)).
  { intros pairs. cbn [collisionStart]. unfold bind at 1. rewrite Hpair.
    destruct (snd (loseGame g)) as [[]|]; reflexivity. }
  subst g'. rewrite !Hall. simpl.
  destruct (loseGame_loses g) as (Hstate & Hheap & Hworld & Hmerged).
  repeat split; assumption.
Qed.

(** ** Dropping ([addFruit]) *)

(** C9: a drop request made while the state is not READY -- in particular
    while it is DROP -- is ignored: [addFruit] returns at once and leaves
    the whole state as it is, so no body is created, no timer is queued,
    and the state index and the current and next fruit sizes are
    unchanged. *)
Theorem addFruit_ignored_unless_ready (g : GameInterface) (posX : float) :
  stateIndex g <> READY ->
  addFruit engine posX g = (g, Some tt)
  /\ (stateIndex g = DROP -> fst (addFruit engine posX g) = g).
Proof.
  intros Hstate.
  assert (H : addFruit engine posX g = (g, Some tt)).
  { unfold addFruit, bind at 1, get. destruct (stateIndex g); try reflexivity.
    contradiction. }
  split; [exact H|]. intros _. rewrite H. reflexivity.
Qed.

Lemma lookup_insert_radius (sizes : list FruitSize) (i k : nat) (config config' : FruitSize)
    (v : option float) :
  sizes !! i = Some config ->
  sizes !! k = Some config' ->
  exists config'' : FruitSize,
    <[i := set_radius v config]> sizes !! k = Some config''
    /\ computedRadius config'' = computedRadius config'.
Proof.
  intros Hi Hk. destruct (decide (i = k)) as [->|Hne].
  - exists (set_radius v config). split.
    + apply list_lookup_insert_eq. eapply lookup_lt_Some. exact Hk.
    + rewrite Hi in Hk. injection Hk as <-. reflexivity.
  - exists config'. split; [|reflexivity]. rewrite list_lookup_insert_ne; assumption.
Qed.

(** What a drop in the READY state does. *)
Lemma addFruit_drops (g : GameInterface) (posX : float) (config config' : FruitSize)
    (a u : Z) :
  mulberry32 (seed g) = (a, u) ->
  stateIndex g = READY ->
  fruitSizes g !! currentFruitSize g = Some config ->
  fruitSizes g !! nextFruitSize g = Some config' ->
  length (fruitsMerged g) <= length (fruitSizes g) ->
  exists g' : GameInterface,
    addFruit engine posX g = (g', Some tt)
    /\ heap g'
       = heap g
         ++ [successorBody engine config {| x := posX; y := previewBallHeight |}
               (currentFruitSize g);
             {| isStatic := true;
                position := {| x := mouseX g; y := previewBallHeight |};
                circleRadius := engine (computedRadius config');
                sizeIndex := Some (nextFruitSize g);
                popped := false |}]
    /\ stateIndex g' = DROP
    /\ currentFruitSize g' = nextFruitSize g
    /\ nextFruitSize g' = floor_times5 u
    /\ previewBall g' = Some (S (length (heap g)))
    /\ timers g' = timers g ++ [TimerDrop].
Proof.
  intros Hrand Hstate Hconfig Hconfig' Hlen.
  destruct (lookup_insert_radius (fruitSizes g) (currentFruitSize g) (nextFruitSize g)
              config config' (Some (computedRadius config)) Hconfig Hconfig')
    as (config'' & Hconfig'' & Hradius).
  assert (Hball : forall g1 : GameInterface,
            exists g2 : GameInterface,
              match previewBall g1 with
              | Some ball => Composite_remove [ball]
              | None => ret tt
              end g1 = (g2, Some tt)
              /\ heap g2 = heap g1 /\ fruitSizes g2 = fruitSizes g1
              /\ stateIndex g2 = stateIndex g1
              /\ currentFruitSize g2 = currentFruitSize g1
              /\ nextFruitSize g2 = nextFruitSize g1 /\ mouseX g2 = mouseX g1
              /\ timers g2 = timers g1).
  { intros g1. destruct (previewBall g1); eexists; (split; [reflexivity|]);
      simpl; repeat split; reflexivity. }
  unfold addFruit. rewrite bind_get, Hstate. cbn [GameStates_eqb negb].
  rewrite bind_modify.
  erewrite bind_returns by (apply generateFruitBody_eq; fields; exact Hconfig).
  erewrite bind_returns by apply Composite_add_eq.
  rewrite bind_get, bind_modify. fields.
  erewrite bind_returns by apply setNextFruitSize_eq.
  fields. rewrite Hrand. fields.
  erewrite bind_returns
    by (apply calculateScore_eq; fields; rewrite length_insert; exact Hlen).
  rewrite bind_get. fields.
  match goal with
  | |- context [bind (match previewBall g with _ => _ end) _ ?g1] =>
      destruct (Hball g1) as (g2 & Hrun & Hheap & Hsizes & Hst & Hcur & Hnext & Hmouse
                              & Htimers)
  end.
  fields. erewrite bind_returns by exact Hrun.
  rewrite bind_get.
  erewrite bind_returns
    by (apply generateFruitBody_eq; rewrite Hcur, Hsizes; exact Hconfig'').
  rewrite bind_modify, setTimeout_eq.
  eexists. split; [reflexivity|]. fields.
  rewrite Hheap, Hmouse, Htimers, Hradius, ?Hcur.
  rewrite length_app, <- app_assoc. cbn [length app]. rewrite Nat.add_1_r.
  unfold successorBody. repeat split; assumption || reflexivity.
Qed.

(** C10: every call of [setNextFruitSize] leaves [nextFruitSize] in
    [{0, ..., 4}]; and in every state of a session, the current and the
    next fruit size are at most 4 and the catalog has its 11 tiers, so a
    drop in the READY state finds its tier in the catalog, does not throw,
    and creates a fruit of one of the five smallest tiers. *)
Theorem drops_use_low_tiers (g : GameInterface) (posX : float) :
  reachable engine g ->
  stateIndex g = READY ->
  (forall g0 : GameInterface, nextFruitSize (fst (setNextFruitSize g0)) <= 4)
  /\ currentFruitSize g <= 4
  /\ nextFruitSize g <= 4
  /\ length (fruitSizes g) = 11
  /\ exists (config : FruitSize) (g' : GameInterface),
       fruitSizes g !! currentFruitSize g = Some config
       /\ addFruit engine posX g = (g', Some tt)
       /\ heap g' !! length (heap g)
          = Some (successorBody engine config {| x := posX; y := previewBallHeight |}
                    (currentFruitSize g))
       /\ currentFruitSize g' = nextFruitSize g
       /\ nextFruitSize g' <= 4.
Proof.
  intros Hreach Hstate. pose proof (reachable_wf g Hreach) as Hwf.
  pose proof (sameTiers_length _ _ (wf_catalog g Hwf)) as Hlen.
  pose proof (wf_current g Hwf) as Hcur. pose proof (wf_next g Hwf) as Hnext.
  pose proof (wf_counts g Hwf) as Hcounts.
  change (length fruitSizes0) with 11 in *.
  split; [exact setNextFruitSize_range|]. do 3 (split; [assumption|]).
  destruct (lookup_lt_is_Some_2 (fruitSizes g) (currentFruitSize g)) as [config Hconfig];
    [lia|].
  destruct (lookup_lt_is_Some_2 (fruitSizes g) (nextFruitSize g)) as [config' Hconfig'];
    [lia|].
  pose proof (mulberry32_range (seed g)) as Hu.
  destruct (mulberry32 (seed g)) as [a u] eqn:Hrand. cbn [snd] in Hu.
  destruct (addFruit_drops g posX config config' a u Hrand Hstate Hconfig Hconfig')
    as (g' & Hrun & Hheap & _ & Hcur' & Hnext' & _); [lia|].
  exists config, g'. repeat split; try assumption.
  - rewrite Hheap. rewrite lookup_app_r by lia. rewrite Nat.sub_diag. reflexivity.
  - rewrite Hnext'. apply floor_times5_range, Hu.
Qed.

(** ** One merge per body *)

(** A property of the heap that appending a body and marking a body as
    popped preserve is kept by every iteration of the loop. *)
Lemma keeps_onHeap_collisionPair (P : list FruitBody -> Prop) (p : nat * nat) :
  (forall (l : list FruitBody) (body : FruitBody), P l -> P (l ++ [body])) ->
  (forall (l : list FruitBody) (j : nat), P l -> P (alter (set_popped true) j l)) ->
  keeps (onHeap P) anything (collisionPair engine p).
Proof.
  intros Happ Halter. destruct p as [a b].
  unfold collisionPair, deref, loseGame, originalLoseGame, saveHighscore, calculateScore,
    incrMerged, markPopped, addPop, generateFruitBody, newBody, rand, setTimeout,
    Composite_remove, Composite_add.
  repeat keeps_step;
    try exact Logic.I;
    try (intros g0 Hg0; unfold onHeap in *; simpl; auto).
Qed.

Lemma deref_eq (g : GameInterface) (i : nat) (body : FruitBody) :
  heap g !! i = Some body -> deref i g = (g, Some body).
Proof. intros H. unfold deref. rewrite bind_get, H. reflexivity. Qed.

Lemma deref_throws (g : GameInterface) (i : nat) :
  heap g !! i = None -> deref i g = (g, None).
Proof. intros H. unfold deref. rewrite bind_get, H. reflexivity. Qed.

(** An iteration that does not select its pair creates, removes and counts
    nothing. *)
Lemma collisionPair_not_selected (g : GameInterface) (p : nat * nat) :
  selects g p = false ->
  heap (fst (collisionPair engine p g)) = heap g
  /\ world (fst (collisionPair engine p g)) = world g
  /\ fruitsMerged (fst (collisionPair engine p g)) = fruitsMerged g.
Proof.
  destruct p as [a b]. unfold selects, tooHigh, lowEdge. cbn [fst snd]. intros Hsel.
  unfold collisionPair.
  destruct (heap g !! a) as [bodyA|] eqn:Ha;
    [|rewrite (bind_throws _ _ _ _ (deref_throws g a Ha)); auto].
  rewrite (bind_returns _ _ _ _ _ (deref_eq g a bodyA Ha)).
  destruct (heap g !! b) as [bodyB|] eqn:Hb;
    [|rewrite (bind_throws _ _ _ _ (deref_throws g b Hb)); auto].
  rewrite (bind_returns _ _ _ _ _ (deref_eq g b bodyB Hb)).
  destruct (isStatic bodyA || isStatic bodyB); [auto|].
  destruct ((y (position bodyA) + JS.orZero (circleRadius bodyA) <? loseHeight)%float
            || (y (position bodyB) + JS.orZero (circleRadius bodyB) <? loseHeight)%float).
  { destruct (loseGame_loses g) as (_ & Hheap & Hworld & Hmerged).
    destruct (loseGame g) as [g' [[]|]] eqn:Hlose; cbn [fst] in *.
    - rewrite (bind_returns _ _ _ _ _ Hlose). auto.
    - rewrite (bind_throws _ _ _ _ Hlose). auto. }
  destruct (sizeIndex bodyA) as [sizeA|]; [|auto].
  destruct (sizeIndex bodyB) as [sizeB|]; [|auto].
  destruct (sizeA =? sizeB); [|auto]. cbn [negb].
  destruct (popped bodyA || popped bodyB); [auto|].
  cbn [negb andb] in Hsel. apply bool_decide_eq_false in Hsel.
  rewrite bind_get. unfold maxRadiusOf.
  destruct (fruitSizes g) as [|size sizes]; [auto|]. exfalso. apply Hsel. discriminate.
Qed.


Lemma poppedAt_app (i : nat) (l : list FruitBody) (body : FruitBody) :
  poppedAt i l -> poppedAt i (l ++ [body]).
Proof.
  intros (body0 & Hi & Hp). exists body0. split; [|exact Hp].
  apply lookup_app_l_Some, Hi.
Qed.


Lemma poppedAt_alter (i j : nat) (l : list FruitBody) :
  poppedAt i l -> poppedAt i (alter (set_popped true) j l).
Proof.
  intros (body & Hi & Hp). destruct (decide (j = i)) as [->|Hne].
  - exists (set_popped true body). split; [|reflexivity].
    rewrite list_lookup_alter_eq, Hi. reflexivity.
  - exists body. split; [|exact Hp]. rewrite list_lookup_alter_ne; assumption.
Qed.

Lemma keeps_poppedAt (i : nat) (p : nat * nat) (g : GameInterface) :
  poppedAt i (heap g) -> poppedAt i (heap (fst (collisionPair engine p g))).
Proof.
  intros H.
  apply (keeps_onHeap_collisionPair (poppedAt i) p
           (poppedAt_app i) (fun l j => poppedAt_alter i j l) g H).
Qed.

(** A body that is popped is not selected again. *)
Lemma poppedAt_not_selected (g : GameInterface) (p : nat * nat) (i : nat) :
  poppedAt i (heap g) -> involves i p = true -> selects g p = false.
Proof.
  intros (body & Hi & Hp) Hinv. destruct p as [a b]. unfold involves in Hinv.
  unfold selects. cbn [fst snd] in *.
  destruct (heap g !! a) as [bodyA|] eqn:Ha; [|reflexivity].
  destruct (heap g !! b) as [bodyB|] eqn:Hb; [|reflexivity].
  assert (Hpopped : popped bodyA || popped bodyB = true).
  { apply orb_true_iff in Hinv as [Hia|Hib].
    - apply Nat.eqb_eq in Hia. subst i. rewrite Hi in Ha. injection Ha as <-.
      rewrite Hp. reflexivity.
    - apply Nat.eqb_eq in Hib. subst i. rewrite Hi in Hb. injection Hb as <-.
      rewrite Hp. apply orb_true_r. }
  rewrite Hpopped.
  destruct (sizeIndex bodyA), (sizeIndex bodyB);
    cbn [negb]; rewrite ?andb_false_r; reflexivity.
Qed.


Lemma merges_none_popped (i : nat) (pairs : list (nat * nat)) :
  forall g : GameInterface,
    poppedAt i (heap g) -> List.filter (involves i) (merges engine pairs g) = [].
Proof.
  induction pairs as [|p pairs IH]; intros g Hi; [reflexivity|].
  cbn [merges]. rewrite List.filter_app.
  assert (Hhead : List.filter (involves i) (if selects g p then [p] else []) = []).
  { destruct (involves i p) eqn:Hinv.
    - rewrite (poppedAt_not_selected g p i Hi Hinv). reflexivity.
    - destruct (selects g p); [|reflexivity]. simpl. rewrite Hinv. reflexivity. }
  rewrite Hhead. pose proof (keeps_poppedAt i p g Hi) as Hi'.
  destruct (collisionPair engine p g) as [g' [[|]|]]; try reflexivity.
  apply IH, Hi'.
Qed.






End Sessions.

(** * Further properties of the code *)

(** ** The score and the high score *)

(** X1: [calculateScore] throws exactly when there are more merge counts than
    tiers, and then leaves the game as it is. *)
Theorem calculateScore_throws_iff (g : GameInterface) :
  (snd (calculateScore g) = None <-> length (fruitSizes g) < length (fruitsMerged g))
  /\ (snd (calculateScore g) = None -> fst (calculateScore g) = g).
Proof.
  destruct (le_lt_dec (length (fruitsMerged g)) (length (fruitSizes g))) as [Hle|Hlt].
  - rewrite (calculateScore_eq g Hle). simpl.
    split; [split; [discriminate|lia]|discriminate].
  - unfold calculateScore, bind, get, throw.
    rewrite reduceScore_throws by (simpl; lia). simpl. split; [tauto|reflexivity].
Qed.

Lemma loseGame_eq (g : GameInterface) :
  length (fruitsMerged g) <= length (fruitSizes g) ->
  let s := consumedTierScore (fruitSizes g) (fruitsMerged g) in
  loseGame g
  = (set_runnerEnabled false
       (if (s <? highscore g)%Z then set_score s (set_stateIndex LOSE g)
        else set_storage (Some s) (set_highscore s (set_score s (set_stateIndex LOSE g)))),
     Some tt).
Proof.
  intros Hlen s. unfold loseGame, originalLoseGame.
  pose proof (saveHighscore_cases (set_stateIndex LOSE g)) as H. fields.
  rewrite (reduceScore_consumed _ _ 0 0) in H by (simpl; exact Hlen).
  change (drop 0 (fruitSizes g)) with (fruitSizes g) in H. rewrite Z.add_0_l in H.
  fold s in H. unfold bind at 1. unfold bind at 1. unfold modify at 1.
  destruct (s <? highscore g)%Z; rewrite H; reflexivity.
Qed.

(** X2: [loseGame], in a game with at most one merge count per tier: the state
    becomes LOSE, the runner is disabled, the score is recomputed, and the
    high score becomes the larger of the old one and the score; the storage
    key is rewritten exactly when the score is not below the old high
    score, and nothing is created, removed or counted. *)
Theorem loseGame_records_best (g : GameInterface) :
  length (fruitsMerged g) <= length (fruitSizes g) ->
  let s := consumedTierScore (fruitSizes g) (fruitsMerged g) in
  let g' := fst (loseGame g) in
  snd (loseGame g) = Some tt
  /\ stateIndex g' = LOSE
  /\ runnerEnabled g' = false
  /\ score g' = s
  /\ highscore g' = Z.max (highscore g) s
  /\ storage g' = (if (s <? highscore g)%Z then storage g else Some s)
  /\ heap g' = heap g /\ world g' = world g /\ fruitsMerged g' = fruitsMerged g
  /\ timers g' = timers g.
Proof.
  intros Hlen s g'. subst g'. rewrite (loseGame_eq g Hlen). fold s.
  destruct (s <? highscore g)%Z eqn:Hlt; simpl; repeat split; try reflexivity.
  - apply Z.ltb_lt in Hlt. lia.
  - apply Z.ltb_ge in Hlt. lia.
Qed.

(** X3: Reading the high score back: in a state whose storage key agrees with
    the cache, [loadHighscore] after [saveHighscore] changes nothing more,
    whether the save wrote the key or not. *)
Theorem loadHighscore_after_save (g : GameInterface) :
  synced g ->
  fst (loadHighscore (fst (saveHighscore g))) = fst (saveHighscore g)
  /\ (forall h : Z, storage g = Some h -> highscore (fst (loadHighscore g)) = h)
  /\ (storage g = None -> loadHighscore g = saveHighscore g).
Proof.
  intros Hs. split; [|split].
  - pose proof (saveHighscore_cases g) as H.
    destruct (reduceScore (fruitSizes g) (fruitsMerged g) 0 0) as [s|] eqn:Hscore.
    + destruct (s <? highscore g)%Z eqn:Hlt; rewrite H; cbn [fst].
      * unfold loadHighscore. rewrite bind_get. cbn [storage set_score].
        destruct (storage g) as [h|] eqn:Hst.
        -- unfold modify. cbn [fst]. rewrite (Hs h Hst). destruct g; reflexivity.
        -- pose proof (saveHighscore_cases (set_score s g)) as H2. fields.
           rewrite Hscore, Hlt in H2. rewrite H2. destruct g; reflexivity.
      * unfold loadHighscore. rewrite bind_get. destruct g; reflexivity.
    + rewrite H. cbn [fst]. unfold loadHighscore. rewrite bind_get.
      destruct (storage g) as [h|] eqn:Hst.
      * unfold modify. cbn [fst]. rewrite (Hs h Hst). destruct g; reflexivity.
      * rewrite H. reflexivity.
  - intros h Hst. unfold loadHighscore. rewrite bind_get, Hst. reflexivity.
  - intros Hst. unfold loadHighscore. rewrite bind_get, Hst. reflexivity.
Qed.

(** ** The catalog lookup on any catalog *)

Lemma findIndex_Some {A : Type} (p : A -> bool) (l : list A) :
  forall i k : nat,
    findIndex p l i = Some k ->
    i <= k
    /\ (exists a : A, l !! (k - i) = Some a /\ p a = true)
    /\ (forall (j : nat) (a : A), j < k - i -> l !! j = Some a -> p a = false).
Proof.
  induction l as [|a l IH]; intros i k H; simpl in H; [discriminate|].
  destruct (p a) eqn:Hp.
  - injection H as <-. rewrite Nat.sub_diag. split; [lia|]. split.
    + exists a. split; [reflexivity|exact Hp].
    + intros j a' Hj. lia.
  - destruct (IH (S i) k H) as (Hle & (a' & Ha' & Hpa') & Hbefore).
    split; [lia|]. replace (k - i) with (S (k - S i)) by lia. split.
    + exists a'. split; [exact Ha'|exact Hpa'].
    + intros j a0 Hj Hl. destruct j as [|j].
      * injection Hl as <-. exact Hp.
      * apply (Hbefore j a0); [lia|exact Hl].
Qed.

Lemma findIndex_None {A : Type} (p : A -> bool) (l : list A) :
  forall i : nat,
    findIndex p l i = None ->
    forall (j : nat) (a : A), l !! j = Some a -> p a = false.
Proof.
  induction l as [|a l IH]; intros i H j a' Hl; simpl in H; [discriminate|].
  destruct (p a) eqn:Hp; [discriminate|].
  destruct j as [|j]; [injection Hl as <-; exact Hp|]. exact (IH (S i) H j a' Hl).
Qed.

(** X4: [lookupFruitIndex], on any catalog and any radius: an index it returns
    is that of the first tier whose computed radius is within the tolerance,
    and is never the last index; it returns nothing exactly when no tier is
    within the tolerance or the first one that is, is the last tier. *)
Theorem lookupFruitIndex_first_match (g : GameInterface) (r : float) :
  match lookupFruitIndex g r with
  | Some i =>
      i < length (fruitSizes g) - 1
      /\ (exists size : FruitSize, fruitSizes g !! i = Some size /\ within size r = true)
      /\ (forall (j : nat) (size : FruitSize),
            j < i -> fruitSizes g !! j = Some size -> within size r = false)
  | None =>
      forall (j : nat) (size : FruitSize),
        j < length (fruitSizes g) - 1 -> fruitSizes g !! j = Some size ->
        within size r = false
  end.
Proof.
  unfold lookupFruitIndex.
  change (fun size : FruitSize => (abs (computedRadius size - r) <? tolerance)%float)
    with (fun size => within size r).
  destruct (findIndex (fun size => within size r) (fruitSizes g) 0) as [k|] eqn:Hfind.
  - destruct (findIndex_Some _ _ 0 k Hfind) as (_ & (size & Hsize & Hin) & Hbefore).
    rewrite Nat.sub_0_r in *. pose proof (lookup_lt_Some _ _ _ Hsize) as Hlt.
    destruct (k =? length (fruitSizes g) - 1) eqn:Hlast.
    + apply Nat.eqb_eq in Hlast. intros j size' Hj. apply Hbefore. lia.
    + apply Nat.eqb_neq in Hlast. split; [lia|]. split; [eauto|exact Hbefore].
  - intros j size _. exact (findIndex_None _ _ 0 Hfind j size).
Qed.

(** ** The random number generator *)

Lemma ToInt32_period (z k : Z) : JS.ToInt32 (z + k * 2 ^ 32) = JS.ToInt32 z.
Proof.
  unfold JS.ToInt32. replace (z + k * 2 ^ 32 + 2 ^ 31)%Z with (z + 2 ^ 31 + k * 2 ^ 32)%Z by ring.
  rewrite Z.mod_add by discriminate. reflexivity.
Qed.

Lemma ToUint32_period (z k : Z) : JS.ToUint32 (z + k * 2 ^ 32) = JS.ToUint32 z.
Proof. unfold JS.ToUint32. rewrite Z.mod_add by discriminate. reflexivity. Qed.

(** X5: One call of [rand], the seed being an integer (as it is while it
    stays below [2^53], where JavaScript's additions are exact): the captured
    seed grows by the constant [0x6D2B79F5], the result [u / 2^32] has
    [0 <= u < 2^32] and so lies in [[0, 1)], and it depends on the seed modulo
    [2^32] only. *)
Theorem mulberry32_seed_mod (a k : Z) :
  fst (mulberry32 a) = (a + 1831565813)%Z
  /\ (0 <= snd (mulberry32 a) < 4294967296)%Z
  /\ snd (mulberry32 (a + k * 2 ^ 32)) = snd (mulberry32 a).
Proof.
  split; [reflexivity|]. split; [exact (mulberry32_range a)|].
  unfold mulberry32. cbv zeta. cbn [snd].
  replace (a + k * 2 ^ 32 + 1831565813)%Z with (a + 1831565813 + k * 2 ^ 32)%Z by ring.
  generalize (a + 1831565813)%Z. intros t.
  assert (Hxor : forall n : Z,
            JS.xor (t + k * 2 ^ 32) (JS.ushr (t + k * 2 ^ 32) n) = JS.xor t (JS.ushr t n)).
  { intros n. unfold JS.xor, JS.ushr. rewrite ToInt32_period, ToUint32_period. reflexivity. }
  assert (Hor : forall n : Z, JS.or (t + k * 2 ^ 32) n = JS.or t n).
  { intros n. unfold JS.or. rewrite ToInt32_period. reflexivity. }
  rewrite Hxor, Hor. reflexivity.
Qed.

(** ** The pop effect *)

Lemma rand_eq (g : GameInterface) :
  rand g = (set_seed (fst (mulberry32 (seed g))) g, Some (snd (mulberry32 (seed g)))).
Proof.
  unfold rand. rewrite bind_get. destruct (mulberry32 (seed g)) as [a u]. reflexivity.
Qed.

Lemma newBody_eq (body : FruitBody) (g : GameInterface) :
  newBody body g = (set_heap (heap g ++ [body]) g, Some (length (heap g))).
Proof. reflexivity. Qed.

Lemma addPop_eq (posX posY r : float) (g : GameInterface) :
  addPop posX posY r g
  = (set_timers (timers g ++ [TimerPop (length (heap g))])
       (set_world (world g ++ [length (heap g)])
          (set_heap (heap g ++ [popCircle {| x := posX; y := posY |} r])
             (set_seed (fst (mulberry32 (seed g))) g))),
     Some tt).
Proof.
  unfold addPop. rewrite (bind_returns _ _ _ _ _ (rand_eq g)).
  rewrite (bind_returns _ _ _ _ _ (newBody_eq _ _)).
  rewrite (bind_returns _ _ _ _ _ (Composite_add_eq _ _)).
  rewrite setTimeout_eq. reflexivity.
Qed.

Lemma filter_out_last (n : nat) (l : list nat) :
  (forall j : nat, In j l -> j <> n) ->
  List.filter (fun i => negb (memb i [n])) (l ++ [n]) = l.
Proof.
  intros Hl. rewrite List.filter_app. simpl. rewrite Nat.eqb_refl. simpl.
  rewrite app_nil_r. induction l as [|j l IH]; [reflexivity|]. simpl.
  assert (Hj : (j =? n) = false) by (apply Nat.eqb_neq, Hl; left; reflexivity).
  rewrite Hj. simpl. f_equal. apply IH. intros j' Hj'. apply Hl. right. exact Hj'.
Qed.

(** X6: The pop effect is transient: [addPop] puts one static circle of the
    given radius into the world and queues its removal, touching neither the
    score, the counts nor the other bodies; when that timer fires the world
    is again what it was before. *)
Theorem addPop_is_transient (g : GameInterface) (posX posY r : float) :
  worldInHeap g ->
  let circle := length (heap g) in
  let g1 := fst (addPop posX posY r g) in
  snd (addPop posX posY r g) = Some tt
  /\ heap g1 = heap g ++ [popCircle {| x := posX; y := posY |} r]
  /\ isStaticAt (heap g1) circle = true
  /\ world g1 = world g ++ [circle]
  /\ timers g1 = timers g ++ [TimerPop circle]
  /\ score g1 = score g /\ fruitsMerged g1 = fruitsMerged g /\ stateIndex g1 = stateIndex g
  /\ world (fst (fire (TimerPop circle) g1)) = world g
  /\ heap (fst (fire (TimerPop circle) g1)) = heap g1.
Proof.
  intros Hworld circle g1. subst circle g1. rewrite addPop_eq. fields.
  repeat split; try reflexivity.
  - unfold isStaticAt. rewrite lookup_app_r by lia. rewrite Nat.sub_diag. reflexivity.
  - unfold fire. rewrite Composite_remove_eq. fields. apply filter_out_last.
    intros j Hj. apply Hworld in Hj. lia.
Qed.

(** ** The audio pool *)

Section Pool.

Variable cloneNode pause playNode : AudioPool.Audio -> AudioPool.Audio.

(** X7: [AudioPool.play]: with volume 0 nothing changes; otherwise only the
    pool of the sound's source changes, it keeps the elements it had (their
    number never decreases), it grows by one element exactly when none of its
    elements is paused or ended and it holds fewer than 3, and so no pool
    ever exceeds 3 elements. *)
Theorem play_bounded (audio : AudioPool.Audio) (vol : float)
    (pools : gmap string (list AudioPool.Audio)) :
  AudioPool.bounded pools ->
  AudioPool.bounded (AudioPool.play cloneNode pause playNode audio vol pools)
  /\ ((vol =? 0)%float = true ->
      AudioPool.play cloneNode pause playNode audio vol pools = pools)
  /\ (forall key : string,
        key <> AudioPool.src audio ->
        AudioPool.play cloneNode pause playNode audio vol pools !! key = pools !! key)
  /\ ((vol =? 0)%float = false ->
      let old := default [] (pools !! AudioPool.src audio) in
      exists pool : list AudioPool.Audio,
        AudioPool.play cloneNode pause playNode audio vol pools !! AudioPool.src audio
        = Some pool
        /\ length pool
           = match AudioPool.findAvailable old with
             | Some _ => length old
             | None => if length old <? AudioPool.maxPoolSize then S (length old)
                       else length old
             end).
Proof.
  intros Hbound.
  assert (Hother : forall key : string,
            key <> AudioPool.src audio ->
            AudioPool.play cloneNode pause playNode audio vol pools !! key = pools !! key).
  { intros key Hkey. unfold AudioPool.play. destruct (vol =? 0)%float; [reflexivity|].
    cbv zeta.
    repeat match goal with
           | |- context [let '(_, _) := ?c in _] => destruct c
           end.
    rewrite lookup_insert_ne by congruence.
    destruct (pools !! AudioPool.src audio); [reflexivity|].
    rewrite lookup_insert_ne by congruence. reflexivity. }
  assert (Hsame : (vol =? 0)%float = false ->
            let old := default [] (pools !! AudioPool.src audio) in
            exists pool : list AudioPool.Audio,
              AudioPool.play cloneNode pause playNode audio vol pools !! AudioPool.src audio
              = Some pool
              /\ length pool
                 = match AudioPool.findAvailable old with
                   | Some _ => length old
                   | None => if length old <? AudioPool.maxPoolSize then S (length old)
                             else length old
                   end).
  { intros Hvol old. unfold AudioPool.play. rewrite Hvol. cbv zeta.
    assert (Hold : default [] ((match pools !! AudioPool.src audio with
                                | Some _ => pools
                                | None => <[AudioPool.src audio := []]> pools
                                end) !! AudioPool.src audio) = old).
    { subst old. destruct (pools !! AudioPool.src audio) eqn:Hp.
      - rewrite Hp. reflexivity.
      - rewrite lookup_insert_eq. reflexivity. }
    rewrite Hold.
    destruct (AudioPool.findAvailable old) as [i|].
    - eexists. rewrite lookup_insert_eq. split; [reflexivity|].
      rewrite length_alter. reflexivity.
    - destruct (length old <? AudioPool.maxPoolSize).
      + eexists. rewrite lookup_insert_eq. split; [reflexivity|].
        rewrite length_alter, length_app. simpl. lia.
      + eexists. rewrite lookup_insert_eq. split; [reflexivity|].
        rewrite !length_alter. reflexivity. }
  split; [|split; [|split; [exact Hother|exact Hsame]]].
  - intros key pool Hpool.
    destruct (vol =? 0)%float eqn:Hvol.
    { unfold AudioPool.play in Hpool. rewrite Hvol in Hpool.
      exact (Hbound key pool Hpool). }
    destruct (decide (key = AudioPool.src audio)) as [->|Hkey].
    + destruct (Hsame eq_refl) as (pool' & Hpool' & Hlen). rewrite Hpool' in Hpool.
      injection Hpool as <-. rewrite Hlen.
      assert (Hold : length (default [] (pools !! AudioPool.src audio))
                     <= AudioPool.maxPoolSize).
      { destruct (pools !! AudioPool.src audio) as [old|] eqn:Hp.
        - exact (Hbound _ old Hp).
        - simpl. lia. }
      destruct (AudioPool.findAvailable _); [exact Hold|].
      destruct (length _ <? AudioPool.maxPoolSize) eqn:Hlt; [|exact Hold].
      apply Nat.ltb_lt in Hlt. lia.
    + rewrite (Hother key Hkey) in Hpool. exact (Hbound key pool Hpool).
  - intros Hvol. unfold AudioPool.play. rewrite Hvol. reflexivity.
Qed.

End Pool.

(** ** More on the merge resolver and the body factory *)

Lemma consumedTierScore_values (sizes : list FruitSize) (counts : list Z) :
  consumedTierScore sizes counts = sumZ (zip_with Z.mul (map scoreValue sizes) counts).
Proof.
  unfold consumedTierScore. revert counts.
  induction sizes as [|size sizes IH]; intros [|count counts]; simpl; try reflexivity.
  rewrite IH. reflexivity.
Qed.

Lemma scoreValue_insert_radius (sizes : list FruitSize) (i : nat) (config : FruitSize)
    (v : option float) :
  sizes !! i = Some config ->
  map scoreValue (<[i := set_radius v config]> sizes) = map scoreValue sizes.
Proof.
  intros Hi. rewrite list_fmap_insert. apply list_insert_id.
  rewrite list_lookup_fmap, Hi. reflexivity.
Qed.

Lemma sumZ_alter_succ (values counts : list Z) :
  forall (i : nat) (value count : Z),
    values !! i = Some value ->
    counts !! i = Some count ->
    sumZ (zip_with Z.mul values (alter (fun c => (c + 1)%Z) i counts))
    = (sumZ (zip_with Z.mul values counts) + value)%Z.
Proof.
  unfold sumZ. revert counts.
  induction values as [|v values IH]; intros [|c counts] i value count Hv Hc;
    try (destruct i; discriminate).
  destruct i as [|i].
  - simpl in *. injection Hv as <-. injection Hc as <-. lia.
  - change (alter (fun c0 => (c0 + 1)%Z) (S i) (c :: counts))
      with (c :: alter (fun c0 => (c0 + 1)%Z) i counts).
    cbn [zip_with foldr]. rewrite (IH counts i value count Hv Hc). lia.
Qed.

Lemma consumedTierScore_replicate (sizes : list FruitSize) (n : nat) :
  consumedTierScore sizes (replicate n 0%Z) = 0%Z.
Proof.
  unfold consumedTierScore. revert n.
  induction sizes as [|size sizes IH]; intros [|n]; simpl; try reflexivity.
  rewrite IH. lia.
Qed.

Section MoreSessions.

Variable engine : float -> option float.

(** X8: [generateFruitBody] throws exactly when the index is past the end of the
    catalog, and then changes nothing.  Otherwise it returns a new body, the
    next one of the heap, at the given position, tagged with the index and
    not popped; it caches the tier's computed radius on the catalog entry and
    changes no other parameter of the catalog; the world, the counts and the
    score are as they were. *)
Theorem generateFruitBody_in_range (g : GameInterface) (posX posY : float) (index : nat)
    (static : bool) :
  let r := generateFruitBody engine posX posY index static g in
  (snd r = None <-> length (fruitSizes g) <= index)
  /\ (snd r = None -> fst r = g)
  /\ (forall id : nat,
        snd r = Some id ->
        id = length (heap g)
        /\ exists config : FruitSize,
             fruitSizes g !! index = Some config
             /\ heap (fst r)
                = heap g ++ [ {| isStatic := static;
                                 position := {| x := posX; y := posY |};
                                 circleRadius := engine (computedRadius config);
                                 sizeIndex := Some index;
                                 popped := false |} ]
             /\ (radius <$> fruitSizes (fst r) !! index)
                = Some (Some (textureSize config * physicsScaleOf config / 2)%float)
             /\ sameTiers (fruitSizes (fst r)) (fruitSizes g)
             /\ world (fst r) = world g
             /\ fruitsMerged (fst r) = fruitsMerged g
             /\ score (fst r) = score g).
Proof.
  intros r. subst r.
  destruct (fruitSizes g !! index) as [config|] eqn:Hconfig.
  - rewrite (generateFruitBody_eq engine posX posY index static g config Hconfig).
    pose proof (lookup_lt_Some _ _ _ Hconfig) as Hlt. cbn [fst snd].
    split; [split; [discriminate|lia]|]. split; [discriminate|].
    intros id [= <-]. split; [reflexivity|]. exists config. fields.
    repeat split; try reflexivity.
    + rewrite list_lookup_insert_eq by exact Hlt. reflexivity.
    + apply sameTiers_insert; [exact Hconfig|reflexivity].
  - pose proof (proj1 (lookup_ge_None _ _) Hconfig) as Hge.
    rewrite (generateFruitBody_throws engine posX posY index static g Hge). cbn [fst snd].
    split; [tauto|]. split; [reflexivity|discriminate].
Qed.

(** The whole state after a merge, beyond the heap, the world and the
    counts. *)
Lemma collisionPair_merges_rest (g : GameInterface) (a b i newSize : nat)
    (bodyA bodyB : FruitBody) (config top : FruitSize) :
  heap g !! a = Some bodyA ->
  heap g !! b = Some bodyB ->
  isStatic bodyA = false ->
  isStatic bodyB = false ->
  tooHigh bodyA = false ->
  tooHigh bodyB = false ->
  sizeIndex bodyA = Some i ->
  sizeIndex bodyB = Some i ->
  popped bodyA = false ->
  popped bodyB = false ->
  fruitSizes g !! (length (fruitSizes g) - 1) = Some top ->
  newSize = (if reachedMax (radius top) (JS.orZero (circleRadius bodyA)) then 0 else i + 1) ->
  fruitSizes g !! newSize = Some config ->
  length (fruitsMerged g) <= length (fruitSizes g) ->
  let g' := fst (collisionPair engine (a, b) g) in
  score g' = consumedTierScore (fruitSizes g') (fruitsMerged g')
  /\ timers g' = timers g ++ [TimerPop (S (length (heap g)))]
  /\ previewBall g' = previewBall g
  /\ currentFruitSize g' = currentFruitSize g
  /\ nextFruitSize g' = nextFruitSize g
  /\ highscore g' = highscore g
  /\ storage g' = storage g
  /\ runnerEnabled g' = runnerEnabled g.
Proof.
  intros Ha Hb HsA HsB HhA HhB HtA HtB HpA HpB Htop Hnew Hconfig Hlen g'.
  subst g'. unfold tooHigh, lowEdge in *.
  unfold collisionPair, deref, bind, get, modify, ret, throw. simpl.
  rewrite Ha, Hb. simpl.
  rewrite HsA, HsB, HhA, HhB, HtA, HtB, HpA, HpB. simpl. rewrite Nat.eqb_refl. simpl.
  unfold maxRadiusOf. rewrite Htop. simpl. rewrite <- Hnew.
  erewrite generateFruitBody_eq by (simpl; exact Hconfig). simpl.
  rewrite calculateScore_eq by (simpl; rewrite length_insert, length_alter; exact Hlen).
  simpl. rewrite !length_app, !length_alter. simpl.
  rewrite Nat.add_1_r. repeat split; reflexivity.
Qed.

(** X9: Each merge is worth the score value of the tier of the two merged
    fruits: after a merge at tier [i] the score is the score of the counts
    before the merge plus [fruitSizes[i].scoreValue]. *)
Theorem merge_adds_consumed_value (g : GameInterface) (a b i newSize : nat)
    (bodyA bodyB : FruitBody) (config top tier : FruitSize) :
  heap g !! a = Some bodyA ->
  heap g !! b = Some bodyB ->
  isStatic bodyA = false ->
  isStatic bodyB = false ->
  tooHigh bodyA = false ->
  tooHigh bodyB = false ->
  sizeIndex bodyA = Some i ->
  sizeIndex bodyB = Some i ->
  popped bodyA = false ->
  popped bodyB = false ->
  fruitSizes g !! (length (fruitSizes g) - 1) = Some top ->
  newSize = (if reachedMax (radius top) (JS.orZero (circleRadius bodyA)) then 0 else i + 1) ->
  fruitSizes g !! newSize = Some config ->
  length (fruitsMerged g) = length (fruitSizes g) ->
  fruitSizes g !! i = Some tier ->
  score (fst (collisionPair engine (a, b) g))
  = (consumedTierScore (fruitSizes g) (fruitsMerged g) + scoreValue tier)%Z.
Proof.
  intros Ha Hb HsA HsB HhA HhB HtA HtB HpA HpB Htop Hnew Hconfig Hlen Htier.
  assert (Hle : length (fruitsMerged g) <= length (fruitSizes g)) by lia.
  destruct (collisionPair_merges engine g a b i newSize bodyA bodyB config top)
    as (_ & _ & _ & Hmerged & Hsizes & _); try assumption.
  destruct (collisionPair_merges_rest g a b i newSize bodyA bodyB config top)
    as (Hscore & _); try assumption.
  rewrite Hscore, Hmerged, Hsizes, !consumedTierScore_values.
  rewrite (scoreValue_insert_radius _ _ _ _ Hconfig).
  destruct (lookup_lt_is_Some_2 (fruitsMerged g) i) as [count Hcount].
  { rewrite Hlen. eapply lookup_lt_Some. exact Htier. }
  apply (sumZ_alter_succ _ _ i (scoreValue tier) count); [|exact Hcount].
  rewrite list_lookup_fmap, Htier. reflexivity.
Qed.

(** ** What the resolver passes over *)

Lemma collisionPair_passes_over (g : GameInterface) (p : nat * nat) :
  passesOver g p = true -> collisionPair engine p g = (g, Some Continue).
Proof.
  destruct p as [a b]. unfold passesOver, tooHigh, lowEdge. cbn [fst snd]. intros Hpass.
  destruct (heap g !! a) as [bodyA|] eqn:Ha; [|discriminate].
  destruct (heap g !! b) as [bodyB|] eqn:Hb; [|discriminate].
  unfold collisionPair.
  rewrite (bind_returns _ _ _ _ _ (deref_eq g a bodyA Ha)).
  rewrite (bind_returns _ _ _ _ _ (deref_eq g b bodyB Hb)).
  destruct (isStatic bodyA || isStatic bodyB); [reflexivity|].
  cbn [orb] in Hpass.
  destruct ((y (position bodyA) + JS.orZero (circleRadius bodyA) <? loseHeight)%float
            || (y (position bodyB) + JS.orZero (circleRadius bodyB) <? loseHeight)%float);
    [discriminate|].
  cbn [negb andb] in Hpass.
  destruct (sizeIndex bodyA) as [sizeA|]; [|reflexivity].
  destruct (sizeIndex bodyB) as [sizeB|]; [|reflexivity].
  destruct (sizeA =? sizeB); [|reflexivity].
  cbn [negb orb] in Hpass. rewrite Hpass. reflexivity.
Qed.

(** X10: A batch changes nothing at all when each of its pairs has a static
    body (a wall, the floor, a preview or a pop circle), or has no body above
    the lose line and is not a pair of unpopped fruits of one tier: walls
    never merge, fruits of different tiers never merge, and such a batch
    neither scores nor ends the game. *)
Theorem collisionStart_passes_over (g : GameInterface) (pairs : list (nat * nat)) :
  Forall (fun p => passesOver g p = true) pairs ->
  collisionStart engine pairs g = (g, Some tt).
Proof.
  induction 1 as [|p pairs Hp _ IH]; [reflexivity|].
  cbn [collisionStart]. rewrite (bind_returns _ _ _ _ _ (collisionPair_passes_over g p Hp)).
  exact IH.
Qed.

(** ** The end of the catalog *)

(** X11: When the two merged fruits are of the last tier and the radius the
    engine reports for the first is not at or above the cached radius of
    that tier, the successor index is past the end of the catalog: the
    handler throws in [generateFruitBody], after it has counted the merge,
    marked both bodies as popped and removed them from the world.  No
    successor and no pop circle is created, the score is not recomputed, and
    the rest of the batch is not processed. *)
Theorem last_tier_merge_throws (g : GameInterface) (a b i : nat) (bodyA bodyB : FruitBody)
    (top : FruitSize) (rest : list (nat * nat)) :
  heap g !! a = Some bodyA ->
  heap g !! b = Some bodyB ->
  isStatic bodyA = false ->
  isStatic bodyB = false ->
  tooHigh bodyA = false ->
  tooHigh bodyB = false ->
  sizeIndex bodyA = Some i ->
  sizeIndex bodyB = Some i ->
  popped bodyA = false ->
  popped bodyB = false ->
  i = length (fruitSizes g) - 1 ->
  fruitSizes g !! i = Some top ->
  reachedMax (radius top) (JS.orZero (circleRadius bodyA)) = false ->
  let g' := fst (collisionStart engine ((a, b) :: rest) g) in
  snd (collisionStart engine ((a, b) :: rest) g) = None
  /\ heap g' = alter (set_popped true) b (alter (set_popped true) a (heap g))
  /\ world g' = List.filter (fun j => negb (memb j [a; b])) (world g)
  /\ fruitsMerged g' = alter (fun count => (count + 1)%Z) i (fruitsMerged g)
  /\ score g' = score g
  /\ fruitSizes g' = fruitSizes g
  /\ stateIndex g' = stateIndex g
  /\ timers g' = timers g.
Proof.
  intros Ha Hb HsA HsB HhA HhB HtA HtB HpA HpB Hi Htop Hmax g'. subst g'.
  unfold tooHigh, lowEdge in *. pose proof (lookup_lt_Some _ _ _ Htop) as Hlt.
  cbn [collisionStart].
  unfold collisionPair, deref, bind, get, modify, ret, throw. simpl.
  rewrite Ha, Hb. simpl.
  rewrite HsA, HsB, HhA, HhB, HtA, HtB, HpA, HpB. simpl. rewrite Nat.eqb_refl. simpl.
  unfold maxRadiusOf. rewrite <- Hi, Htop. simpl. rewrite Hmax.
  rewrite generateFruitBody_throws by (simpl; lia).
  simpl. repeat split; reflexivity.
Qed.

(** ** Restarting *)

Lemma memb_In (i : nat) (l : list nat) : memb i l = true <-> In i l.
Proof.
  unfold memb. rewrite existsb_exists. split.
  - intros (k & Hk & Hik). apply Nat.eqb_eq in Hik. subst k. exact Hk.
  - intros Hi. exists i. split; [exact Hi|apply Nat.eqb_refl].
Qed.

Lemma filter_remove_filtered (q : nat -> bool) (l : list nat) :
  List.filter (fun i => negb (memb i (List.filter q l))) l
  = List.filter (fun i => negb (q i)) l.
Proof.
  apply filter_ext_in. intros i Hi. f_equal.
  destruct (q i) eqn:Hq.
  - apply memb_In, filter_In. split; assumption.
  - apply not_true_is_false. intros H. apply memb_In, filter_In in H as [_ H]. congruence.
Qed.

Lemma restartGame_eq (g : GameInterface) (config : FruitSize) (a1 u1 a2 u2 : Z) :
  fruitSizes g !! 0 = Some config ->
  mulberry32 (seed g) = (a1, u1) ->
  mulberry32 a1 = (a2, u2) ->
  exists g' : GameInterface,
    restartGame engine g = (g', Some tt)
    /\ score g' = 0%Z
    /\ fruitsMerged g' = replicate (length (fruitSizes g)) 0%Z
    /\ heap g'
       = heap g ++ [ {| isStatic := true;
                        position := {| x := (640 / 2)%float; y := previewBallHeight |};
                        circleRadius := engine (computedRadius config);
                        sizeIndex := Some 0;
                        popped := false |} ]
    /\ world g'
       = List.filter (isStaticAt (heap g)) (world g) ++ [length (heap g)]
    /\ previewBall g' = Some (length (heap g))
    /\ currentFruitSize g' = floor_times5 u1
    /\ nextFruitSize g' = floor_times5 u2
    /\ seed g' = a2
    /\ stateIndex g' = stateIndex g
    /\ timers g' = timers g ++ [TimerReady]
    /\ runnerEnabled g' = true
    /\ highscore g' = highscore g
    /\ storage g' = storage g
    /\ sameTiers (fruitSizes g') (fruitSizes g).
Proof.
  intros Hconfig Hrand1 Hrand2. unfold restartGame. rewrite bind_get.
  erewrite bind_returns by apply Composite_remove_eq.
  rewrite !bind_modify. fields.
  erewrite bind_returns
    by (apply calculateScore_eq; fields; rewrite length_replicate; reflexivity).
  fields. rewrite consumedTierScore_replicate.
  erewrite bind_returns by (apply generateFruitBody_eq; fields; exact Hconfig).
  rewrite bind_modify.
  erewrite bind_returns by apply Composite_add_eq.
  erewrite bind_returns by apply setNextFruitSize_eq.
  fields. rewrite Hrand1. fields. rewrite bind_get, bind_modify. fields.
  erewrite bind_returns by apply setNextFruitSize_eq.
  fields. rewrite Hrand2. fields. rewrite bind_modify, setTimeout_eq. fields.
  eexists. split; [reflexivity|]. fields.
  rewrite filter_remove_filtered.
  assert (Hfilter : List.filter (fun i => negb (negb (isStaticAt (heap g) i))) (world g)
                    = List.filter (isStaticAt (heap g)) (world g)).
  { apply filter_ext. intros i. apply negb_involutive. }
  rewrite Hfilter. repeat split; try reflexivity.
  apply sameTiers_insert; [exact Hconfig|reflexivity].
Qed.

(** X12: [restartGame], in a game whose catalog is not empty: it returns
    normally; the score is 0 and every merge count is 0; the world keeps
    exactly its static bodies and gains a new static preview body of tier 0,
    so that no dynamic body is left in it; the current and the next fruit
    size are drawn anew from [{0, ..., 4}]; the runner is enabled; the state
    index is not changed yet, a timer that will set it to READY is queued;
    the high score and the storage key are as they were. *)
Theorem restartGame_clears (g : GameInterface) :
  fruitSizes g <> [] ->
  let g' := fst (restartGame engine g) in
  snd (restartGame engine g) = Some tt
  /\ score g' = 0%Z
  /\ fruitsMerged g' = replicate (length (fruitSizes g)) 0%Z
  /\ (forall j : nat, In j (world g') -> isStaticAt (heap g') j = true)
  /\ (forall j : nat, In j (world g) -> isStaticAt (heap g) j = true -> In j (world g'))
  /\ previewBall g' = Some (length (heap g))
  /\ In (length (heap g)) (world g')
  /\ (sizeIndex <$> heap g' !! length (heap g)) = Some (Some 0)
  /\ currentFruitSize g' <= 4
  /\ nextFruitSize g' <= 4
  /\ runnerEnabled g' = true
  /\ stateIndex g' = stateIndex g
  /\ timers g' = timers g ++ [TimerReady]
  /\ highscore g' = highscore g
  /\ storage g' = storage g.
Proof.
  intros Hsizes g'. subst g'.
  destruct (fruitSizes g) as [|config sizes] eqn:Hcat; [contradiction|].
  pose proof (mulberry32_range (seed g)) as Hu1.
  destruct (mulberry32 (seed g)) as [a1 u1] eqn:Hrand1.
  pose proof (mulberry32_range a1) as Hu2.
  destruct (mulberry32 a1) as [a2 u2] eqn:Hrand2. cbn [snd] in Hu1, Hu2.
  destruct (restartGame_eq g config a1 u1 a2 u2) as
    (g' & Hrun & Hscore & Hmerged & Hheap & Hworld & Hball & Hcur & Hnext & _ & Hstate
     & Htimers & Hrunner & Hhigh & Hstorage & _);
    [rewrite Hcat; reflexivity|exact Hrand1|exact Hrand2|].
  rewrite <- Hcat in *. rewrite Hrun. cbn [fst snd].
  rewrite Hworld, Hheap, Hcur, Hnext.
  repeat split; try assumption; try reflexivity.
  - intros j Hj. apply in_app_or in Hj as [Hj|[<-|[]]].
    + apply filter_In in Hj as [_ Hj]. unfold isStaticAt in *.
      destruct (heap g !! j) as [body|] eqn:Hbody; [|discriminate].
      rewrite (lookup_app_l_Some _ _ _ _ Hbody). exact Hj.
    + unfold isStaticAt. rewrite lookup_app_r by lia. rewrite Nat.sub_diag. reflexivity.
  - intros j Hj Hstatic. apply in_or_app. left. apply filter_In. split; assumption.
  - apply in_or_app. right. left. reflexivity.
  - rewrite lookup_app_r by lia. rewrite Nat.sub_diag. reflexivity.
  - apply floor_times5_range, Hu1.
  - apply floor_times5_range, Hu2.
Qed.

Lemma delete_last_timer (l : list Timer) (t : Timer) : delete (length l) (l ++ [t]) = l.
Proof. induction l as [|t' l IH]; [reflexivity|]. simpl. f_equal. exact IH. Qed.

Lemma handle_Timeout_last (g : GameInterface) (t : Timer) (old : list Timer) :
  timers g = old ++ [t] ->
  handle engine (Timeout (length old)) g = fire t (set_timers old g).
Proof.
  intros Htimers. unfold handle. rewrite bind_get, Htimers.
  rewrite lookup_app_r by lia. rewrite Nat.sub_diag. cbn [lookup list_lookup].
  rewrite bind_modify, delete_last_timer. reflexivity.
Qed.

Lemma addFruit_not_ready (g : GameInterface) (posX : float) :
  stateIndex g <> READY -> addFruit engine posX g = (g, Some tt).
Proof.
  intros Hstate. unfold addFruit. rewrite bind_get.
  destruct (stateIndex g); try reflexivity. contradiction.
Qed.

(** X13: After a lost game: the restart button leaves the state LOSE, so that
    drops are still ignored, until the timer it has queued fires; that timer
    sets the state to READY, with the score at 0, the runner enabled and the
    world as the restart left it. *)
Theorem restart_after_lose (g : GameInterface) (posX : float) :
  fruitSizes g <> [] ->
  stateIndex g = LOSE ->
  let g1 := exec (handle engine ClickRestart) g in
  let g2 := exec (handle engine (Timeout (length (timers g)))) g1 in
  stateIndex g1 = LOSE
  /\ exec (handle engine (MouseUp posX)) g1 = set_mouseX posX g1
  /\ stateIndex g2 = READY
  /\ score g2 = 0%Z
  /\ fruitsMerged g2 = replicate (length (fruitSizes g)) 0%Z
  /\ runnerEnabled g2 = true
  /\ timers g2 = timers g
  /\ heap g2 = heap g1
  /\ world g2 = world g1.
Proof.
  intros Hsizes Hlose g1 g2. subst g1 g2. unfold exec.
  destruct (fruitSizes g) as [|config sizes] eqn:Hcat; [contradiction|].
  destruct (mulberry32 (seed g)) as [a1 u1] eqn:Hrand1.
  destruct (mulberry32 a1) as [a2 u2] eqn:Hrand2.
  destruct (restartGame_eq g config a1 u1 a2 u2) as
    (g' & Hrun & Hscore & Hmerged & _ & _ & _ & _ & _ & _ & Hstate
     & Htimers & Hrunner & _);
    [rewrite Hcat; reflexivity|exact Hrand1|exact Hrand2|].
  rewrite <- Hcat in *.
  change (handle engine ClickRestart g) with (restartGame engine g).
  rewrite Hrun. cbn [fst].
  rewrite (handle_Timeout_last g' TimerReady (timers g) Htimers).
  split; [congruence|]. split.
  - unfold handle. rewrite bind_modify.
    rewrite addFruit_not_ready by (fields; rewrite Hstate, Hlose; discriminate).
    reflexivity.
  - unfold fire, modify. fields. repeat split; assumption || reflexivity.
Qed.

(** ** The drop cycle *)

Lemma addFruit_world (g : GameInterface) (posX : float) (config config' : FruitSize)
    (a u : Z) :
  mulberry32 (seed g) = (a, u) ->
  stateIndex g = READY ->
  fruitSizes g !! currentFruitSize g = Some config ->
  fruitSizes g !! nextFruitSize g = Some config' ->
  length (fruitsMerged g) <= length (fruitSizes g) ->
  exists g' : GameInterface,
    addFruit engine posX g = (g', Some tt)
    /\ world g'
       = match previewBall g with
         | Some ball =>
             List.filter (fun i => negb (memb i [ball])) (world g ++ [length (heap g)])
         | None => world g ++ [length (heap g)]
         end
    /\ fruitsMerged g' = fruitsMerged g
    /\ score g' = consumedTierScore (fruitSizes g) (fruitsMerged g)
    /\ mouseX g' = mouseX g
    /\ highscore g' = highscore g
    /\ storage g' = storage g
    /\ runnerEnabled g' = runnerEnabled g.
Proof.
  intros Hrand Hstate Hconfig Hconfig' Hlen.
  destruct (lookup_insert_radius (fruitSizes g) (currentFruitSize g) (nextFruitSize g)
              config config' (Some (computedRadius config)) Hconfig Hconfig')
    as (config'' & Hconfig'' & Hradius).
  assert (Hball : forall g1 : GameInterface,
            exists g2 : GameInterface,
              match previewBall g1 with
              | Some ball => Composite_remove [ball]
              | None => ret tt
              end g1 = (g2, Some tt)
              /\ g2 = set_world
                        match previewBall g1 with
                        | Some ball =>
                            List.filter (fun i => negb (memb i [ball])) (world g1)
                        | None => world g1
                        end g1).
  { intros g1. destruct (previewBall g1); eexists; (split; [reflexivity|]).
    - reflexivity.
    - destruct g1; reflexivity. }
  unfold addFruit. rewrite bind_get, Hstate. cbn [GameStates_eqb negb].
  rewrite bind_modify.
  erewrite bind_returns by (apply generateFruitBody_eq; fields; exact Hconfig).
  erewrite bind_returns by apply Composite_add_eq.
  rewrite bind_get, bind_modify. fields.
  erewrite bind_returns by apply setNextFruitSize_eq.
  fields. rewrite Hrand. fields.
  erewrite bind_returns
    by (apply calculateScore_eq; fields; rewrite length_insert; exact Hlen).
  rewrite bind_get. fields.
  match goal with
  | |- context [bind (match previewBall g with _ => _ end) _ ?g1] =>
      destruct (Hball g1) as (g2 & Hrun & Hg2)
  end.
  fields. erewrite bind_returns by exact Hrun. subst g2.
  rewrite bind_get. fields.
  erewrite bind_returns by (apply generateFruitBody_eq; fields; exact Hconfig'').
  rewrite bind_modify, setTimeout_eq.
  eexists. split; [reflexivity|]. fields.
  rewrite !consumedTierScore_values, (scoreValue_insert_radius _ _ _ _ Hconfig).
  repeat split; reflexivity.
Qed.

(** X14: A drop and its cooldown: a mouse release in the READY state puts the
    game in DROP, creates a fruit of the current size at the pointer and
    adds it to the world, takes the old preview body out of the world, and
    makes the next size the current one; when the cooldown timer fires, the
    new preview body, of that size, enters the world and the state is READY
    again.  Neither the counts nor the score change. *)
Theorem drop_cycle (g : GameInterface) (posX : float) (ball : nat) :
  wf g ->
  stateIndex g = READY ->
  previewBall g = Some ball ->
  ball < length (heap g) ->
  let fruitId := length (heap g) in
  let g1 := exec (handle engine (MouseUp posX)) g in
  let g2 := exec (handle engine (Timeout (length (timers g)))) g1 in
  stateIndex g1 = DROP
  /\ (exists config : FruitSize,
        fruitSizes g !! currentFruitSize g = Some config
        /\ heap g1 !! fruitId
           = Some (successorBody engine config {| x := posX; y := previewBallHeight |}
                     (currentFruitSize g)))
  /\ world g1 = List.filter (fun i => negb (memb i [ball])) (world g) ++ [fruitId]
  /\ currentFruitSize g1 = nextFruitSize g
  /\ previewBall g1 = Some (S fruitId)
  /\ isStaticAt (heap g1) (S fruitId) = true
  /\ (sizeIndex <$> heap g1 !! S fruitId) = Some (Some (nextFruitSize g))
  /\ stateIndex g2 = READY
  /\ world g2 = world g1 ++ [S fruitId]
  /\ heap g2 = heap g1
  /\ timers g2 = timers g
  /\ fruitsMerged g2 = fruitsMerged g
  /\ score g2 = consumedTierScore (fruitSizes g) (fruitsMerged g).
Proof.
  intros Hwf Hstate Hball Hlt fruitId g1 g2. subst fruitId g1 g2. unfold exec.
  pose proof (sameTiers_length _ _ (wf_catalog g Hwf)) as Hlen.
  pose proof (wf_current g Hwf) as Hcur. pose proof (wf_next g Hwf) as Hnext.
  pose proof (wf_counts g Hwf) as Hcounts.
  change (length fruitSizes0) with 11 in *.
  destruct (lookup_lt_is_Some_2 (fruitSizes g) (currentFruitSize g)) as [config Hconfig];
    [lia|].
  destruct (lookup_lt_is_Some_2 (fruitSizes g) (nextFruitSize g)) as [config' Hconfig'];
    [lia|].
  destruct (mulberry32 (seed g)) as [a u] eqn:Hrand.
  assert (Hlen' : length (fruitsMerged g) <= length (fruitSizes g)) by lia.
  destruct (addFruit_drops engine (set_mouseX posX g) posX config config' a u
              Hrand Hstate Hconfig Hconfig' Hlen')
    as (g1 & Hrun & Hheap & Hstate1 & Hcur1 & _ & Hball1 & Htimers1).
  destruct (addFruit_world (set_mouseX posX g) posX config config' a u
              Hrand Hstate Hconfig Hconfig' Hlen')
    as (g1' & Hrun' & Hworld & Hmerged & Hscore & _).
  rewrite Hrun in Hrun'. injection Hrun' as <-. fields. rewrite Hball in Hworld.
  assert (Hfirst : handle engine (MouseUp posX) g = (g1, Some tt)).
  { unfold handle. rewrite bind_modify. exact Hrun. }
  rewrite Hfirst. cbn [fst].
  rewrite (handle_Timeout_last g1 TimerDrop (timers g) Htimers1).
  assert (Hworld1 : world g1
            = List.filter (fun i => negb (memb i [ball])) (world g) ++ [length (heap g)]).
  { rewrite Hworld, List.filter_app. simpl.
    replace (length (heap g) =? ball) with false by (symmetry; apply Nat.eqb_neq; lia).
    reflexivity. }
  split; [exact Hstate1|]. split.
  { exists config. split; [exact Hconfig|]. rewrite Hheap.
    rewrite lookup_app_r by lia. rewrite Nat.sub_diag. reflexivity. }
  split; [exact Hworld1|]. split; [exact Hcur1|]. split; [exact Hball1|].
  split.
  { unfold isStaticAt. rewrite Hheap, lookup_app_r by lia.
    replace (S (length (heap g)) - length (heap g)) with 1 by lia. reflexivity. }
  split.
  { rewrite Hheap, lookup_app_r by lia.
    replace (S (length (heap g)) - length (heap g)) with 1 by lia. reflexivity. }
  unfold fire. rewrite bind_get. fields. rewrite Hstate1, Hball1.
  rewrite (bind_returns _ _ _ _ _ (Composite_add_eq _ _)). unfold modify. fields.
  repeat split; assumption || reflexivity.
Qed.

(** X15: A second mouse release before the cooldown has fired is ignored: it
    only records the pointer position, so that a rapid double release drops
    one fruit. *)
Theorem second_drop_ignored (g : GameInterface) (posX posX' : float) :
  wf g ->
  stateIndex g = READY ->
  let g1 := exec (handle engine (MouseUp posX)) g in
  stateIndex g1 = DROP
  /\ length (heap g1) = length (heap g) + 2
  /\ exec (handle engine (MouseUp posX')) g1 = set_mouseX posX' g1.
Proof.
  intros Hwf Hstate g1. subst g1. unfold exec.
  pose proof (sameTiers_length _ _ (wf_catalog g Hwf)) as Hlen.
  pose proof (wf_current g Hwf) as Hcur. pose proof (wf_next g Hwf) as Hnext.
  pose proof (wf_counts g Hwf) as Hcounts.
  change (length fruitSizes0) with 11 in *.
  destruct (lookup_lt_is_Some_2 (fruitSizes g) (currentFruitSize g)) as [config Hconfig];
    [lia|].
  destruct (lookup_lt_is_Some_2 (fruitSizes g) (nextFruitSize g)) as [config' Hconfig'];
    [lia|].
  destruct (mulberry32 (seed g)) as [a u] eqn:Hrand.
  assert (Hlen' : length (fruitsMerged g) <= length (fruitSizes g)) by lia.
  destruct (addFruit_drops engine (set_mouseX posX g) posX config config' a u
              Hrand Hstate Hconfig Hconfig' Hlen')
    as (g1 & Hrun & Hheap & Hstate1 & _).
  assert (Hfirst : handle engine (MouseUp posX) g = (g1, Some tt)).
  { unfold handle. rewrite bind_modify. exact Hrun. }
  rewrite Hfirst. cbn [fst]. split; [exact Hstate1|]. split.
  - rewrite Hheap, length_app. fields. reflexivity.
  - unfold handle. rewrite bind_modify.
    rewrite addFruit_not_ready by (fields; rewrite Hstate1; discriminate).
    reflexivity.
Qed.

(** ** Across a session *)

Lemma scoreValue_sameTiers (sizes sizes' : list FruitSize) :
  sameTiers sizes sizes' -> map scoreValue sizes = map scoreValue sizes'.
Proof.
  unfold sameTiers. intros H.
  assert (E : forall l, map scoreValue l = map scoreValue (map (set_radius None) l)).
  { intros l. rewrite map_map. apply map_ext. intros s. reflexivity. }
  rewrite (E sizes), (E sizes'), H. reflexivity.
Qed.

(** X16: In every state of a session the catalog has its 11 tiers with the
    score values it started with, there is one merge count per tier, and the
    tier of every fruit body ever created has a catalog entry and a merge
    count: [calculateScore] never throws, the increment of a merge count
    never writes past the end of [fruitsMerged], and the storage key holds
    the cached high score whenever it is written. *)
Theorem session_stays_in_range (g : GameInterface) :
  reachable engine g ->
  snd (calculateScore g) = Some tt
  /\ map scoreValue (fruitSizes g) = [2; 5; 9; 13; 18; 25; 34; 41; 49; 58; 65]%Z
  /\ length (fruitsMerged g) = length (fruitSizes g)
  /\ (forall (i : nat) (body : FruitBody) (k : nat),
        heap g !! i = Some body -> sizeIndex body = Some k ->
        is_Some (fruitSizes g !! k) /\ is_Some (fruitsMerged g !! k))
  /\ (forall h : Z, storage g = Some h -> h = highscore g).
Proof.
  intros Hreach. pose proof (reachable_wf engine g Hreach) as Hwf.
  pose proof (sameTiers_length _ _ (wf_catalog g Hwf)) as Hlen.
  pose proof (wf_counts g Hwf) as Hcounts.
  split.
  { rewrite calculateScore_eq by lia. reflexivity. }
  split.
  { rewrite (scoreValue_sameTiers _ _ (wf_catalog g Hwf)). reflexivity. }
  split; [congruence|]. split; [|exact (wf_synced g Hwf)].
  intros i body k Hi Hk. pose proof (wf_bodies g Hwf i body k Hi Hk) as Hlt.
  split; apply lookup_lt_is_Some_2; lia.
Qed.

Lemma keeps_onHeap_collisionStart (P : list FruitBody -> Prop) (pairs : list (nat * nat)) :
  (forall (l : list FruitBody) (body : FruitBody), P l -> P (l ++ [body])) ->
  (forall (l : list FruitBody) (j : nat), P l -> P (alter (set_popped true) j l)) ->
  keeps (onHeap P) anything (collisionStart engine pairs).
Proof.
  intros Happ Halter. induction pairs as [|p pairs IH]; cbn [collisionStart].
  - keeps_step. exact Logic.I.
  - keeps_step; [apply (keeps_onHeap_collisionPair engine P p Happ Halter)|].
    destruct a; [exact IH|]. keeps_step. exact Logic.I.
Qed.

(** A property of the heap that appending a body, marking a body as popped
    and moving a body preserve is kept by every event of a session. *)
Lemma keeps_onHeap_handle (P : list FruitBody -> Prop) (e : Event) :
  (forall (l : list FruitBody) (body : FruitBody), P l -> P (l ++ [body])) ->
  (forall (l : list FruitBody) (j : nat) (f : FruitBody -> FruitBody),
     (forall body : FruitBody, popped body = true -> popped (f body) = true) ->
     P l -> P (alter f j l)) ->
  keeps (onHeap P) anything (handle engine e).
Proof.
  intros Happ Halter.
  destruct e as [body pos|pairs|posX|posX|n|].
  2: { apply keeps_onHeap_collisionStart; [exact Happ|].
       intros l j. apply Halter. reflexivity. }
  all: unfold handle, mousemove, addFruit, restartGame, fire, setNextFruitSize,
         calculateScore, generateFruitBody, newBody, rand, setTimeout,
         Composite_remove, Composite_add.
  all: repeat keeps_step;
         try exact Logic.I;
         try (intros g0 Hg0; unfold onHeap in *; simpl; auto).
  all: try (apply Halter; [intros body0 Hb; exact Hb|assumption]).
Qed.

Lemma run_poppedAt (i : nat) (events : list Event) :
  forall g : GameInterface,
    poppedAt i (heap g) -> poppedAt i (heap (run engine events g)).
Proof.
  unfold run. induction events as [|e events IH]; intros g Hi; [exact Hi|].
  simpl. apply IH. unfold exec.
  apply (keeps_onHeap_handle (poppedAt i) e (poppedAt_app i)).
  - intros l j f Hf (body & Hbody & Hp). destruct (decide (j = i)) as [->|Hne].
    + exists (f body). split; [|exact (Hf body Hp)].
      rewrite list_lookup_alter_eq, Hbody. reflexivity.
    + exists body. split; [|exact Hp]. rewrite list_lookup_alter_ne; assumption.
  - exact Hi.
Qed.

(** X17: Popped for good: once a body is marked popped it stays so through
    every later event of the session -- collisions, drops, timers, mouse
    moves, restarts -- and no later batch selects it as a merge input
    again. *)
Theorem popped_for_good (g : GameInterface) (i : nat) (events : list Event)
    (pairs : list (nat * nat)) :
  poppedAt i (heap g) ->
  poppedAt i (heap (run engine events g))
  /\ List.filter (involves i) (merges engine pairs (run engine events g)) = [].
Proof.
  intros Hi. pose proof (run_poppedAt i events g Hi) as Hlater.
  split; [exact Hlater|]. exact (merges_none_popped engine i pairs _ Hlater).
Qed.

End MoreSessions.

(** * Invariants of a session *)

Section Invariants.

Variable engine : float -> option float.

(** ** The start of a session *)

(** X18: Whatever was stored, whatever the clock and the pointer: when the game
    has been started the state is still MENU and a drop is ignored; the world
    holds the two walls, the floor and a static preview body of tier 0; all 11
    merge counts and the score are 0; the high score is the stored one, or 0,
    which is then stored; and the current and the next fruit size are both 0,
    since only a drop or a restart draws a size.  When the timer fires the
    state is READY. *)
Theorem session_start (stored : option Z) (now : Z) (mouse posX : float) :
  let g := started engine stored now mouse in
  stateIndex g = MENU
  /\ exec (handle engine (MouseUp posX)) g = set_mouseX posX g
  /\ world g = [0; 1; 2; 3]
  /\ (forall j : nat, In j (world g) -> isStaticAt (heap g) j = true)
  /\ previewBall g = Some 3
  /\ (sizeIndex <$> heap g !! 3) = Some (Some 0)
  /\ fruitsMerged g = replicate 11 0%Z
  /\ score g = 0%Z
  /\ highscore g = default 0%Z stored
  /\ storage g = Some (default 0%Z stored)
  /\ currentFruitSize g = 0 /\ nextFruitSize g = 0
  /\ timers g = [TimerReady]
  /\ stateIndex (exec (handle engine (Timeout 0)) g) = READY.
Proof.
  intros g. subst g.
  destruct stored as [h|]; vm_compute; repeat split; try reflexivity;
    intros j [<-|[<-|[<-|[<-|[]]]]]; reflexivity.
Qed.

(** ** The first drops of a session *)

Lemma drop_when_ready (g : GameInterface) (posX : float) :
  wf g ->
  stateIndex g = READY ->
  exists (g1 : GameInterface) (config : FruitSize) (preview : FruitBody),
    handle engine (MouseUp posX) g = (g1, Some tt)
    /\ heap g1
       = heap g ++ [successorBody engine config {| x := posX; y := previewBallHeight |}
                      (currentFruitSize g); preview]
    /\ stateIndex g1 = DROP
    /\ currentFruitSize g1 = nextFruitSize g
    /\ previewBall g1 = Some (S (length (heap g)))
    /\ timers g1 = timers g ++ [TimerDrop].
Proof.
  intros Hwf Hstate.
  pose proof (sameTiers_length _ _ (wf_catalog g Hwf)) as Hlen.
  pose proof (wf_current g Hwf) as Hcur. pose proof (wf_next g Hwf) as Hnext.
  pose proof (wf_counts g Hwf) as Hcounts.
  change (length fruitSizes0) with 11 in *.
  destruct (lookup_lt_is_Some_2 (fruitSizes g) (currentFruitSize g)) as [config Hconfig];
    [lia|].
  destruct (lookup_lt_is_Some_2 (fruitSizes g) (nextFruitSize g)) as [config' Hconfig'];
    [lia|].
  destruct (mulberry32 (seed g)) as [a u] eqn:Hrand.
  assert (Hlen' : length (fruitsMerged g) <= length (fruitSizes g)) by lia.
  destruct (addFruit_drops engine (set_mouseX posX g) posX config config' a u
              Hrand Hstate Hconfig Hconfig' Hlen')
    as (g1 & Hrun & Hheap & Hstate1 & Hcur1 & _ & Hball1 & Htimers1).
  exists g1, config. eexists. split.
  { unfold handle. rewrite bind_modify. exact Hrun. }
  fields. split; [exact Hheap|]. auto.
Qed.

Lemma cooldown_ends (g : GameInterface) (ball : nat) (old : list Timer) :
  stateIndex g = DROP ->
  previewBall g = Some ball ->
  timers g = old ++ [TimerDrop] ->
  let g' := exec (handle engine (Timeout (length old))) g in
  stateIndex g' = READY /\ heap g' = heap g
  /\ currentFruitSize g' = currentFruitSize g /\ timers g' = old.
Proof.
  intros Hstate Hball Htimers g'. subst g'. unfold exec.
  rewrite (handle_Timeout_last engine g TimerDrop old Htimers).
  cbn [fire]. rewrite bind_get. fields. rewrite Hstate, Hball.
  rewrite (bind_returns _ _ _ _ _ (Composite_add_eq _ _)). unfold modify. fields.
  repeat split; reflexivity.
Qed.

(** X19: The first two fruits of a fresh session are of the smallest tier,
    whatever the clock that seeds the generator: the game starts with the
    current and the next size at 0 and only a drop draws a size.  After the
    timer of [startGame], a drop, its cooldown and a second drop, bodies 4 and
    6 are the two dropped fruits, dynamic, of tier 0, at the pointer positions
    of the two releases. *)
Theorem first_drops_are_smallest (stored : option Z) (now : Z) (mouse x1 x2 : float) :
  let g := run engine [Timeout 0; MouseUp x1; Timeout 0; MouseUp x2]
             (started engine stored now mouse) in
  length (heap g) = 8
  /\ (exists body : FruitBody,
        heap g !! 4 = Some body /\ isStatic body = false /\ sizeIndex body = Some 0
        /\ position body = {| x := x1; y := previewBallHeight |})
  /\ (exists body : FruitBody,
        heap g !! 6 = Some body /\ isStatic body = false /\ sizeIndex body = Some 0
        /\ position body = {| x := x2; y := previewBallHeight |}).
Proof.
  intros g. subst g. unfold run. cbn [foldl].
  set (g0 := exec (handle engine (Timeout 0)) (started engine stored now mouse)).
  assert (Hwf0 : wf g0)
    by exact (proj1 (keeps_wf_handle engine (Timeout 0) _
                       (wf_started engine stored now mouse))).
  assert (H0 : stateIndex g0 = READY /\ currentFruitSize g0 = 0 /\ nextFruitSize g0 = 0
               /\ length (heap g0) = 4 /\ timers g0 = [])
    by (subst g0; destruct stored; vm_compute; repeat split; reflexivity).
  destruct H0 as (Hstate0 & Hcur0 & Hnext0 & Hheap0 & Htimers0).
  clearbody g0.
  destruct (drop_when_ready g0 x1 Hwf0 Hstate0)
    as (g1 & config1 & preview1 & Hrun1 & Hheap1 & Hstate1 & Hcur1 & Hball1 & Htimers1).
  pose proof (proj1 (keeps_wf_handle engine (MouseUp x1) g0 Hwf0)) as Hwf1.
  unfold exec. rewrite Hrun1 in *. cbn [fst] in *.
  rewrite Htimers0 in Htimers1. cbn [app] in Htimers1.
  destruct (cooldown_ends g1 _ [] Hstate1 Hball1 Htimers1)
    as (Hstate2 & Hheap2 & Hcur2 & _).
  pose proof (proj1 (keeps_wf_handle engine (Timeout 0) g1 Hwf1)) as Hwf2.
  unfold exec in *. cbn [length] in *.
  destruct (handle engine (Timeout 0) g1) as [g2 r2]. cbn [fst] in *.
  destruct (drop_when_ready g2 x2 Hwf2 Hstate2)
    as (g3 & config3 & preview3 & Hrun3 & Hheap3 & _).
  rewrite Hrun3. cbn [fst].
  rewrite Hheap3, Hheap2, Hheap1, Hcur2, Hcur1, Hnext0, Hcur0.
  assert (Hlen : exists b0 b1 b2 b3 : FruitBody, heap g0 = [b0; b1; b2; b3]).
  { destruct (heap g0) as [|b0 [|b1 [|b2 [|b3 [|b4 l]]]]]; try discriminate. eauto. }
  destruct Hlen as (b0 & b1 & b2 & b3 & ->).
  split; [reflexivity|]. split; eexists; (split; [reflexivity|]); repeat split.
Qed.

(** ** The world holds no popped body *)

Lemma collisionPair_selected_state (g : GameInterface) (a b : nat) :
  selects g (a, b) = true ->
  exists (i : nat) (bodyA bodyB : FruitBody),
    heap g !! a = Some bodyA /\ heap g !! b = Some bodyB
    /\ isStatic bodyA = false /\ isStatic bodyB = false
    /\ sizeIndex bodyA = Some i
    /\ exists (created : list FruitBody) (added : list nat),
         let g' := fst (collisionPair engine (a, b) g) in
         heap g' = alter (set_popped true) b (alter (set_popped true) a (heap g)) ++ created
         /\ Forall fresh created
         /\ world g' = List.filter (fun j => negb (memb j [a; b])) (world g) ++ added
         /\ (forall j : nat, In j added ->
               length (heap g) <= j < length (heap g) + length created)
         /\ fruitsMerged g' = alter (fun count => (count + 1)%Z) i (fruitsMerged g)
         /\ previewBall g' = previewBall g.
Proof.
  unfold selects, tooHigh, lowEdge. cbn [fst snd]. intros Hsel.
  destruct (heap g !! a) as [bodyA|] eqn:Ha; [|discriminate].
  destruct (heap g !! b) as [bodyB|] eqn:Hb; [|discriminate].
  destruct (isStatic bodyA || isStatic bodyB) eqn:Hstatic; [discriminate|].
  destruct ((y (position bodyA) + JS.orZero (circleRadius bodyA) <? loseHeight)%float
            || (y (position bodyB) + JS.orZero (circleRadius bodyB) <? loseHeight)%float)
    eqn:Hhigh; [discriminate|].
  destruct (sizeIndex bodyA) as [sizeA|] eqn:HtA; [|discriminate].
  destruct (sizeIndex bodyB) as [sizeB|] eqn:HtB; [|discriminate].
  destruct (sizeA =? sizeB) eqn:Hsame; [|discriminate].
  destruct (popped bodyA || popped bodyB) eqn:Hpopped; [discriminate|].
  cbn [negb andb] in Hsel. apply bool_decide_eq_true in Hsel.
  destruct (lookup_lt_is_Some_2 (fruitSizes g) (length (fruitSizes g) - 1))
    as [top Htop].
  { destruct (fruitSizes g); [contradiction|simpl; lia]. }
  apply orb_false_iff in Hstatic as [HsA HsB].
  exists sizeA, bodyA, bodyB. do 5 (split; [reflexivity || assumption|]).
  unfold collisionPair, deref, bind, get, modify, ret, throw. simpl.
  rewrite Ha, Hb. simpl. rewrite HsA, HsB, Hhigh, HtA, HtB, Hsame, Hpopped. simpl.
  unfold maxRadiusOf. rewrite Htop. simpl.
  match goal with
  | |- context [generateFruitBody engine ?px ?py ?newSize false ?g3] =>
      destruct (fruitSizes g !! newSize) as [config|] eqn:Hconfig;
      [ rewrite (generateFruitBody_eq engine px py newSize false g3 config Hconfig)
      | rewrite (generateFruitBody_throws engine px py newSize false g3
                   (proj1 (lookup_ge_None _ _) Hconfig)) ]
  end.
  - simpl. unfold calculateScore, bind, get, modify, throw. simpl.
    rewrite !length_alter.
    match goal with
    | |- context [reduceScore ?sizes ?counts 0 0] =>
        destruct (reduceScore sizes counts 0 0)
    end; simpl; rewrite <- ?app_assoc; simpl;
      rewrite length_app, !length_alter; cbn [length]; rewrite (Nat.add_1_r (length (heap g)));
      (eexists; exists [length (heap g); S (length (heap g))];
       split; [reflexivity|]; split;
       [ apply Forall_cons; split;
         [ split; [reflexivity|intros _; eexists; reflexivity]
         | apply Forall_cons; split; [split; [reflexivity|discriminate]|constructor] ]
       | split; [reflexivity|]; split; [|split; reflexivity];
         intros j [<-|[<-|[]]]; simpl; lia ]).
  - simpl. exists [], []. rewrite !app_nil_r.
    split; [reflexivity|]. split; [constructor|]. split; [reflexivity|].
    split; [intros j []|]. split; reflexivity.
Qed.

Lemma sumZ_alter_incr (counts : list Z) :
  forall i : nat,
    i < length counts ->
    sumZ (alter (fun count => (count + 1)%Z) i counts) = (sumZ counts + 1)%Z.
Proof.
  unfold sumZ. induction counts as [|c counts IH]; intros i Hi; simpl in Hi; [lia|].
  destruct i as [|i].
  - simpl. lia.
  - change (alter (fun count => (count + 1)%Z) (S i) (c :: counts))
      with (c :: alter (fun count => (count + 1)%Z) i counts).
    cbn [foldr]. rewrite IH by lia. lia.
Qed.

Lemma collisionPair_counts (g : GameInterface) (p : nat * nat) :
  wf g ->
  sumZ (fruitsMerged (fst (collisionPair engine p g)))
  = (sumZ (fruitsMerged g) + (if selects g p then 1 else 0))%Z.
Proof.
  intros Hwf. destruct (selects g p) eqn:Hsel.
  - destruct p as [a b].
    destruct (collisionPair_selected_state g a b Hsel)
      as (i & bodyA & bodyB & Ha & _ & _ & _ & HtA & created & added & _ & _ & _ & _
          & Hmerged & _).
    rewrite Hmerged. apply sumZ_alter_incr.
    rewrite (wf_counts g Hwf). exact (wf_bodies g Hwf a bodyA i Ha HtA).
  - destruct (collisionPair_not_selected engine g p Hsel) as (_ & _ & ->). lia.
Qed.

(** X20: The merge counters count the merges: over a whole batch, in a
    well-formed state, the sum of the merge counts grows by exactly the
    number of pairs the handler selects, also when the batch ends early
    because the game is lost or the handler throws. *)
Theorem batch_counts_merges (pairs : list (nat * nat)) (g : GameInterface) :
  wf g ->
  sumZ (fruitsMerged (fst (collisionStart engine pairs g)))
  = (sumZ (fruitsMerged g) + Z.of_nat (length (merges engine pairs g)))%Z.
Proof.
  revert g. induction pairs as [|p pairs IH]; intros g Hwf.
  - simpl. lia.
  - pose proof (collisionPair_counts g p Hwf) as Hcount.
    pose proof (proj1 (keeps_wf_collisionPair engine p g Hwf)) as Hwf'.
    cbn [collisionStart merges]. rewrite length_app.
    destruct (collisionPair engine p g) as [g1 [[|]|]] eqn:Hpair; cbn [fst] in *.
    + rewrite (bind_returns _ _ _ _ _ Hpair). rewrite (IH g1 Hwf'), Hcount.
      destruct (selects g p); simpl length; lia.
    + rewrite (bind_returns _ _ _ _ _ Hpair). cbn [ret fst]. rewrite Hcount.
      destruct (selects g p); simpl length; lia.
    + rewrite (bind_throws _ _ _ _ Hpair). cbn [fst]. rewrite Hcount.
      destruct (selects g p); simpl length; lia.
Qed.

Lemma loseGame_previewBall (g : GameInterface) :
  previewBall (fst (loseGame g)) = previewBall g.
Proof.
  unfold loseGame, originalLoseGame, bind, modify.
  pose proof (saveHighscore_cases (set_stateIndex LOSE g)) as H. simpl in *.
  destruct (reduceScore (fruitSizes g) (fruitsMerged g) 0 0) as [s|].
  - destruct (s <? highscore g)%Z; rewrite H; reflexivity.
  - rewrite H. reflexivity.
Qed.

Lemma collisionPair_not_selected_preview (g : GameInterface) (p : nat * nat) :
  selects g p = false ->
  previewBall (fst (collisionPair engine p g)) = previewBall g.
Proof.
  destruct p as [a b]. unfold selects, tooHigh, lowEdge. cbn [fst snd]. intros Hsel.
  unfold collisionPair.
  destruct (heap g !! a) as [bodyA|] eqn:Ha;
    [|rewrite (bind_throws _ _ _ _ (deref_throws g a Ha)); auto].
  rewrite (bind_returns _ _ _ _ _ (deref_eq g a bodyA Ha)).
  destruct (heap g !! b) as [bodyB|] eqn:Hb;
    [|rewrite (bind_throws _ _ _ _ (deref_throws g b Hb)); auto].
  rewrite (bind_returns _ _ _ _ _ (deref_eq g b bodyB Hb)).
  destruct (isStatic bodyA || isStatic bodyB); [auto|].
  destruct ((y (position bodyA) + JS.orZero (circleRadius bodyA) <? loseHeight)%float
            || (y (position bodyB) + JS.orZero (circleRadius bodyB) <? loseHeight)%float).
  { pose proof (loseGame_previewBall g) as Hball.
    destruct (loseGame g) as [g' [[]|]] eqn:Hlose; cbn [fst] in *.
    - rewrite (bind_returns _ _ _ _ _ Hlose). exact Hball.
    - rewrite (bind_throws _ _ _ _ Hlose). exact Hball. }
  destruct (sizeIndex bodyA) as [sizeA|]; [|auto].
  destruct (sizeIndex bodyB) as [sizeB|]; [|auto].
  destruct (sizeA =? sizeB); [|auto]. cbn [negb].
  destruct (popped bodyA || popped bodyB); [auto|].
  cbn [negb andb] in Hsel. apply bool_decide_eq_false in Hsel.
  rewrite bind_get. unfold maxRadiusOf.
  destruct (fruitSizes g) as [|size sizes]; [auto|]. exfalso. apply Hsel. discriminate.
Qed.

(** [tidy] speaks of the heap, the world and the preview body only. *)
Lemma tidy_same (g g' : GameInterface) :
  heap g' = heap g -> world g' = world g -> previewBall g' = previewBall g ->
  tidy g -> tidy g'.
Proof.
  intros Hheap Hworld Hball [Hw Hp Hs Hd].
  constructor; rewrite ?Hheap, ?Hworld, ?Hball; assumption.
Qed.

(** Moving a body. *)
Lemma tidy_alter (g g' : GameInterface) (f : FruitBody -> FruitBody) (i : nat) :
  (forall body : FruitBody,
     popped (f body) = popped body /\ isStatic (f body) = isStatic body
     /\ sizeIndex (f body) = sizeIndex body) ->
  heap g' = alter f i (heap g) -> world g' = world g -> previewBall g' = previewBall g ->
  tidy g -> tidy g'.
Proof.
  intros Hf Hheap Hworld Hball [Hw Hp Hs Hd].
  assert (Hlook : forall (j : nat) (body' : FruitBody),
            alter f i (heap g) !! j = Some body' ->
            exists body : FruitBody,
              heap g !! j = Some body /\ popped body' = popped body
              /\ isStatic body' = isStatic body /\ sizeIndex body' = sizeIndex body).
  { intros j body' Hj. destruct (decide (i = j)) as [->|Hne].
    - rewrite list_lookup_alter_eq in Hj.
      destruct (heap g !! j) as [body|]; [|discriminate]. injection Hj as <-.
      exists body. destruct (Hf body) as (? & ? & ?). auto.
    - rewrite list_lookup_alter_ne in Hj by exact Hne. exists body'. auto. }
  constructor; rewrite ?Hheap, ?Hworld, ?Hball.
  - intros j Hj. destruct (Hw j Hj) as (body & Hbody & Hpop).
    destruct (decide (i = j)) as [->|Hne].
    + exists (f body). rewrite list_lookup_alter_eq, Hbody. split; [reflexivity|].
      rewrite (proj1 (Hf body)). exact Hpop.
    + exists body. rewrite list_lookup_alter_ne by exact Hne. auto.
  - intros ball Hb. specialize (Hp ball Hb). unfold isStaticAt in *.
    destruct (heap g !! ball) as [body|] eqn:Hbody; [|discriminate].
    destruct (decide (i = ball)) as [->|Hne].
    + rewrite list_lookup_alter_eq, Hbody. cbn. rewrite (proj1 (proj2 (Hf body))). exact Hp.
    + rewrite list_lookup_alter_ne, Hbody by exact Hne. exact Hp.
  - intros j body' Hj Hstatic. destruct (Hlook j body' Hj) as (body & Hbody & -> & E & _).
    rewrite E in Hstatic. exact (Hs j body Hbody Hstatic).
  - intros j body' Hj Hstatic. destruct (Hlook j body' Hj) as (body & Hbody & _ & E & ->).
    rewrite E in Hstatic. exact (Hd j body Hbody Hstatic).
Qed.

(** Creating bodies, and adding to the world bodies that were in it, static
    bodies, or new ones. *)
Lemma tidy_grow (g g' : GameInterface) (created : list FruitBody) :
  heap g' = heap g ++ created ->
  Forall fresh created ->
  (forall j : nat, In j (world g') ->
     In j (world g) \/ isStaticAt (heap g) j = true
     \/ length (heap g) <= j < length (heap g) + length created) ->
  (forall ball : nat, previewBall g' = Some ball ->
     previewBall g = Some ball
     \/ exists body : FruitBody,
          created !! (ball - length (heap g)) = Some body
          /\ length (heap g) <= ball /\ isStatic body = true) ->
  tidy g -> tidy g'.
Proof.
  intros Hheap Hfresh Hworld Hball [Hw Hp Hs Hd].
  assert (Hnew : forall (j : nat) (body : FruitBody),
            (heap g ++ created) !! j = Some body ->
            heap g !! j = Some body \/ fresh body).
  { intros j body Hj. apply lookup_app_Some in Hj as [Hj|[_ Hj]]; [left; exact Hj|].
    right. rewrite Forall_forall in Hfresh. apply Hfresh.
    eapply list_elem_of_lookup_2. exact Hj. }
  constructor; rewrite ?Hheap.
  - intros j Hj. destruct (Hworld j Hj) as [Hold|[Hstatic|Hrange]].
    + destruct (Hw j Hold) as (body & Hbody & Hpop). exists body.
      rewrite (lookup_app_l_Some _ _ _ _ Hbody). auto.
    + unfold isStaticAt in Hstatic.
      destruct (heap g !! j) as [body|] eqn:Hbody; [|discriminate].
      exists body. rewrite (lookup_app_l_Some _ _ _ _ Hbody).
      split; [reflexivity|exact (Hs j body Hbody Hstatic)].
    + destruct (lookup_lt_is_Some_2 created (j - length (heap g))) as [body Hbody]; [lia|].
      exists body. rewrite lookup_app_r by lia. split; [exact Hbody|].
      rewrite Forall_forall in Hfresh. apply Hfresh.
      eapply list_elem_of_lookup_2. exact Hbody.
  - intros ball Hb. destruct (Hball ball Hb) as [Hold|(body & Hbody & Hge & Hstatic)].
    + specialize (Hp ball Hold). unfold isStaticAt in *.
      destruct (heap g !! ball) as [body|] eqn:Hbody; [|discriminate].
      rewrite (lookup_app_l_Some _ _ _ _ Hbody). exact Hp.
    + unfold isStaticAt. rewrite lookup_app_r by lia. rewrite Hbody. exact Hstatic.
  - intros j body Hj Hstatic. destruct (Hnew j body Hj) as [Hold|[Hpop _]];
      [exact (Hs j body Hold Hstatic)|exact Hpop].
  - intros j body Hj Hstatic. destruct (Hnew j body Hj) as [Hold|[_ Htier]];
      [exact (Hd j body Hold Hstatic)|exact (Htier Hstatic)].
Qed.

(** Marking two dynamic bodies as popped and taking them out of the
    world. *)
Lemma tidy_pop (g g1 : GameInterface) (a b : nat) (bodyA bodyB : FruitBody) :
  heap g !! a = Some bodyA -> isStatic bodyA = false ->
  heap g !! b = Some bodyB -> isStatic bodyB = false ->
  heap g1 = alter (set_popped true) b (alter (set_popped true) a (heap g)) ->
  (forall j : nat, In j (world g1) -> In j (world g) /\ j <> a /\ j <> b) ->
  previewBall g1 = previewBall g ->
  tidy g -> tidy g1.
Proof.
  intros Ha HsA Hb HsB Hheap Hworld Hball [Hw Hp Hs Hd].
  assert (Hlook : forall (j : nat) (body' : FruitBody),
            heap g1 !! j = Some body' ->
            exists body : FruitBody,
              heap g !! j = Some body /\ isStatic body' = isStatic body
              /\ sizeIndex body' = sizeIndex body
              /\ (j <> a -> j <> b -> body' = body)).
  { intros j body' Hj. rewrite Hheap in Hj.
    destruct (decide (b = j)) as [->|Hnb].
    - rewrite list_lookup_alter_eq in Hj.
      destruct (decide (a = j)) as [->|Hna].
      + rewrite list_lookup_alter_eq, Ha in Hj. injection Hj as <-.
        exists bodyA. split; [exact Ha|]. repeat split; try reflexivity. congruence.
      + rewrite list_lookup_alter_ne, Hb in Hj by exact Hna. injection Hj as <-.
        exists bodyB. split; [exact Hb|]. repeat split; try reflexivity. congruence.
    - rewrite list_lookup_alter_ne in Hj by exact Hnb.
      destruct (decide (a = j)) as [->|Hna].
      + rewrite list_lookup_alter_eq, Ha in Hj. injection Hj as <-.
        exists bodyA. split; [exact Ha|]. repeat split; try reflexivity. congruence.
      + rewrite list_lookup_alter_ne in Hj by exact Hna.
        exists body'. repeat split; try reflexivity. exact Hj. }
  constructor.
  - intros j Hj. destruct (Hworld j Hj) as (Hold & Hna & Hnb).
    destruct (Hw j Hold) as (body & Hbody & Hpop). exists body.
    rewrite Hheap, !list_lookup_alter_ne by congruence. auto.
  - intros ball Hb'. rewrite Hball in Hb'. specialize (Hp ball Hb').
    unfold isStaticAt in *.
    destruct (heap g !! ball) as [body|] eqn:Hbody; [|discriminate].
    destruct (lookup_lt_is_Some_2 (heap g1) ball) as [body' Hbody'].
    { rewrite Hheap, !length_alter. eapply lookup_lt_Some. exact Hbody. }
    rewrite Hbody'. destruct (Hlook ball body' Hbody') as (body0 & Hbody0 & -> & _).
    congruence.
  - intros j body' Hj Hstatic.
    destruct (Hlook j body' Hj) as (body & Hbody & E & _ & Hsame).
    rewrite E in Hstatic.
    destruct (decide (j = a)) as [->|Hna]; [congruence|].
    destruct (decide (j = b)) as [->|Hnb]; [congruence|].
    rewrite (Hsame Hna Hnb). exact (Hs j body Hbody Hstatic).
  - intros j body' Hj Hstatic.
    destruct (Hlook j body' Hj) as (body & Hbody & E & -> & _).
    rewrite E in Hstatic. exact (Hd j body Hbody Hstatic).
Qed.

Lemma In_filter_out (j : nat) (out l : list nat) :
  In j (List.filter (fun i => negb (memb i out)) l) <-> In j l /\ ~ In j out.
Proof.
  rewrite filter_In. split; intros [Hj Hout]; (split; [exact Hj|]).
  - intros Hin. apply memb_In in Hin. rewrite Hin in Hout. discriminate.
  - destruct (memb j out) eqn:Hm; [|reflexivity]. apply memb_In in Hm. contradiction.
Qed.

Lemma tidy_collisionPair (g : GameInterface) (p : nat * nat) :
  tidy g -> tidy (fst (collisionPair engine p g)).
Proof.
  intros Htidy. destruct (selects g p) eqn:Hsel.
  - destruct p as [a b].
    destruct (collisionPair_selected_state g a b Hsel)
      as (i & bodyA & bodyB & Ha & Hb & HsA & HsB & _ & created & added & Hheap & Hfresh
          & Hworld & Hadded & _ & Hball).
    cbv zeta in *.
    set (g1 := set_world (List.filter (fun j => negb (memb j [a; b])) (world g))
                 (set_heap (alter (set_popped true) b
                              (alter (set_popped true) a (heap g))) g)).
    assert (Htidy1 : tidy g1).
    { apply (tidy_pop g g1 a b bodyA bodyB Ha HsA Hb HsB); [reflexivity| |reflexivity|exact Htidy].
      intros j Hj. apply In_filter_out in Hj as [Hj Hout]. split; [exact Hj|].
      split; intros ->; apply Hout; simpl; auto. }
    apply (tidy_grow g1 _ created); [exact Hheap|exact Hfresh| | |exact Htidy1].
    + intros j Hj. rewrite Hworld in Hj. apply in_app_or in Hj as [Hj|Hj].
      * left. exact Hj.
      * right. right. subst g1. cbn [heap set_world set_heap]. rewrite !length_alter.
        exact (Hadded j Hj).
    + intros ball Hb'. left. rewrite Hball in Hb'. exact Hb'.
  - destruct (collisionPair_not_selected engine g p Hsel) as (Hheap & Hworld & _).
    exact (tidy_same g _ Hheap Hworld (collisionPair_not_selected_preview g p Hsel) Htidy).
Qed.

Lemma tidy_collisionStart (pairs : list (nat * nat)) :
  forall g : GameInterface, tidy g -> tidy (fst (collisionStart engine pairs g)).
Proof.
  induction pairs as [|p pairs IH]; intros g Htidy; [exact Htidy|].
  pose proof (tidy_collisionPair g p Htidy) as Htidy'.
  cbn [collisionStart].
  destruct (collisionPair engine p g) as [g1 [[|]|]] eqn:Hpair; cbn [fst] in *.
  - rewrite (bind_returns _ _ _ _ _ Hpair). exact (IH g1 Htidy').
  - rewrite (bind_returns _ _ _ _ _ Hpair). exact Htidy'.
  - rewrite (bind_throws _ _ _ _ Hpair). exact Htidy'.
Qed.

Lemma tidy_fire (t : Timer) (g : GameInterface) : tidy g -> tidy (fst (fire t g)).
Proof.
  intros Htidy. destruct t as [| |circle]; cbn [fire].
  - unfold modify. cbn [fst]. refine (tidy_same g _ _ _ _ Htidy); reflexivity.
  - rewrite bind_get.
    destruct (stateIndex g); try exact Htidy.
    destruct (previewBall g) as [ball|] eqn:Hball; [|exact Htidy].
    rewrite (bind_returns _ _ _ _ _ (Composite_add_eq _ _)). unfold modify. cbn [fst].
    apply (tidy_grow g _ []); fields;
      [rewrite app_nil_r; reflexivity|constructor| |auto|exact Htidy].
    intros j Hj. apply in_app_or in Hj as [Hj|[<-|[]]]; [left; exact Hj|].
    right. left. exact (tidy_preview g Htidy ball Hball).
  - rewrite Composite_remove_eq. cbn [fst].
    apply (tidy_grow g _ []); fields;
      [rewrite app_nil_r; reflexivity|constructor| |auto|exact Htidy].
    intros j Hj. apply In_filter_out in Hj as [Hj _]. left. exact Hj.
Qed.

Lemma tidy_addFruit (posX : float) (g : GameInterface) :
  wf g -> tidy g -> tidy (fst (addFruit engine posX g)).
Proof.
  intros Hwf Htidy.
  assert (Hcases : stateIndex g = READY \/ stateIndex g <> READY)
    by (destruct (stateIndex g); (left; reflexivity) || (right; discriminate)).
  destruct Hcases as [Hstate|Hstate];
    [|rewrite (addFruit_not_ready engine g posX Hstate); exact Htidy].
  pose proof (sameTiers_length _ _ (wf_catalog g Hwf)) as Hlen.
  pose proof (wf_current g Hwf) as Hcur. pose proof (wf_next g Hwf) as Hnext.
  pose proof (wf_counts g Hwf) as Hcounts.
  change (length fruitSizes0) with 11 in *.
  destruct (lookup_lt_is_Some_2 (fruitSizes g) (currentFruitSize g)) as [config Hconfig];
    [lia|].
  destruct (lookup_lt_is_Some_2 (fruitSizes g) (nextFruitSize g)) as [config' Hconfig'];
    [lia|].
  destruct (mulberry32 (seed g)) as [a u] eqn:Hrand.
  assert (Hlen' : length (fruitsMerged g) <= length (fruitSizes g)) by lia.
  destruct (addFruit_drops engine g posX config config' a u
              Hrand Hstate Hconfig Hconfig' Hlen')
    as (g1 & Hrun & Hheap & _ & _ & _ & Hball & _).
  destruct (addFruit_world engine g posX config config' a u
              Hrand Hstate Hconfig Hconfig' Hlen')
    as (g1' & Hrun' & Hworld & _).
  rewrite Hrun in Hrun'. injection Hrun' as <-. rewrite Hrun. cbn [fst].
  apply (tidy_grow g g1 _ Hheap); [| | |exact Htidy].
  - repeat constructor; try discriminate. intros _. eexists. reflexivity.
  - intros j Hj. rewrite Hworld in Hj.
    assert (Hin : In j (world g ++ [length (heap g)])).
    { destruct (previewBall g); [apply In_filter_out in Hj as [Hj _]|]; exact Hj. }
    apply in_app_or in Hin as [Hin|[<-|[]]]; [left; exact Hin|].
    right. right. simpl. lia.
  - intros ball Hb. rewrite Hball in Hb. injection Hb as <-. right.
    eexists. replace (S (length (heap g)) - length (heap g)) with 1 by lia.
    split; [reflexivity|]. split; [lia|reflexivity].
Qed.

Lemma tidy_restartGame (g : GameInterface) :
  wf g -> tidy g -> tidy (fst (restartGame engine g)).
Proof.
  intros Hwf Htidy.
  pose proof (sameTiers_length _ _ (wf_catalog g Hwf)) as Hlen.
  change (length fruitSizes0) with 11 in *.
  destruct (lookup_lt_is_Some_2 (fruitSizes g) 0) as [config Hconfig]; [lia|].
  destruct (mulberry32 (seed g)) as [a1 u1] eqn:Hrand1.
  destruct (mulberry32 a1) as [a2 u2] eqn:Hrand2.
  destruct (restartGame_eq engine g config a1 u1 a2 u2 Hconfig Hrand1 Hrand2)
    as (g' & Hrun & _ & _ & Hheap & Hworld & Hball & _).
  rewrite Hrun. cbn [fst].
  apply (tidy_grow g g' _ Hheap); [| | |exact Htidy].
  - repeat constructor; discriminate.
  - intros j Hj. rewrite Hworld in Hj. apply in_app_or in Hj as [Hj|[<-|[]]].
    + apply filter_In in Hj as [Hj _]. left. exact Hj.
    + right. right. simpl. lia.
  - intros ball Hb. rewrite Hball in Hb. injection Hb as <-. right.
    eexists. rewrite Nat.sub_diag. split; [reflexivity|]. split; [lia|reflexivity].
Qed.

Lemma tidy_handle (e : Event) (g : GameInterface) :
  wf g -> tidy g -> tidy (exec (handle engine e) g).
Proof.
  intros Hwf Htidy. unfold exec.
  destruct e as [body pos|pairs|posX|posX|n|]; cbn [handle].
  - rewrite bind_get. unfold modify. cbn [fst].
    apply (tidy_alter g _ (set_position pos) body); try reflexivity; [|exact Htidy].
    intros body0. repeat split; reflexivity.
  - exact (tidy_collisionStart pairs g Htidy).
  - rewrite bind_modify. unfold mousemove. rewrite bind_get. fields.
    assert (Htidy' : tidy (set_mouseX posX g))
      by (refine (tidy_same g _ _ _ _ Htidy); reflexivity).
    destruct (negb (GameStates_eqb (stateIndex g) READY)); [exact Htidy'|].
    destruct (previewBall g) as [ball|]; [|exact Htidy'].
    unfold modify. cbn [fst].
    apply (tidy_alter g _ (fun body =>
             set_position {| x := posX; y := y (position body) |} body) ball);
      try reflexivity; [|exact Htidy].
    intros body0. repeat split; reflexivity.
  - rewrite bind_modify. apply tidy_addFruit.
    + destruct Hwf. constructor; assumption.
    + refine (tidy_same g _ _ _ _ Htidy); reflexivity.
  - rewrite bind_get. destruct (timers g !! n) as [t|]; [|exact Htidy].
    rewrite bind_modify. apply tidy_fire.
    refine (tidy_same g _ _ _ _ Htidy); reflexivity.
  - exact (tidy_restartGame g Hwf Htidy).
Qed.

Lemma tidy_started (stored : option Z) (now : Z) (mouse : float) :
  tidy (started engine stored now mouse).
Proof.
  assert (Hheap : forall (j : nat) (body : FruitBody),
            heap (started engine stored now mouse) !! j = Some body ->
            isStatic body = true /\ popped body = false).
  { intros j body. destruct stored; vm_compute;
      do 4 (destruct j as [|j]; [intros [= <-]; split; reflexivity|]); discriminate. }
  constructor.
  - intros j Hj.
    assert (Hlt : j < 4).
    { revert Hj. destruct stored; vm_compute; intros [<-|[<-|[<-|[<-|[]]]]]; lia. }
    destruct (lookup_lt_is_Some_2 (heap (started engine stored now mouse)) j)
      as [body Hbody].
    { destruct stored; vm_compute; lia. }
    exists body. split; [exact Hbody|]. exact (proj2 (Hheap j body Hbody)).
  - intros ball. destruct stored; vm_compute; intros [= <-]; reflexivity.
  - intros j body Hj _. exact (proj2 (Hheap j body Hj)).
  - intros j body Hj Hstatic. rewrite (proj1 (Hheap j body Hj)) in Hstatic. discriminate.
Qed.

Lemma reachable_tidy (g : GameInterface) : reachable engine g -> tidy g.
Proof.
  intros (stored & now & mouse & events & ->).
  pose proof (wf_started engine stored now mouse) as Hwf.
  pose proof (tidy_started stored now mouse) as Htidy. revert Hwf Htidy.
  generalize (started engine stored now mouse).
  unfold run. induction events as [|e events IH]; intros g0 Hwf Htidy; simpl; [exact Htidy|].
  apply IH; [apply (keeps_wf_handle engine e g0 Hwf)|exact (tidy_handle e g0 Hwf Htidy)].
Qed.

(** X21: In every state of a session: each body of the world exists and is not
    marked popped -- a merged fruit has left the world, so that the engine has
    nothing more to report about it; the preview body is static, so that it
    never merges; no static body is ever marked popped; and each dynamic body
    is a fruit whose tier has a catalog entry. *)
Theorem world_holds_live_bodies (g : GameInterface) :
  reachable engine g ->
  (forall j : nat,
     In j (world g) -> exists body : FruitBody, heap g !! j = Some body /\ popped body = false)
  /\ (forall ball : nat, previewBall g = Some ball -> isStaticAt (heap g) ball = true)
  /\ (forall (j : nat) (body : FruitBody),
        heap g !! j = Some body -> isStatic body = true -> popped body = false)
  /\ (forall (j : nat) (body : FruitBody),
        heap g !! j = Some body -> isStatic body = false ->
        exists k : nat, sizeIndex body = Some k /\ k < length (fruitSizes g)).
Proof.
  intros Hreach. pose proof (reachable_tidy g Hreach) as [Hw Hp Hs Hd].
  pose proof (reachable_wf engine g Hreach) as Hwf.
  split; [exact Hw|]. split; [exact Hp|]. split; [exact Hs|].
  intros j body Hj Hstatic. destruct (Hd j body Hj Hstatic) as [k Hk].
  exists k. split; [exact Hk|].
  rewrite (sameTiers_length _ _ (wf_catalog g Hwf)). exact (wf_bodies g Hwf j body k Hj Hk).
Qed.

(** ** What no event undoes *)

Ltac unfold_callbacks :=
  unfold handle, mousemove, addFruit, restartGame, fire, collisionPair, deref, loseGame,
    originalLoseGame, saveHighscore, setNextFruitSize, calculateScore, incrMerged,
    markPopped, addPop, generateFruitBody, newBody, rand, setTimeout, Composite_remove,
    Composite_add.

Ltac highscore_leaf :=
  try exact Logic.I;
  try (let g0 := fresh "g" in
       let H0 := fresh "H" in
       intros g0 H0; simpl in *;
       repeat match goal with
              | H : (_ <? _)%Z = false |- _ => apply Z.ltb_ge in H
              end;
       solve [assumption | lia]).

Lemma keeps_highscore_collisionStart (h : Z) (pairs : list (nat * nat)) :
  keeps (fun g => (h <= highscore g)%Z) anything (collisionStart engine pairs).
Proof.
  induction pairs as [|[a b] pairs IH]; cbn [collisionStart].
  - keeps_step. exact Logic.I.
  - keeps_step.
    + unfold_callbacks. repeat keeps_step; highscore_leaf.
    + destruct a0; [exact IH|]. keeps_step. exact Logic.I.
Qed.

Lemma keeps_highscore_handle (h : Z) (e : Event) :
  keeps (fun g => (h <= highscore g)%Z) anything (handle engine e).
Proof.
  destruct e as [body pos|pairs|posX|posX|n|].
  2: exact (keeps_highscore_collisionStart h pairs).
  all: unfold_callbacks; repeat keeps_step; highscore_leaf.
Qed.

(** X22: No event of a session lowers the cached high score: not a drop, a
    merge, a lost game, a timer or a restart. *)
Theorem highscore_never_drops (g : GameInterface) (events : list Event) :
  (highscore g <= highscore (run engine events g))%Z.
Proof.
  assert (H : forall h : Z, (h <= highscore g)%Z -> (h <= highscore (run engine events g))%Z).
  { intros h. revert g. unfold run.
    induction events as [|e events IH]; intros g Hg; [exact Hg|].
    simpl. apply IH. exact (proj1 (keeps_highscore_handle h e g Hg)). }
  apply H. lia.
Qed.

Lemma In_delete_timer (t : Timer) (n : nat) (l : list Timer) :
  In t (delete n l) -> In t l.
Proof.
  revert n. induction l as [|t' l IH]; intros [|n] H; simpl in *; auto.
  destruct H as [H|H]; [left; exact H|right; exact (IH n H)].
Qed.

Ltac lost_leaf :=
  try exact Logic.I;
  try (let g0 := fresh "g" in
       let Hs := fresh "Hs" in
       let Ht := fresh "Ht" in
       intros g0 [Hs Ht]; unfold lost in *; simpl in *;
       repeat match goal with
              | H : _ /\ _ |- _ => destruct H
              end;
       solve [ split; assumption
             | congruence
             | match goal with
               | Hl : stateIndex ?a = LOSE, Hb : context [stateIndex ?a] |- _ =>
                   rewrite Hl in Hb; discriminate
               end
             | match goal with
               | Hn : ~ In TimerReady ?l, Hl : ?l !! _ = Some TimerReady |- _ =>
                   exfalso; apply Hn, list_elem_of_In;
                   exact (list_elem_of_lookup_2 _ _ _ Hl)
               end
             | split; [assumption|];
               let Hin := fresh "Hin" in
               intros Hin; apply In_delete_timer in Hin; contradiction
             | split; [assumption|];
               let Hin := fresh "Hin" in
               intros Hin; apply in_app_or in Hin as [Hin|[Hin|[]]];
               [contradiction|discriminate]
             | split; [reflexivity|assumption] ]).

Lemma keeps_lost_collisionStart (pairs : list (nat * nat)) :
  keeps lost anything (collisionStart engine pairs).
Proof.
  induction pairs as [|[a b] pairs IH]; cbn [collisionStart].
  - keeps_step. exact Logic.I.
  - keeps_step.
    + unfold_callbacks. repeat keeps_step; lost_leaf.
    + destruct a0; [exact IH|]. keeps_step. exact Logic.I.
Qed.

Lemma keeps_lost_handle (e : Event) :
  e <> ClickRestart -> keeps lost anything (handle engine e).
Proof.
  intros He. destruct e as [body pos|pairs|posX|posX|n|]; [| | | | |contradiction].
  2: exact (keeps_lost_collisionStart pairs).
  all: unfold_callbacks; repeat keeps_step; lost_leaf.
Qed.

(** X23: A lost game stays lost until the restart button is clicked: while no
    timer that sets the state to READY is pending, no collision, mouse event
    or timer changes the state from LOSE, and no such timer gets queued. *)
Theorem lost_until_restart (g : GameInterface) (events : list Event) :
  stateIndex g = LOSE ->
  ~ In TimerReady (timers g) ->
  Forall (fun e => e <> ClickRestart) events ->
  stateIndex (run engine events g) = LOSE
  /\ ~ In TimerReady (timers (run engine events g)).
Proof.
  intros Hstate Htimers Hevents.
  assert (Hlost : lost g) by (split; assumption).
  clear Hstate Htimers. revert g Hlost. unfold run.
  induction Hevents as [|e events He _ IH]; intros g Hlost; [exact Hlost|].
  simpl. apply IH. exact (proj1 (keeps_lost_handle e He g Hlost)).
Qed.

End Invariants.
(** * Sessions on the engine as it is *)

Section Matter.

(** ** Fruits report the radius 0 *)

Ltac unfold_callbacks :=
  unfold handle, mousemove, addFruit, restartGame, fire, collisionPair, deref, loseGame,
    originalLoseGame, saveHighscore, setNextFruitSize, calculateScore, incrMerged,
    markPopped, addPop, generateFruitBody, newBody, rand, setTimeout, Composite_remove,
    Composite_add.

Lemma settled_app (l : list FruitBody) (body : FruitBody) :
  (isStatic body = false -> circleRadius body = Some 0%float) ->
  (forall (j : nat) (body0 : FruitBody),
     l !! j = Some body0 -> isStatic body0 = false -> circleRadius body0 = Some 0%float) ->
  forall (j : nat) (body0 : FruitBody),
    (l ++ [body]) !! j = Some body0 -> isStatic body0 = false ->
    circleRadius body0 = Some 0%float.
Proof.
  intros Hbody Hl j body0 Hj Hs. apply lookup_app_Some in Hj as [Hj|[_ Hj]]; [eauto|].
  apply list_lookup_singleton_Some in Hj as [_ <-]. exact (Hbody Hs).
Qed.

Lemma settled_alter (l : list FruitBody) (f : FruitBody -> FruitBody) (i : nat) :
  (forall body : FruitBody,
     isStatic (f body) = isStatic body /\ circleRadius (f body) = circleRadius body) ->
  (forall (j : nat) (body0 : FruitBody),
     l !! j = Some body0 -> isStatic body0 = false -> circleRadius body0 = Some 0%float) ->
  forall (j : nat) (body0 : FruitBody),
    alter f i l !! j = Some body0 -> isStatic body0 = false ->
    circleRadius body0 = Some 0%float.
Proof.
  intros Hf Hl j body0 Hj Hs. destruct (decide (i = j)) as [->|Hne].
  - rewrite list_lookup_alter_eq in Hj.
    destruct (l !! j) as [body|] eqn:Hbody; [|discriminate]. injection Hj as <-.
    destruct (Hf body) as [E1 E2]. rewrite E1 in Hs. rewrite E2. eauto.
  - rewrite list_lookup_alter_ne in Hj by exact Hne. eauto.
Qed.

Lemma settled_insert (sizes : list FruitSize) (index : nat) (config : FruitSize) :
  (forall (i : nat) (size : FruitSize),
     sizes !! i = Some size ->
     radius size = None \/ radius size = Some (computedRadius size)) ->
  forall (i : nat) (size : FruitSize),
    <[index := set_radius (Some (computedRadius config)) config]> sizes !! i = Some size ->
    radius size = None \/ radius size = Some (computedRadius size).
Proof.
  intros Hl i size Hi. destruct (decide (index = i)) as [->|Hne].
  - destruct (decide (i < length sizes)) as [Hlt|Hge].
    + rewrite list_lookup_insert_eq in Hi by exact Hlt. injection Hi as <-.
      right. rewrite computedRadius_set_radius. reflexivity.
    + rewrite list_insert_ge in Hi by lia. eauto.
  - rewrite list_lookup_insert_ne in Hi by exact Hne. eauto.
Qed.

Ltac settled_leaf :=
  try exact Logic.I;
  try (let g0 := fresh "g" in
       let H0 := fresh "H" in
       intros g0 H0;
       repeat match goal with H : settled _ |- _ => destruct H end;
       constructor; cbn [heap fruitSizes set_stateIndex set_score set_fruitsMerged
                         set_fruitSizes set_currentFruitSize set_nextFruitSize
                         set_highscore set_previewBall set_storage set_seed set_heap
                         set_world set_timers set_runnerEnabled set_mouseX];
       first [ assumption
             | apply settled_app; [|assumption]; cbn; solve [reflexivity | discriminate]
             | apply settled_alter; [|assumption]; intros ?; split; reflexivity
             | apply settled_insert; assumption ]).

Lemma keeps_settled_collisionStart (pairs : list (nat * nat)) :
  keeps settled anything (collisionStart matterRadius pairs).
Proof.
  induction pairs as [|[a b] pairs IH]; cbn [collisionStart].
  - keeps_step. exact Logic.I.
  - keeps_step.
    + unfold_callbacks. repeat keeps_step; settled_leaf.
    + destruct a0; [exact IH|]. keeps_step. exact Logic.I.
Qed.

Lemma keeps_settled_handle (e : Event) :
  keeps settled anything (handle matterRadius e).
Proof.
  destruct e as [body pos|pairs|posX|posX|n|].
  2: exact (keeps_settled_collisionStart pairs).
  all: unfold_callbacks; repeat keeps_step; settled_leaf.
Qed.

Lemma settled_started (stored : option Z) (now : Z) (mouse : float) :
  settled (started matterRadius stored now mouse).
Proof.
  constructor.
  - intros j body.
    destruct stored; vm_compute;
      do 4 (destruct j as [|j]; [intros [= <-]; discriminate|]); discriminate.
  - intros i size.
    destruct stored; vm_compute;
      do 11 (destruct i as [|i]; [intros [= <-]; auto|]); discriminate.
Qed.

Lemma reachable_settled (g : GameInterface) : reachable matterRadius g -> settled g.
Proof.
  intros (stored & now & mouse & events & ->).
  pose proof (settled_started stored now mouse) as H. revert H.
  generalize (started matterRadius stored now mouse).
  unfold run. induction events as [|e events IH]; intros g0 Hg0; simpl; [exact Hg0|].
  apply IH. exact (proj1 (keeps_settled_handle e g0 Hg0)).
Qed.

(** ** The lose line *)

(** Subtracting and adding 0 give values that compare alike. *)
Lemma ltb_minus_zero (v h : float) : (v - 0 <? h)%float = (v + 0 <? h)%float.
Proof.
  rewrite !FloatAxioms.ltb_spec, FloatAxioms.sub_spec, FloatAxioms.add_spec.
  change (FloatOps.Prim2SF 0) with (SpecFloat.S754_zero false).
  destruct (FloatOps.Prim2SF v) as [[]|[]| |[] m e]; reflexivity.
Qed.

(** For a body that reports the radius 0 the test of the handler, on [y]
    plus the radius, is the test on the top edge, [y] minus the radius. *)
Lemma tooHigh_topEdge (body : FruitBody) :
  circleRadius body = Some 0%float ->
  tooHigh body = (topEdge body <? loseHeight)%float.
Proof.
  intros Hr. unfold tooHigh, lowEdge, topEdge. rewrite Hr.
  change (JS.orZero (Some 0%float)) with 0%float. symmetry. apply ltb_minus_zero.
Qed.

(** C2: in a session, when the handler reaches a pair of non-static bodies
    one of which has its top edge -- [position.y] minus the circle radius the
    engine reports, 0 when there is none -- numerically below [loseHeight],
    84, the game goes to LOSE at once and the rest of the batch is not
    processed: the outcome is that of [loseGame] on the state the pair was
    reached in, whatever pairs follow, so that no later pair is merged and no
    body is created, removed or counted as merged. *)
Theorem lose_precedence (g : GameInterface) (a b : nat) (bodyA bodyB : FruitBody)
    (rest : list (nat * nat)) :
  reachable matterRadius g ->
  heap g !! a = Some bodyA ->
  heap g !! b = Some bodyB ->
  isStatic bodyA = false ->
  isStatic bodyB = false ->
  (topEdge bodyA <? loseHeight)%float = true
  \/ (topEdge bodyB <? loseHeight)%float = true ->
  let g' := fst (collisionStart matterRadius ((a, b) :: rest) g) in
  loseHeight = 84%float
  /\ topEdge bodyA = (y (position bodyA) - JS.orZero (circleRadius bodyA))%float
  /\ stateIndex g' = LOSE
  /\ g' = fst (loseGame g)
  /\ collisionStart matterRadius ((a, b) :: rest) g
     = collisionStart matterRadius [(a, b)] g
  /\ merges matterRadius ((a, b) :: rest) g = []
  /\ heap g' = heap g
  /\ world g' = world g
  /\ fruitsMerged g' = fruitsMerged g.
Proof.
  intros Hreach Ha Hb HsA HsB Hhigh g'.
  pose proof (reachable_settled g Hreach) as Hsettled.
  pose proof (settled_radius g Hsettled a bodyA Ha HsA) as HrA.
  pose proof (settled_radius g Hsettled b bodyB Hb HsB) as HrB.
  rewrite <- (tooHigh_topEdge bodyA HrA), <- (tooHigh_topEdge bodyB HrB) in Hhigh.
  destruct (collisionStart_loses matterRadius g a b bodyA bodyB rest Ha Hb HsA HsB Hhigh)
    as (Hline & _ & Hstate & Hlose & Hsame & Hheap & Hworld & Hmerged).
  subst g'. split; [exact Hline|]. split; [reflexivity|]. split; [exact Hstate|].
  split; [exact Hlose|]. split; [exact Hsame|]. split; [|auto].
  assert (Hor : tooHigh bodyA || tooHigh bodyB = true).
  { destruct Hhigh as [-> | ->]; [reflexivity|apply orb_true_r]. }
  assert (Hsel : selects g (a, b) = false).
  { unfold selects. cbn [fst snd]. rewrite Ha, Hb. cbv beta iota.
    rewrite Hor, andb_false_r. reflexivity. }
  cbn [merges]. rewrite Hsel.
  rewrite (collisionPair_loses matterRadius g a b bodyA bodyB Ha Hb HsA HsB Hor).
  destruct (snd (loseGame g)) as [[]|]; reflexivity.
Qed.

(** ** The end of the catalog *)

Lemma top_radius_not_reached (g : GameInterface) (top : FruitSize) :
  wf g ->
  settled g ->
  fruitSizes g !! (length (fruitSizes g) - 1) = Some top ->
  reachedMax (radius top) 0 = false.
Proof.
  intros Hwf Hsettled Htop.
  destruct (settled_cache g Hsettled _ top Htop) as [-> | ->]; [reflexivity|].
  pose proof (sameTiers_radii _ _ (wf_catalog g Hwf)) as Hradii.
  pose proof (sameTiers_length _ _ (wf_catalog g Hwf)) as Hlen.
  rewrite Hlen in Htop. change (length fruitSizes0 - 1) with 10 in Htop.
  assert (Hr : map computedRadius (fruitSizes g) !! 10 = Some (computedRadius top))
    by (rewrite list_lookup_fmap, Htop; reflexivity).
  rewrite Hradii in Hr. remember (computedRadius top) as r eqn:Er.
  vm_compute in Hr. injection Hr as <-. reflexivity.
Qed.

(** C3, what the code does: in a session, when the handler reaches two
    fruits of the last tier that it selects for a merge, the successor index
    is not wrapped to 0.  Both fruits report the radius 0, which is below the
    radius of the last tier, so the index is one past the end of the catalog
    and [generateFruitBody] throws: the merge is counted, both fruits are
    marked popped and removed from the world, but no successor of any tier
    and no pop circle is created, the score is not recomputed and the rest of
    the batch is not processed. *)
Theorem top_tier_no_wraparound (g : GameInterface) (a b : nat) (bodyA bodyB : FruitBody)
    (rest : list (nat * nat)) :
  reachable matterRadius g ->
  heap g !! a = Some bodyA ->
  heap g !! b = Some bodyB ->
  isStatic bodyA = false ->
  isStatic bodyB = false ->
  tooHigh bodyA = false ->
  tooHigh bodyB = false ->
  sizeIndex bodyA = Some (length (fruitSizes g) - 1) ->
  sizeIndex bodyB = Some (length (fruitSizes g) - 1) ->
  popped bodyA = false ->
  popped bodyB = false ->
  let g' := fst (collisionStart matterRadius ((a, b) :: rest) g) in
  snd (collisionStart matterRadius ((a, b) :: rest) g) = None
  /\ heap g' = alter (set_popped true) b (alter (set_popped true) a (heap g))
  /\ length (heap g') = length (heap g)
  /\ world g' = List.filter (fun j => negb (memb j [a; b])) (world g)
  /\ fruitsMerged g'
     = alter (fun count => (count + 1)%Z) (length (fruitSizes g) - 1) (fruitsMerged g)
  /\ score g' = score g.
Proof.
  intros Hreach Ha Hb HsA HsB HhA HhB HtA HtB HpA HpB g'. subst g'.
  pose proof (reachable_wf matterRadius g Hreach) as Hwf.
  pose proof (reachable_settled g Hreach) as Hsettled.
  pose proof (sameTiers_length _ _ (wf_catalog g Hwf)) as Hlen.
  change (length fruitSizes0) with 11 in Hlen.
  destruct (lookup_lt_is_Some_2 (fruitSizes g) (length (fruitSizes g) - 1))
    as [top Htop]; [lia|].
  pose proof (top_radius_not_reached g top Hwf Hsettled Htop) as Hmax.
  pose proof (settled_radius g Hsettled a bodyA Ha HsA) as HrA.
  unfold tooHigh, lowEdge in *.
  cbn [collisionStart].
  unfold collisionPair, deref, bind, get, modify, ret, throw. simpl.
  rewrite Ha, Hb. simpl.
  rewrite HsA, HsB, HhA, HhB, HtA, HtB, HpA, HpB. simpl. rewrite Nat.eqb_refl. simpl.
  unfold maxRadiusOf. rewrite Htop. simpl. rewrite HrA.
  change (JS.orZero (Some 0%float)) with 0%float. rewrite Hmax.
  rewrite generateFruitBody_throws by (simpl; lia).
  simpl. rewrite !length_alter. repeat split; reflexivity.
Qed.

End Matter.

(** ** The properties at sample states *)

Lemma merge_determinism_witness :
  snd (collisionPair radiusEngine (3, 4) lowPair) = Some Continue
  /\ sizeIndex <$> heap (fst (collisionPair radiusEngine (3, 4) lowPair)) !! 5
     = Some (Some 2)
  /\ fruitsMerged (fst (collisionPair radiusEngine (3, 4) lowPair)) !! 1 = Some 1%Z.
Proof.
  destruct (merge_determinism radiusEngine lowPair 3 4 1
              (fruit 1 300 500 32) (fruit 1 340 520 32))
    as (config & count & Hconfig & Hcount & Hret & Hheap & _ & _ & _ & Hmerged & _);
    try reflexivity.
  - simpl. lia.
  - intros maxRadius Hmax. vm_compute in Hmax. injection Hmax as <-. reflexivity.
  - split; [exact Hret|]. split.
    + rewrite Hheap. reflexivity.
    + rewrite Hmerged. injection Hcount as <-. reflexivity.
Defined.

(** C1, as the specification states it, fails.  The two fruits of
    [highPair] are non-static, unpopped and of tier 0, below the last tier,
    yet the handler ends the game on their pair: no body is created, both
    stay in the world and no merge is counted.  The two fruits of [widePair]
    satisfy the same premises and merge into a fruit of tier 0, not 1. *)
Lemma merge_determinism_counterexample :
  (heap highPair !! 3 = Some (fruit 0 300 50 24)
   /\ heap highPair !! 4 = Some (fruit 0 330 80 24)
   /\ 0 < length (fruitSizes highPair) - 1
   /\ let g' := fst (collisionPair radiusEngine (3, 4) highPair) in
      heap g' = heap highPair /\ world g' = world highPair
      /\ fruitsMerged g' = fruitsMerged highPair /\ stateIndex g' = LOSE)
  /\ (heap widePair !! 3 = Some (fruit 0 300 500 200)
      /\ heap widePair !! 4 = Some (fruit 0 330 500 200)
      /\ let g' := fst (collisionPair radiusEngine (3, 4) widePair) in
         sizeIndex <$> heap g' !! 5 = Some (Some 0)).
Proof. vm_compute. repeat split; lia. Qed.

Lemma drops_use_low_tiers_witness :
  reachable radiusEngine readySession
  /\ stateIndex readySession = READY
  /\ currentFruitSize readySession <= 4
  /\ length (fruitSizes readySession) = 11.
Proof.
  assert (Hreach : reachable radiusEngine readySession).
  { exists None, 1700000000000%Z, 320%float, [Timeout 0]. reflexivity. }
  assert (Hstate : stateIndex readySession = READY) by reflexivity.
  split; [exact Hreach|]. split; [exact Hstate|].
  destruct (drops_use_low_tiers radiusEngine readySession 100%float Hreach Hstate)
    as (_ & Hcur & _ & Hlen & _).
  split; [exact Hcur|exact Hlen].
Defined.

Lemma addFruit_ignored_unless_ready_witness :
  stateIndex droppingSession = DROP
  /\ stateIndex droppingSession <> READY
  /\ addFruit radiusEngine 250%float droppingSession = (droppingSession, Some tt).
Proof.
  assert (Hdrop : stateIndex droppingSession = DROP) by (vm_compute; reflexivity).
  assert (Hstate : stateIndex droppingSession <> READY) by (rewrite Hdrop; discriminate).
  split; [exact Hdrop|]. split; [exact Hstate|].
  exact (proj1 (addFruit_ignored_unless_ready radiusEngine droppingSession 250%float
                  Hstate)).
Defined.


Lemma lookupFruitIndex_round_trip_witness :
  sameTiers (fruitSizes readySession) fruitSizes0
  /\ (exists size : FruitSize,
        fruitSizes readySession !! 3 = Some size
        /\ lookupFruitIndex readySession (computedRadius size) = Some 3)
  /\ (exists size : FruitSize,
        fruitSizes readySession !! 10 = Some size
        /\ lookupFruitIndex readySession (computedRadius size) = None).
Proof.
  assert (Hsame : sameTiers (fruitSizes readySession) fruitSizes0) by reflexivity.
  split; [exact Hsame|].
  destruct (fruitSizes readySession !! 3) as [size3|] eqn:H3; [|discriminate].
  destruct (fruitSizes readySession !! 10) as [size10|] eqn:H10; [|discriminate].
  split.
  - exists size3. split; [reflexivity|].
    exact (proj2 (lookupFruitIndex_round_trip readySession 3 size3 Hsame H3)).
  - exists size10. split; [reflexivity|].
    exact (proj2 (lookupFruitIndex_round_trip readySession 10 size10 Hsame H10)).
Defined.

(** ** On the engine as it is, at sample sessions *)

Lemma reachable_twoDrops : reachable matterRadius twoDrops.
Proof.
  exists None, 1700000000000%Z, 320%float,
    [Timeout 0; MouseUp 300; Timeout 0; MouseUp 340; Timeout 0]. reflexivity.
Qed.

Lemma lose_precedence_witness :
  reachable matterRadius twoDrops
  /\ heap twoDrops !! 4 = Some (fruit 0 300 32 0)
  /\ heap twoDrops !! 6 = Some (fruit 0 340 32 0)
  /\ (topEdge (fruit 0 300 32 0) <? loseHeight)%float = true
  /\ stateIndex (fst (collisionStart matterRadius [(4, 6); (4, 6)] twoDrops)) = LOSE
  /\ merges matterRadius [(4, 6); (4, 6)] twoDrops = [].
Proof.
  assert (Ha : heap twoDrops !! 4 = Some (fruit 0 300 32 0)) by (vm_compute; reflexivity).
  assert (Hb : heap twoDrops !! 6 = Some (fruit 0 340 32 0)) by (vm_compute; reflexivity).
  assert (Hhigh : (topEdge (fruit 0 300 32 0) <? loseHeight)%float = true
                  \/ (topEdge (fruit 0 340 32 0) <? loseHeight)%float = true)
    by (left; reflexivity).
  split; [exact reachable_twoDrops|]. split; [exact Ha|]. split; [exact Hb|].
  split; [reflexivity|].
  destruct (lose_precedence twoDrops 4 6 (fruit 0 300 32 0) (fruit 0 340 32 0) [(4, 6)]
              reachable_twoDrops Ha Hb eq_refl eq_refl Hhigh)
    as (_ & _ & Hstate & _ & _ & Hmerges & _).
  split; [exact Hstate|exact Hmerges].
Defined.

Lemma reachable_topSession : reachable matterRadius topSession.
Proof. exists None, 1700000000000%Z, 320%float, topScript. reflexivity. Qed.

Lemma topSession_last_tier :
  heap topSession !! 640 = Some (fruit 10 320 500 0)
  /\ heap topSession !! 1306 = Some (fruit 10 320 500 0)
  /\ Some 10 = Some (length (fruitSizes topSession) - 1)
  /\ In 640 (world topSession) /\ In 1306 (world topSession).
Proof. vm_compute. repeat split; auto 10. Qed.

Lemma top_tier_no_wraparound_witness :
  reachable matterRadius topSession
  /\ heap topSession !! 640 = Some (fruit 10 320 500 0)
  /\ heap topSession !! 1306 = Some (fruit 10 320 500 0)
  /\ snd (collisionStart matterRadius [(640, 1306)] topSession) = None
  /\ length (heap (fst (collisionStart matterRadius [(640, 1306)] topSession)))
     = length (heap topSession).
Proof.
  destruct topSession_last_tier as (Ha & Hb & Htier & _).
  split; [exact reachable_topSession|]. split; [exact Ha|]. split; [exact Hb|].
  destruct (top_tier_no_wraparound topSession 640 1306 (fruit 10 320 500 0)
              (fruit 10 320 500 0) [] reachable_topSession Ha Hb eq_refl eq_refl
              eq_refl eq_refl Htier Htier eq_refl eq_refl)
    as (Hthrows & _ & Hlen & _).
  split; [exact Hthrows|exact Hlen].
Defined.

(** ** The further properties at sample states *)

Lemma wf_playing (fruits : list FruitBody) :
  Forall (fun body => forall k : nat, sizeIndex body = Some k -> k < 11) fruits ->
  wf (playing fruits).
Proof.
  intros Hfruits. constructor.
  - reflexivity.
  - reflexivity.
  - simpl. lia.
  - simpl. lia.
  - intros i body k Hi Hk. change (length fruitSizes0) with 11.
    unfold playing in Hi. cbn [heap] in Hi.
    apply lookup_app_Some in Hi as [Hi|[_ Hi]].
    + do 3 (destruct i as [|i]; [injection Hi as <-; discriminate|]). discriminate.
    + rewrite Forall_forall in Hfruits.
      exact (Hfruits body (list_elem_of_lookup_2 _ _ _ Hi) k Hk).
  - intros h Hh. simpl in Hh. injection Hh as <-. reflexivity.
Qed.

Lemma reachable_readySession : reachable radiusEngine readySession.
Proof. exists None, 1700000000000%Z, 320%float, [Timeout 0]. reflexivity. Qed.

Lemma loseGame_records_best_witness :
  length (fruitsMerged lowPair) <= length (fruitSizes lowPair)
  /\ stateIndex (fst (loseGame lowPair)) = LOSE
  /\ runnerEnabled (fst (loseGame lowPair)) = false.
Proof.
  assert (Hlen : length (fruitsMerged lowPair) <= length (fruitSizes lowPair))
    by (simpl; lia).
  split; [exact Hlen|].
  destruct (loseGame_records_best lowPair Hlen) as (_ & Hstate & Hrunner & _).
  split; [exact Hstate|exact Hrunner].
Defined.

Lemma loadHighscore_after_save_witness :
  synced lowPair
  /\ fst (loadHighscore (fst (saveHighscore lowPair))) = fst (saveHighscore lowPair).
Proof.
  assert (Hs : synced lowPair) by (intros h Hh; injection Hh as <-; reflexivity).
  split; [exact Hs|]. exact (proj1 (loadHighscore_after_save lowPair Hs)).
Defined.

Lemma addPop_is_transient_witness :
  worldInHeap lowPair
  /\ world (fst (fire (TimerPop 5) (fst (addPop 320 510 32 lowPair)))) = world lowPair.
Proof.
  assert (Hw : worldInHeap lowPair).
  { intros j Hj. simpl in Hj. simpl. lia. }
  split; [exact Hw|].
  destruct (addPop_is_transient lowPair 320 510 32 Hw) as (_ & _ & _ & _ & _ & _ & _ & _ & H & _).
  exact H.
Defined.

Lemma play_bounded_witness :
  AudioPool.bounded ∅
  /\ AudioPool.bounded
       (AudioPool.play (fun a => a) AudioPool.stopped AudioPool.started AudioPool.click 1 ∅).
Proof.
  assert (Hb : AudioPool.bounded ∅).
  { intros key pool Hpool. rewrite lookup_empty in Hpool. discriminate. }
  split; [exact Hb|].
  exact (proj1 (play_bounded (fun a => a) AudioPool.stopped AudioPool.started
                  AudioPool.click 1 ∅ Hb)).
Defined.

Lemma merge_adds_consumed_value_witness :
  score (fst (collisionPair radiusEngine (3, 4) lowPair)) = 5%Z.
Proof.
  destruct (fruitSizes lowPair !! 10) as [top|] eqn:Htop; [|discriminate].
  destruct (fruitSizes lowPair !! 2) as [config|] eqn:Hconfig; [|discriminate].
  destruct (fruitSizes lowPair !! 1) as [tier|] eqn:Htier; [|discriminate].
  assert (Hnew : 2 = if reachedMax (radius top)
                          (JS.orZero (circleRadius (fruit 1 300 500 32)))
                     then 0 else 1 + 1)
    by (vm_compute in Htop; injection Htop as <-; reflexivity).
  assert (Hlen : length (fruitsMerged lowPair) = length (fruitSizes lowPair))
    by reflexivity.
  rewrite (merge_adds_consumed_value radiusEngine lowPair 3 4 1 2
             (fruit 1 300 500 32) (fruit 1 340 520 32) config top tier
             eq_refl eq_refl eq_refl eq_refl eq_refl eq_refl eq_refl eq_refl
             eq_refl eq_refl Htop Hnew Hconfig Hlen Htier).
  vm_compute in Htier. injection Htier as <-. reflexivity.
Defined.

Lemma collisionStart_passes_over_witness :
  Forall (fun p => passesOver lowPair p = true) [(2, 3); (3, 2)]
  /\ collisionStart radiusEngine [(2, 3); (3, 2)] lowPair = (lowPair, Some tt).
Proof.
  assert (Hp : Forall (fun p => passesOver lowPair p = true) [(2, 3); (3, 2)])
    by (repeat constructor).
  split; [exact Hp|]. exact (collisionStart_passes_over radiusEngine lowPair _ Hp).
Defined.

Lemma last_tier_merge_throws_witness :
  snd (collisionStart radiusEngine [(3, 4); (3, 4)] smallTopPair) = None
  /\ score (fst (collisionStart radiusEngine [(3, 4); (3, 4)] smallTopPair)) = 0%Z
  /\ fruitsMerged (fst (collisionStart radiusEngine [(3, 4); (3, 4)] smallTopPair)) !! 10
     = Some 1%Z.
Proof.
  destruct (fruitSizes smallTopPair !! 10) as [top|] eqn:Htop; [|discriminate].
  assert (Hmax : reachedMax (radius top)
                   (JS.orZero (circleRadius (fruit 10 200 600 100))) = false)
    by (vm_compute in Htop; injection Htop as <-; reflexivity).
  destruct (last_tier_merge_throws radiusEngine smallTopPair 3 4 10
              (fruit 10 200 600 100) (fruit 10 420 640 100) top [(3, 4)]
              eq_refl eq_refl eq_refl eq_refl eq_refl eq_refl eq_refl eq_refl
              eq_refl eq_refl eq_refl Htop Hmax)
    as (Hthrows & _ & _ & Hmerged & Hscore & _).
  split; [exact Hthrows|]. split; [exact Hscore|]. rewrite Hmerged. reflexivity.
Defined.

Lemma restartGame_clears_witness :
  fruitSizes mergedPair <> []
  /\ score (fst (restartGame radiusEngine mergedPair)) = 0%Z
  /\ fruitsMerged (fst (restartGame radiusEngine mergedPair)) = replicate 11 0%Z.
Proof.
  assert (Hsizes : fruitSizes mergedPair <> []) by (vm_compute; discriminate).
  split; [exact Hsizes|].
  destruct (restartGame_clears radiusEngine mergedPair Hsizes) as (_ & Hscore & Hmerged & _).
  split; [exact Hscore|]. rewrite Hmerged. reflexivity.
Defined.

Lemma restart_after_lose_witness :
  stateIndex lostGame = LOSE
  /\ stateIndex (exec (handle radiusEngine ClickRestart) lostGame) = LOSE
  /\ stateIndex (exec (handle radiusEngine (Timeout 0))
                   (exec (handle radiusEngine ClickRestart) lostGame)) = READY.
Proof.
  assert (Hsizes : fruitSizes lostGame <> []) by (vm_compute; discriminate).
  assert (Hlose : stateIndex lostGame = LOSE) by reflexivity.
  split; [exact Hlose|].
  destruct (restart_after_lose radiusEngine lostGame 100 Hsizes Hlose)
    as (Hstate1 & _ & Hstate2 & _).
  split; [exact Hstate1|exact Hstate2].
Defined.

Lemma drop_cycle_witness :
  stateIndex readySession = READY
  /\ previewBall readySession = Some 3
  /\ stateIndex (exec (handle radiusEngine (MouseUp 100)) readySession) = DROP
  /\ stateIndex (exec (handle radiusEngine (Timeout 0))
                   (exec (handle radiusEngine (MouseUp 100)) readySession)) = READY.
Proof.
  assert (Hwf : wf readySession)
    by exact (reachable_wf radiusEngine readySession reachable_readySession).
  assert (Hstate : stateIndex readySession = READY) by reflexivity.
  assert (Hball : previewBall readySession = Some 3) by reflexivity.
  assert (Hlt : 3 < length (heap readySession)) by (simpl; lia).
  split; [exact Hstate|]. split; [exact Hball|].
  destruct (drop_cycle radiusEngine readySession 100 3 Hwf Hstate Hball Hlt)
    as (Hstate1 & _ & _ & _ & _ & _ & _ & Hstate2 & _).
  split; [exact Hstate1|exact Hstate2].
Defined.

Lemma second_drop_ignored_witness :
  stateIndex readySession = READY
  /\ length (heap (exec (handle radiusEngine (MouseUp 100)) readySession)) = 6
  /\ exec (handle radiusEngine (MouseUp 200))
       (exec (handle radiusEngine (MouseUp 100)) readySession)
     = set_mouseX 200 (exec (handle radiusEngine (MouseUp 100)) readySession).
Proof.
  assert (Hwf : wf readySession)
    by exact (reachable_wf radiusEngine readySession reachable_readySession).
  assert (Hstate : stateIndex readySession = READY) by reflexivity.
  split; [exact Hstate|].
  destruct (second_drop_ignored radiusEngine readySession 100 200 Hwf Hstate)
    as (_ & Hlen & Hsecond).
  split; [exact Hlen|exact Hsecond].
Defined.

Lemma session_stays_in_range_witness :
  reachable radiusEngine droppingSession
  /\ snd (calculateScore droppingSession) = Some tt
  /\ length (fruitsMerged droppingSession) = length (fruitSizes droppingSession).
Proof.
  assert (Hreach : reachable radiusEngine droppingSession).
  { exists None, 1700000000000%Z, 320%float, [Timeout 0; MouseUp 100%float]. reflexivity. }
  split; [exact Hreach|].
  destruct (session_stays_in_range radiusEngine droppingSession Hreach)
    as (Hscore & _ & Hlen & _).
  split; [exact Hscore|exact Hlen].
Defined.

Lemma popped_for_good_witness :
  poppedAt 3 (heap mergedPair)
  /\ poppedAt 3 (heap (run radiusEngine [MouseMove 10; ClickRestart] mergedPair))
  /\ List.filter (involves 3)
       (merges radiusEngine [(3, 4); (3, 5)]
          (run radiusEngine [MouseMove 10; ClickRestart] mergedPair)) = [].
Proof.
  assert (Hp : poppedAt 3 (heap mergedPair)).
  { exists (set_popped true (fruit 1 300 500 32)). split; reflexivity. }
  split; [exact Hp|].
  exact (popped_for_good radiusEngine mergedPair 3 [MouseMove 10; ClickRestart]
           [(3, 4); (3, 5)] Hp).
Defined.

Lemma batch_counts_merges_witness :
  wf triple
  /\ sumZ (fruitsMerged (fst (collisionStart radiusEngine [(3, 4); (4, 5)] triple)))
     = (sumZ (fruitsMerged triple)
        + Z.of_nat (length (merges radiusEngine [(3, 4); (4, 5)]%nat triple)))%Z.
Proof.
  assert (Hwf : wf triple).
  { apply wf_playing.
    repeat (apply List.Forall_cons; [intros k [= <-]; lia|]). apply List.Forall_nil. }
  split; [exact Hwf|].
  exact (batch_counts_merges radiusEngine [(3, 4); (4, 5)] triple Hwf).
Defined.

Lemma world_holds_live_bodies_witness :
  reachable radiusEngine readySession
  /\ (forall ball : nat,
        previewBall readySession = Some ball ->
        isStaticAt (heap readySession) ball = true).
Proof.
  split; [exact reachable_readySession|].
  exact (proj1 (proj2 (world_holds_live_bodies radiusEngine readySession
                         reachable_readySession))).
Defined.

Lemma lost_until_restart_witness :
  stateIndex lostGame = LOSE
  /\ stateIndex (run radiusEngine [MouseUp 100; Timeout 0; MouseMove 50] lostGame) = LOSE.
Proof.
  assert (Hstate : stateIndex lostGame = LOSE) by reflexivity.
  assert (Htimers : ~ In TimerReady (timers lostGame)) by (intros []).
  assert (Hevents : Forall (fun e => e <> ClickRestart)
                      [MouseUp 100; Timeout 0; MouseMove 50])
    by (repeat constructor; discriminate).
  split; [exact Hstate|].
  exact (proj1 (lost_until_restart radiusEngine lostGame _ Hstate Htimers Hevents)).
Defined.
